(** * StrKit: a shallow embedding of [src/strkit.c] and its properties

    The C library works on NUL-terminated [char] buffers and on [int]
    indices.  The embedding keeps both visible:

    - a code unit and an [int] are integers of [Z]; every [int] result
      that the C code computes goes through [to_int], the 32-bit
      two's-complement wrap-around, and every [malloc] argument through
      [to_size], the conversion to a 64-bit [size_t].  ISO C leaves a
      signed overflow undefined; the wrap-around is what the usual
      targets compute, and the theorems say where it cannot happen;
    - a borrowed buffer (a pointer argument to [char]) is
      [option (list Z)]: [None] is the NULL pointer, [Some b] lists the
      cells found from the pointer onwards.  The terminator need not be
      listed: every cell past the end of [b] holds 0, so each list is a
      valid C string whose text stops at its first 0 cell;
    - owned results live in a heap of sized blocks handed out by
      [malloc]; an access outside a live block is a fault. *)

From Stdlib Require Import ZArith Lia.
From stdpp Require Import gmap list strings.

Local Open Scope Z_scope.

(** ** Machine integers *)

Definition INT_MAX : Z := 2147483647.
Definition INT_MIN : Z := -2147483648.

(** Value of an [int] expression: wrap-around into [INT_MIN, INT_MAX]. *)
Definition to_int (z : Z) : Z := (z + 2147483648) mod 4294967296 - 2147483648.

(** Conversion of an integer to [size_t] (LP64: 64 bits, unsigned). *)
Definition to_size (z : Z) : Z := z mod 18446744073709551616.

(** Size of a pointer to [char] on LP64. *)
Definition SIZEOF_PTR : Z := 8.

(** The largest request an allocator can grant ([PTRDIFF_MAX]). *)
Definition ALLOC_MAX : Z := 9223372036854775807.

(** ** Private helpers of the library *)

(** [(c >= 'a' && c <= 'z') ? c - 32 : c] *)
Definition char_capitalize (c : Z) : Z :=
  if (97 <=? c) && (c <=? 122) then c - 32 else c.

(** [(c >= 'A' && c <= 'Z') ? c + 32 : c] *)
Definition char_decapitalize (c : Z) : Z :=
  if (65 <=? c) && (c <=? 90) then c + 32 else c.

(** [' '], ['\t'], ['\n'], ['\r'], ['\f'], ['\v'] *)
Definition is_whitespace (c : Z) : bool :=
  (c =? 32) || (c =? 9) || (c =? 10) || (c =? 13) || (c =? 12) || (c =? 11).

(** ** Borrowed buffers *)

(** [b[i]]: cells past the listed ones hold the terminator. *)
Definition peek (b : list Z) (i : Z) : Z :=
  if i <? 0 then 0 else default 0 (b !! Z.to_nat i).

(** [b[i] = v].  A write past the listed cells materialises the cells in
    between, which hold 0. *)
Definition poke (b : list Z) (i : Z) (v : Z) : list Z :=
  if i <? 0 then b
  else if i <? Z.of_nat (length b) then <[Z.to_nat i := v]> b
  else b ++ replicate (Z.to_nat i - length b)%nat 0 ++ [v].

(** Number of steps of [while ( *ptr ) ptr++] started on the cells [p]. *)
Fixpoint c_scan (p : list Z) : nat :=
  match p with
  | [] => 0%nat
  | c :: p' => if c =? 0 then 0%nat else S (c_scan p')
  end.

(** The text held by a buffer: its cells before the terminator. *)
Definition content (b : list Z) : list Z := take (c_scan b) b.

(** The text of a possibly absent buffer; an absent one holds no unit. *)
Definition units (text : option (list Z)) : list Z :=
  match text with None => [] | Some b => content b end.

(** A buffer that the library's [int] arithmetic can measure: its length
    stays within [int] together with the [+ 1] of a terminator and the
    [+ 1] of the slot that ends a token array. *)
Definition fits (b : list Z) : Prop := Z.of_nat (c_scan b) + 2 <= INT_MAX.

(** Code units of a string literal. *)
Definition lit (s : string) : list Z :=
  map (fun a => Z.of_N (Ascii.N_of_ascii a)) (String.list_ascii_of_string s).

(** ** Measurement and access *)

(** [str_len]: [ptr - text] after the scan, returned as [int]. *)
Definition str_len (text : option (list Z)) : Z :=
  match text with
  | None => 0
  | Some b => to_int (Z.of_nat (c_scan b))
  end.

(** [str_char_at] *)
Definition str_char_at (text : option (list Z)) (index : Z) : Z :=
  match text with
  | None => 0
  | Some b =>
      if index <? 0 then 0
      else
        let len := str_len text in
        if index >=? len then 0 else peek b index
  end.

(** ** Searching *)

(** The loop of [index_of]; [p] are the cells at [ptr], [pos] is
    [ptr - text]. *)
Fixpoint index_of_loop (search : Z) (p : list Z) (pos : Z) : Z :=
  match p with
  | [] => -1
  | c :: p' =>
      if c =? 0 then -1
      else if c =? search then to_int pos
      else index_of_loop search p' (pos + 1)
  end.

(** [index_of] *)
Definition index_of (search : Z) (text : option (list Z)) : Z :=
  match text with
  | None => -1
  | Some b => index_of_loop search b 0
  end.

(** ** In-place case conversion

    An in-place routine returns its argument pointer; the embedding
    returns the buffer as the routine leaves it. *)

(** [while ( *p ) { *p = char_capitalize( *p ); p++; }] *)
Fixpoint uppercase_loop (p : list Z) : list Z :=
  match p with
  | [] => []
  | c :: p' => if c =? 0 then p else char_capitalize c :: uppercase_loop p'
  end.

Definition str_uppercase (text : option (list Z)) : option (list Z) :=
  match text with
  | None => None
  | Some b => Some (uppercase_loop b)
  end.

(** [while ( *p ) { *p = char_decapitalize( *p ); p++; }] *)
Fixpoint lowercase_loop (p : list Z) : list Z :=
  match p with
  | [] => []
  | c :: p' => if c =? 0 then p else char_decapitalize c :: lowercase_loop p'
  end.

Definition str_lowercase (text : option (list Z)) : option (list Z) :=
  match text with
  | None => None
  | Some b => Some (lowercase_loop b)
  end.

(** The loop of [str_title], with its flag [capitalize_next]. *)
Fixpoint title_loop (capitalize_next : bool) (p : list Z) : list Z :=
  match p with
  | [] => []
  | c :: p' =>
      if c =? 0 then p
      else if is_whitespace c then c :: title_loop true p'
      else if capitalize_next then char_capitalize c :: title_loop false p'
      else char_decapitalize c :: title_loop false p'
  end.

Definition str_title (text : option (list Z)) : option (list Z) :=
  match text with
  | None => None
  | Some b => Some (title_loop true b)
  end.

(** ** In-place trimming *)

(** Steps of [while ( *start && is_whitespace( *start )) start++]. *)
Fixpoint skip_ws (p : list Z) : nat :=
  match p with
  | [] => 0%nat
  | c :: p' =>
      if negb (c =? 0) && is_whitespace c then S (skip_ws p') else 0%nat
  end.

(** [while (end > start && is_whitespace( *end )) end--]; the loop runs
    at most [end - start] times, which bounds the fuel. *)
Fixpoint back_ws (fuel : nat) (b : list Z) (start end_ : Z) : Z :=
  match fuel with
  | O => end_
  | S fuel' =>
      if (end_ >? start) && is_whitespace (peek b end_)
      then back_ws fuel' b start (end_ - 1)
      else end_
  end.

(** [while (( *dest++ = *start++ ));] stops after copying a terminator,
    which it meets within the listed cells or right after them. *)
Fixpoint shift_loop (fuel : nat) (b : list Z) (dest start : Z) : list Z :=
  match fuel with
  | O => b
  | S fuel' =>
      let c := peek b start in
      let b' := poke b dest c in
      if c =? 0 then b' else shift_loop fuel' b' (dest + 1) (start + 1)
  end.

(** [str_trim] *)
Definition str_trim (s : option (list Z)) : option (list Z) :=
  match s with
  | None => None
  | Some b =>
      let start := Z.of_nat (skip_ws b) in
      if peek b start =? 0 then Some (poke b 0 0)
      else
        let end0 := str_len s - 1 in
        let end_ := back_ws (Z.to_nat (end0 - start)) b start end0 in
        let b1 := poke b (end_ + 1) 0 in
        if start >? 0
        then Some (shift_loop (S (length b1)) b1 0 start)
        else Some b1
  end.

(** ** The allocator's heap

    A block is an array of [char] cells or an array of pointer slots; a
    slot that was never written holds no pointer.  [budget] is the
    allocator's answer to each coming request, in order, and a request
    made when none is left is refused; [junk] is what the cells of a new
    [char] block hold before they are written. *)

Definition loc := positive.

Inductive ptr : Type :=
  | NULL
  | Ptr (l : loc).

Inductive block : Type :=
  | Chars (cells : list Z)
  | Slots (slots : list (option ptr)).

Record heap : Type := Heap {
  blocks : gmap loc block;
  budget : list bool;
  junk : Z
}.

(** A computation on the heap; [None] is a fault (an access outside a
    live block, a read of a slot never written, a double free). *)
Definition M (A : Type) : Type := heap -> option (A * heap).

Definition ret {A : Type} (a : A) : M A := fun h => Some (a, h).

Definition bind {A B : Type} (m : M A) (k : A -> M B) : M B :=
  fun h => match m h with
           | None => None
           | Some (a, h') => k a h'
           end.

Definition fault {A : Type} : M A := fun _ => None.

Notation "x <- m ;; k" := (bind m (fun x => k))
  (at level 100, m at next level, right associativity).
Notation "m ;; k" := (bind m (fun _ => k))
  (at level 100, right associativity).

(** The heap with block [l] set to [blk]. *)
Definition upd (l : loc) (blk : block) (h : heap) : heap :=
  Heap (<[l := blk]> (blocks h)) (budget h) (junk h).

(** [malloc(size)]: refused when the allocator says so or when the
    request exceeds [ALLOC_MAX]; the new block is [fresh_block]. *)
Definition malloc (fresh_block : heap -> block) (size : Z) : M ptr :=
  fun h =>
    match budget h with
    | [] => Some (NULL, h)
    | granted :: later =>
        if granted && (size <=? ALLOC_MAX)
        then
          let l := fresh (dom (blocks h)) in
          Some (Ptr l, Heap (<[l := fresh_block h]> (blocks h)) later (junk h))
        else Some (NULL, Heap (blocks h) later (junk h))
    end.

(** [malloc] of [size] bytes used as [char] cells. *)
Definition malloc_chars (size : Z) : M ptr :=
  malloc (fun h => Chars (replicate (Z.to_nat size) (junk h))) size.

(** [malloc] of [size] bytes used as pointer slots. *)
Definition malloc_slots (size : Z) : M ptr :=
  malloc (fun _ => Slots (replicate (Z.to_nat (size / SIZEOF_PTR)) None)) size.

(** [free(p)]; [free(NULL)] does nothing. *)
Definition free (p : ptr) : M unit :=
  fun h =>
    match p with
    | NULL => Some (tt, h)
    | Ptr l =>
        match blocks h !! l with
        | Some _ => Some (tt, Heap (delete l (blocks h)) (budget h) (junk h))
        | None => None
        end
    end.

(** [p[i] = c] on a [char] block. *)
Definition store_char (p : ptr) (i : Z) (c : Z) : M unit :=
  fun h =>
    match p with
    | NULL => None
    | Ptr l =>
        match blocks h !! l with
        | Some (Chars cs) =>
            if (0 <=? i) && (i <? Z.of_nat (length cs))
            then Some (tt, upd l (Chars (<[Z.to_nat i := c]> cs)) h)
            else None
        | _ => None
        end
    end.

(** [p[i]] on a [char] block. *)
Definition load_char (p : ptr) (i : Z) : M Z :=
  fun h =>
    match p with
    | NULL => None
    | Ptr l =>
        match blocks h !! l with
        | Some (Chars cs) =>
            if 0 <=? i
            then match cs !! Z.to_nat i with
                 | Some c => Some (c, h)
                 | None => None
                 end
            else None
        | _ => None
        end
    end.

(** [p[i] = q] on a block of pointers. *)
Definition store_slot (p : ptr) (i : Z) (q : ptr) : M unit :=
  fun h =>
    match p with
    | NULL => None
    | Ptr l =>
        match blocks h !! l with
        | Some (Slots ss) =>
            if (0 <=? i) && (i <? Z.of_nat (length ss))
            then Some (tt, upd l (Slots (<[Z.to_nat i := Some q]> ss)) h)
            else None
        | _ => None
        end
    end.

(** [p[i]] on a block of pointers. *)
Definition load_slot (p : ptr) (i : Z) : M ptr :=
  fun h =>
    match p with
    | NULL => None
    | Ptr l =>
        match blocks h !! l with
        | Some (Slots ss) =>
            if 0 <=? i
            then match ss !! Z.to_nat i with
                 | Some (Some q) => Some (q, h)
                 | _ => None
                 end
            else None
        | _ => None
        end
    end.

(** The slots of the block at [p], for a loop that only reads them. *)
Definition slots_at (p : ptr) : M (list (option ptr)) :=
  fun h =>
    match p with
    | NULL => None
    | Ptr l =>
        match blocks h !! l with
        | Some (Slots ss) => Some (ss, h)
        | _ => None
        end
    end.

(** The cells of the block at [p], seen as a C string by a routine that
    scans it: the terminator has to lie inside the block. *)
Definition cstr_at (p : ptr) : M (list Z) :=
  fun h =>
    match p with
    | NULL => None
    | Ptr l =>
        match blocks h !! l with
        | Some (Chars cs) =>
            if (c_scan cs <? length cs)%nat then Some (cs, h) else None
        | _ => None
        end
    end.

(** An in-place routine of the library run on the owned block at [p]. *)
Definition in_place (f : option (list Z) -> option (list Z)) (p : ptr)
  : M unit :=
  cs <- cstr_at p ;;
  fun h =>
    match p, f (Some cs) with
    | Ptr l, Some cs' =>
        if (length cs' =? length cs)%nat
        then Some (tt, upd l (Chars cs') h)
        else None
    | _, _ => None
    end.

(** [for (int i = 0; i < n; i++) dst[d + i] = src[s + i];] with [todo]
    the iterations left to run. *)
Fixpoint copy_loop (todo : nat) (dst : ptr) (d : Z) (src : list Z) (s : Z)
    (i : Z) : M unit :=
  match todo with
  | O => ret tt
  | S todo' =>
      store_char dst (d + i) (peek src (s + i)) ;;
      copy_loop todo' dst d src s (i + 1)
  end.

Definition copy_units (dst : ptr) (d : Z) (src : list Z) (s : Z) (n : Z)
  : M unit :=
  copy_loop (Z.to_nat n) dst d src s 0.

(** [malloc(1)] followed by [if (empty) *empty = 0; return empty;]. *)
Definition empty_string : M ptr :=
  empty <- malloc_chars (to_size 1) ;;
  match empty with
  | NULL => ret NULL
  | Ptr _ => store_char empty 0 0 ;; ret empty
  end.

(** ** Case conversion into a new buffer *)

(** [while ( *src ) { *dest++ = f( *src++ ); }], the loop that
    [str_uppercase_n] runs with [char_capitalize] and [str_lowercase_n]
    with [char_decapitalize]; it returns the final [dest]. *)
Fixpoint convert_loop (f : Z -> Z) (src : list Z) (new_text : ptr) (dest : Z)
  : M Z :=
  match src with
  | [] => ret dest
  | c :: src' =>
      if c =? 0 then ret dest
      else store_char new_text dest (f c) ;;
           convert_loop f src' new_text (dest + 1)
  end.

(** [str_uppercase_n] *)
Definition str_uppercase_n (text : option (list Z)) : M ptr :=
  match text with
  | None => ret NULL
  | Some b =>
      let len := str_len text in
      new_text <- malloc_chars (to_size (to_int (len + 1))) ;;
      match new_text with
      | NULL => ret NULL
      | Ptr _ =>
          dest <- convert_loop char_capitalize b new_text 0 ;;
          store_char new_text dest 0 ;;
          ret new_text
      end
  end.

(** [str_lowercase_n] *)
Definition str_lowercase_n (text : option (list Z)) : M ptr :=
  match text with
  | None => ret NULL
  | Some b =>
      let len := str_len text in
      new_text <- malloc_chars (to_size (to_int (len + 1))) ;;
      match new_text with
      | NULL => ret NULL
      | Ptr _ =>
          dest <- convert_loop char_decapitalize b new_text 0 ;;
          store_char new_text dest 0 ;;
          ret new_text
      end
  end.

(** [str_title_n]: copy, then [str_title] on the copy. *)
Definition str_title_n (text : option (list Z)) : M ptr :=
  match text with
  | None => ret NULL
  | Some b =>
      let len := str_len text in
      new_text <- malloc_chars (to_size (to_int (len + 1))) ;;
      match new_text with
      | NULL => ret NULL
      | Ptr _ =>
          copy_units new_text 0 b 0 len ;;
          store_char new_text len 0 ;;
          in_place str_title new_text ;;
          ret new_text
      end
  end.

(** ** Trimming into a new buffer *)

(** [str_trim_n] *)
Definition str_trim_n (s : option (list Z)) : M ptr :=
  match s with
  | None => ret NULL
  | Some b =>
      let start := Z.of_nat (skip_ws b) in
      if peek b start =? 0 then empty_string
      else
        let end0 := str_len s - 1 in
        let end_ := back_ws (Z.to_nat (end0 - start)) b start end0 in
        let new_len := to_int (end_ - start + 1) in
        result <- malloc_chars (to_size (to_int (new_len + 1))) ;;
        match result with
        | NULL => ret NULL
        | Ptr _ =>
            copy_units result 0 b start new_len ;;
            store_char result new_len 0 ;;
            ret result
        end
  end.

(** ** Substring and repetition *)

(** [str_substring_n] *)
Definition str_substring_n (text : option (list Z)) (start length : Z)
  : M ptr :=
  match text with
  | None => ret NULL
  | Some b =>
      let text_len := str_len text in
      let start := if start <? 0 then 0 else start in
      if start >=? text_len then empty_string
      else
        let length :=
          if (length <? 0) || (to_int (start + length) >? text_len)
          then to_int (text_len - start)
          else length in
        result <- malloc_chars (to_size (to_int (length + 1))) ;;
        match result with
        | NULL => ret NULL
        | Ptr _ =>
            copy_units result 0 b start length ;;
            store_char result length 0 ;;
            ret result
        end
  end.

(** The outer loop of [str_repeat_n]: each round copies [len] units to
    [dest] and advances it; it returns the final [dest]. *)
Fixpoint repeat_loop (todo : nat) (text : list Z) (len : Z) (result : ptr)
    (dest : Z) : M Z :=
  match todo with
  | O => ret dest
  | S todo' =>
      copy_units result dest text 0 len ;;
      repeat_loop todo' text len result (dest + len)
  end.

(** [str_repeat_n] *)
Definition str_repeat_n (text : option (list Z)) (times : Z) : M ptr :=
  match text with
  | None => ret NULL
  | Some b =>
      if times <=? 0 then empty_string
      else
        let len := str_len text in
        if len =? 0 then empty_string
        else
          let result_len := to_int (len * times) in
          result <- malloc_chars (to_size (to_int (result_len + 1))) ;;
          match result with
          | NULL => ret NULL
          | Ptr _ =>
              dest <- repeat_loop (Z.to_nat times) b len result 0 ;;
              store_char result dest 0 ;;
              ret result
          end
  end.

(** ** Splitting *)

(** First pass of [str_split]: [token_count] after the scan. *)
Fixpoint count_loop (delimiter : Z) (p : list Z) (token_count : Z) : Z :=
  match p with
  | [] => token_count
  | c :: p' =>
      if c =? 0 then token_count
      else count_loop delimiter p'
             (if c =? delimiter then to_int (token_count + 1)
              else token_count)
  end.

(** What the second pass does at a delimiter or at the terminator, up to
    [token_start = ptr + 1]: allocate the token, copy it, store it in
    the result array.  It answers whether the allocation succeeded. *)
Definition emit_token (text : list Z) (token_start ptr_ : Z) (result : ptr)
    (result_ptr : Z) : M bool :=
  let token_length := to_int (ptr_ - token_start) in
  token <- malloc_chars (to_size (to_int (token_length + 1))) ;;
  match token with
  | NULL => ret false
  | Ptr _ =>
      copy_units token 0 text token_start token_length ;;
      store_char token token_length 0 ;;
      store_slot result result_ptr token ;;
      ret true
  end.

(** Second pass of [str_split].  [p] are the cells at [ptr], whose
    offset in [text] is [ptr_]; the loop returns [success] and the final
    [result_ptr].  On [p = []] the cell read is the terminator, so the
    loop always leaves through one of its two [break]s. *)
Fixpoint split_loop (text : list Z) (delimiter : Z) (p : list Z)
    (ptr_ token_start : Z) (result : ptr) (result_ptr : Z) : M (bool * Z) :=
  let c := hd 0 p in
  if (c =? delimiter) || (c =? 0) then
    ok <- emit_token text token_start ptr_ result result_ptr ;;
    if negb ok then ret (false, result_ptr)
    else if c =? 0 then ret (true, result_ptr + 1)
    else
      match p with
      | [] => ret (true, result_ptr + 1)
      | _ :: p' =>
          split_loop text delimiter p' (ptr_ + 1) (ptr_ + 1) result
            (result_ptr + 1)
      end
  else
    match p with
    | [] => ret (true, result_ptr)
    | _ :: p' =>
        split_loop text delimiter p' (ptr_ + 1) token_start result result_ptr
    end.

(** [for (p = result; p < result_ptr; p++) free( *p );] *)
Fixpoint free_loop (todo : nat) (result : ptr) (p : Z) : M unit :=
  match todo with
  | O => ret tt
  | S todo' =>
      token <- load_slot result p ;;
      free token ;;
      free_loop todo' result (p + 1)
  end.

(** [str_split] *)
Definition str_split (text : option (list Z)) (delimiter : Z) : M ptr :=
  match text with
  | None => ret NULL
  | Some b =>
      let token_count := count_loop delimiter b 1 in
      result <-
        malloc_slots (to_size (SIZEOF_PTR * to_size (to_int (token_count + 1)))) ;;
      match result with
      | NULL => ret NULL
      | Ptr _ =>
          r <- split_loop b delimiter b 0 0 result 0 ;;
          let '(success, result_ptr) := r in
          if success : bool then
            store_slot result result_ptr NULL ;;
            ret result
          else
            free_loop (Z.to_nat result_ptr) result 0 ;;
            free result ;;
            ret NULL
      end
  end.

(** ** Joining *)

(** First pass of [str_join_n] over the slots at [ptr]: it returns
    [total_len] and [count].  Running off the block is a fault. *)
Fixpoint measure_loop (ptr_ : list (option ptr)) (total_len count : Z)
  : M (Z * Z) :=
  match ptr_ with
  | Some NULL :: _ => ret (total_len, count)
  | Some part :: ptr' =>
      cells <- cstr_at part ;;
      measure_loop ptr' (to_int (total_len + str_len (Some cells)))
        (to_int (count + 1))
  | _ => fault
  end.

(** [for (int j = 0; j < part_len; j++) *dest++ = str[i][j];] with
    [part] the pointer [str[i]]; it returns the final [dest]. *)
Fixpoint part_loop (todo : nat) (part : ptr) (j : Z) (result : ptr)
    (dest : Z) : M Z :=
  match todo with
  | O => ret dest
  | S todo' =>
      c <- load_char part j ;;
      store_char result dest c ;;
      part_loop todo' part (j + 1) result (dest + 1)
  end.

(** Second pass of [str_join_n], from [i] on; it returns the final
    [dest]. *)
Fixpoint join_loop (todo : nat) (str : ptr) (sep : Z) (count : Z) (i : Z)
    (result : ptr) (dest : Z) : M Z :=
  match todo with
  | O => ret dest
  | S todo' =>
      part <- load_slot str i ;;
      cells <- cstr_at part ;;
      let part_len := str_len (Some cells) in
      dest <- part_loop (Z.to_nat part_len) part 0 result dest ;;
      dest <-
        (if i <? to_int (count - 1)
         then store_char result dest sep ;; ret (dest + 1)
         else ret dest) ;;
      join_loop todo' str sep count (i + 1) result dest
  end.

(** [str_join_n] *)
Definition str_join_n (str : ptr) (sep : Z) : M ptr :=
  match str with
  | NULL => ret NULL
  | Ptr _ =>
      ss <- slots_at str ;;
      r <- measure_loop ss 0 0 ;;
      let '(total_len, count) := r in
      if count =? 0 then empty_string
      else
        let total_len := to_int (total_len + to_int (count - 1)) in
        result <- malloc_chars (to_size (to_int (total_len + 1))) ;;
        match result with
        | NULL => ret NULL
        | Ptr _ =>
            dest <- join_loop (Z.to_nat count) str sep count 0 result 0 ;;
            store_char result dest 0 ;;
            ret result
        end
  end.

(** ** Reversal *)

(** [while (start < end) { temp = *start; *start++ = *end; *end-- = temp; }];
    each round brings the two offsets closer by two, so the distance
    between them bounds the fuel. *)
Fixpoint reverse_loop (fuel : nat) (b : list Z) (start end_ : Z) : list Z :=
  match fuel with
  | O => b
  | S fuel' =>
      if start <? end_ then
        let temp := peek b start in
        let b1 := poke b start (peek b end_) in
        let b2 := poke b1 end_ temp in
        reverse_loop fuel' b2 (start + 1) (end_ - 1)
      else b
  end.

(** [str_reverse] *)
Definition str_reverse (text : option (list Z)) : option (list Z) :=
  match text with
  | None => None
  | Some b =>
      let end_ := str_len text - 1 in
      Some (reverse_loop (Z.to_nat end_) b 0 end_)
  end.

(** [while (length--) { *dest++ = *src--; }] with [todo] the rounds left. *)
Fixpoint reverse_copy_loop (todo : nat) (text : list Z) (src : Z)
    (result : ptr) (dest : Z) : M unit :=
  match todo with
  | O => ret tt
  | S todo' =>
      store_char result dest (peek text src) ;;
      reverse_copy_loop todo' text (src - 1) result (dest + 1)
  end.

(** [str_reverse_n]; the request is [sizeof(char) * (length + 1)]. *)
Definition str_reverse_n (text : option (list Z)) : M ptr :=
  match text with
  | None => ret NULL
  | Some b =>
      let length := str_len text in
      result <- malloc_chars (to_size (1 * to_size (to_int (length + 1)))) ;;
      match result with
      | NULL => ret NULL
      | Ptr _ =>
          (if length >? 0
           then reverse_copy_loop (Z.to_nat length) b (length - 1) result 0
           else ret tt) ;;
          store_char result (str_len text) 0 ;;
          ret result
      end
  end.

(** ** Capitalising the first unit *)

(** [str_capitalize] *)
Definition str_capitalize (text : option (list Z)) : option (list Z) :=
  match text with
  | None => None
  | Some b =>
      if peek b 0 =? 0 then Some b
      else Some (poke b 0 (char_capitalize (peek b 0)))
  end.

(** [str_capitalize_n]; its loop is [for (int i = 1; i < len; i++)]. *)
Definition str_capitalize_n (text : option (list Z)) : M ptr :=
  match text with
  | None => ret NULL
  | Some b =>
      if peek b 0 =? 0 then empty_string
      else
        let len := str_len text in
        new_text <- malloc_chars (to_size (to_int (len + 1))) ;;
        match new_text with
        | NULL => ret NULL
        | Ptr _ =>
            store_char new_text 0 (char_capitalize (peek b 0)) ;;
            copy_loop (Z.to_nat (len - 1)) new_text 0 b 0 1 ;;
            store_char new_text len 0 ;;
            ret new_text
        end
  end.

(** ** Concatenation *)

(** [str_concat_n]; an absent argument is replaced by the empty
    literal.  The offsets [l1 + i] of the second loop stay within [int]
    whenever the loop runs: a sum [l1 + l2] that overflows makes the
    request one that no allocator grants. *)
Definition str_concat_n (s1 s2 : option (list Z)) : M ptr :=
  let s1 := match s1 with None => lit EmptyString | Some b => b end in
  let s2 := match s2 with None => lit EmptyString | Some b => b end in
  let l1 := str_len (Some s1) in
  let l2 := str_len (Some s2) in
  result <- malloc_chars (to_size (to_int (to_int (l1 + l2) + 1))) ;;
  match result with
  | NULL => ret NULL
  | Ptr _ =>
      copy_units result 0 s1 0 l1 ;;
      copy_units result l1 s2 0 l2 ;;
      store_char result (to_int (l1 + l2)) 0 ;;
      ret result
  end.

(** ** Validation *)

(** The loop of [str_is_numeric]: 0 at the first unit outside ['0'..'9'],
    1 at the terminator. *)
Fixpoint numeric_loop (s : list Z) : Z :=
  match s with
  | [] => 1
  | c :: s' =>
      if c =? 0 then 1
      else if (c <? 48) || (c >? 57) then 0
      else numeric_loop s'
  end.

(** [str_is_numeric] *)
Definition str_is_numeric (s : option (list Z)) : Z :=
  match s with
  | None => 0
  | Some b => if peek b 0 =? 0 then 0 else numeric_loop b
  end.

(** The loop of [str_is_alpha]. *)
Fixpoint alpha_loop (s : list Z) : Z :=
  match s with
  | [] => 1
  | c :: s' =>
      if c =? 0 then 1
      else if negb ((65 <=? c) && (c <=? 90) || (97 <=? c) && (c <=? 122))
      then 0
      else alpha_loop s'
  end.

(** [str_is_alpha] *)
Definition str_is_alpha (s : option (list Z)) : Z :=
  match s with
  | None => 0
  | Some b => if peek b 0 =? 0 then 0 else alpha_loop b
  end.

(** The loop of [str_is_alpha_numeric]. *)
Fixpoint alpha_numeric_loop (s : list Z) : Z :=
  match s with
  | [] => 1
  | c :: s' =>
      if c =? 0 then 1
      else if negb ((65 <=? c) && (c <=? 90) || (97 <=? c) && (c <=? 122)
                    || (48 <=? c) && (c <=? 57))
      then 0
      else alpha_numeric_loop s'
  end.

(** [str_is_alpha_numeric] *)
Definition str_is_alpha_numeric (s : option (list Z)) : Z :=
  match s with
  | None => 0
  | Some b => if peek b 0 =? 0 then 0 else alpha_numeric_loop b
  end.

(** [while ( *s1 && ( *s1 == *s2 )) { s1++; s2++; } return ( *s1 == *s2 );]
    on the cells at [s1] and at [s2]. *)
Fixpoint equal_loop (s1 s2 : list Z) : Z :=
  match s1 with
  | [] => if 0 =? hd 0 s2 then 1 else 0
  | c :: s1' =>
      if negb (c =? 0) && (c =? hd 0 s2) then equal_loop s1' (tail s2)
      else if c =? hd 0 s2 then 1 else 0
  end.

(** [str_is_equal] *)
Definition str_is_equal (s1 s2 : option (list Z)) : Z :=
  match s1, s2 with
  | None, None => 1
  | Some b1, Some b2 => equal_loop b1 b2
  | _, _ => 0
  end.

(** [while (front < back) { if ( *front++ != *back-- ) return 0; } return 1;]
    with the distance between the offsets as fuel. *)
Fixpoint palindrome_loop (fuel : nat) (b : list Z) (front back : Z) : Z :=
  match fuel with
  | O => 1
  | S fuel' =>
      if front <? back then
        if negb (peek b front =? peek b back) then 0
        else palindrome_loop fuel' b (front + 1) (back - 1)
      else 1
  end.

(** [str_is_palindrome] *)
Definition str_is_palindrome (text : option (list Z)) : Z :=
  match text with
  | None => 0
  | Some b =>
      let len := str_len text in
      if len <=? 1 then 1
      else palindrome_loop (Z.to_nat (len - 1)) b 0 (len - 1)
  end.

(** ** Trimming one end *)

(** [for (size_t i = 0; i <= len; ++i) s[i] = start[i];] with [todo] the
    rounds left. *)
Fixpoint ltrim_loop (todo : nat) (b : list Z) (start i : Z) : list Z :=
  match todo with
  | O => b
  | S todo' => ltrim_loop todo' (poke b i (peek b (start + i))) start (i + 1)
  end.

(** [str_ltrim]; [str_len(start)] measures the cells from [start] on and
    is converted to [size_t]. *)
Definition str_ltrim (s : option (list Z)) : option (list Z) :=
  match s with
  | None => None
  | Some b =>
      let start := skip_ws b in
      if negb (Z.of_nat start =? 0) then
        let len := to_size (str_len (Some (drop start b))) in
        Some (ltrim_loop (Z.to_nat (len + 1)) b (Z.of_nat start) 0)
      else Some b
  end.

(** [str_ltrim_n] *)
Definition str_ltrim_n (s : option (list Z)) : M ptr :=
  match s with
  | None => ret NULL
  | Some b =>
      let start := skip_ws b in
      let new_len := str_len (Some (drop start b)) in
      result <- malloc_chars (to_size (to_int (new_len + 1))) ;;
      match result with
      | NULL => ret NULL
      | Ptr _ =>
          copy_units result 0 b (Z.of_nat start) new_len ;;
          store_char result new_len 0 ;;
          ret result
      end
  end.

(** [while (end >= s && is_whitespace( *end )) end--]; [end_] is the
    offset [end - s], and the loop runs at most [len] times. *)
Fixpoint back_ws_all (fuel : nat) (b : list Z) (end_ : Z) : Z :=
  match fuel with
  | O => end_
  | S fuel' =>
      if (end_ >=? 0) && is_whitespace (peek b end_)
      then back_ws_all fuel' b (end_ - 1)
      else end_
  end.

(** [str_rtrim] *)
Definition str_rtrim (s : option (list Z)) : option (list Z) :=
  match s with
  | None => None
  | Some b =>
      let len := str_len s in
      if len =? 0 then Some b
      else
        let end_ := back_ws_all (Z.to_nat len) b (len - 1) in
        Some (poke b (end_ + 1) 0)
  end.

(** [str_rtrim_n] *)
Definition str_rtrim_n (s : option (list Z)) : M ptr :=
  match s with
  | None => ret NULL
  | Some b =>
      let len := str_len s in
      if len =? 0 then empty_string
      else
        let end_ := back_ws_all (Z.to_nat len) b (len - 1) in
        let new_len := to_int (end_ + 1) in
        if new_len <=? 0 then empty_string
        else
          result <- malloc_chars (to_size (to_int (new_len + 1))) ;;
          match result with
          | NULL => ret NULL
          | Ptr _ =>
              copy_units result 0 b 0 new_len ;;
              store_char result new_len 0 ;;
              ret result
          end
  end.

(** ** Searching for a substring *)

(** The inner loop of [index_of_str],
    [while ( *needle && *h && *needle == *h ) { needle++; h++; }],
    followed by the test [!*needle]. *)
Fixpoint match_loop (needle h : list Z) : bool :=
  match needle with
  | [] => true
  | n :: needle' =>
      if n =? 0 then true
      else
        match h with
        | [] => false
        | c :: h' =>
            if negb (c =? 0) && (n =? c) then match_loop needle' h'
            else false
        end
  end.

(** The outer loop of [index_of_str]; [haystack] are the cells at the
    pointer of that name and [pos] is [haystack - text]. *)
Fixpoint index_of_str_loop (substring haystack : list Z) (pos : Z) : Z :=
  match haystack with
  | [] => -1
  | c :: haystack' =>
      if c =? 0 then -1
      else if match_loop substring haystack then to_int pos
      else index_of_str_loop substring haystack' (pos + 1)
  end.

(** [index_of_str] *)
Definition index_of_str (text substring : option (list Z)) : Z :=
  match text, substring with
  | Some b, Some s =>
      if peek s 0 =? 0 then 0 else index_of_str_loop s b 0
  | _, _ => -1
  end.

(** [str_contains] *)
Definition str_contains (text substring : option (list Z)) : Z :=
  if index_of_str text substring >=? 0 then 1 else 0.

(** ** The first and the last unit *)

(** [str_first_char] *)
Definition str_first_char (text : option (list Z)) : Z :=
  match text with
  | None => 0
  | Some b => if peek b 0 =? 0 then 0 else peek b 0
  end.

(** [str_last_char] *)
Definition str_last_char (text : option (list Z)) : Z :=
  match text with
  | None => 0
  | Some b =>
      if peek b 0 =? 0 then 0
      else
        let len := str_len text in
        peek b (to_int (len - 1))
  end.

(** ** Replacing a unit *)

(** [( *src == find ) ? replace : *src] *)
Definition replaced (find replace c : Z) : Z :=
  if c =? find then replace else c.

(** [while ( *ptr ) { if ( *ptr == find ) *ptr = replace; ptr++; }] *)
Fixpoint replace_loop (find replace : Z) (p : list Z) : list Z :=
  match p with
  | [] => []
  | c :: p' =>
      if c =? 0 then p
      else (if c =? find then replace else c) :: replace_loop find replace p'
  end.

(** [str_replace_char] *)
Definition str_replace_char (text : option (list Z)) (find replace : Z)
  : option (list Z) :=
  match text with
  | None => None
  | Some b => Some (replace_loop find replace b)
  end.

(** [str_replace_char_n]; its loop is the one of the case conversions,
    run with [replaced find replace]. *)
Definition str_replace_char_n (text : option (list Z)) (find replace : Z)
  : M ptr :=
  match text with
  | None => ret NULL
  | Some b =>
      let len := str_len text in
      result <- malloc_chars (to_size (to_int (len + 1))) ;;
      match result with
      | NULL => ret NULL
      | Ptr _ =>
          dest <- convert_loop (replaced find replace) b result 0 ;;
          store_char result dest 0 ;;
          ret result
      end
  end.

(** ** Releasing a token array *)

(** [for (ptr = result; *ptr; ptr++) free( *ptr );] over the slots at
    [ptr].  Running off the block is a fault. *)
Fixpoint free_strs_loop (ptr_ : list (option ptr)) : M unit :=
  match ptr_ with
  | Some NULL :: _ => ret tt
  | Some token :: ptr' => free token ;; free_strs_loop ptr'
  | _ => fault
  end.

(** [free_strs] *)
Definition free_strs (result : ptr) : M unit :=
  match result with
  | NULL => ret tt
  | Ptr _ =>
      ss <- slots_at result ;;
      free_strs_loop ss ;;
      free result
  end.

(** ** Reading results back *)

(** The text of the owned buffer at [p], when [p] is a live, terminated
    [char] block. *)
Definition c_string (h : heap) (p : ptr) : option (list Z) :=
  match p with
  | NULL => None
  | Ptr l =>
      match blocks h !! l with
      | Some (Chars cs) =>
          if (c_scan cs <? length cs)%nat then Some (content cs) else None
      | _ => None
      end
  end.

(** The texts that the slots point to, up to the NULL that ends them. *)
Fixpoint read_tokens (h : heap) (ss : list (option ptr))
  : option (list (list Z)) :=
  match ss with
  | Some NULL :: _ => Some []
  | Some p :: ss' =>
      match c_string h p, read_tokens h ss' with
      | Some t, Some ts => Some (t :: ts)
      | _, _ => None
      end
  | _ => None
  end.

(** The token list at [p]: a live block of slots, NULL-terminated. *)
Definition token_list (h : heap) (p : ptr) : option (list (list Z)) :=
  match p with
  | NULL => None
  | Ptr l =>
      match blocks h !! l with
      | Some (Slots ss) => read_tokens h ss
      | _ => None
      end
  end.

(** A heap with nothing allocated whose allocator grants the next [n]
    requests. *)
Definition heap0 (n : nat) : heap := Heap ∅ (replicate n true) 170.

(** The block at [l'] holds the text [t], its terminator, and possibly
    more cells after it. *)
Definition holds_text (h : heap) (l' : loc) (t : list Z) : Prop :=
  exists rest : list Z, blocks h !! l' = Some (Chars (t ++ 0 :: rest)).

(** A heap with an array of three pointers at block 1: to the text "a"
    at block 2, which has a cell after its terminator, to the text "bc"
    at block 3, and to block 2 again; the array goes on after its NULL
    with a slot never written.  The allocator grants one request. *)
Definition heap_of_tokens : heap :=
  Heap (<[1%positive := Slots [Some (Ptr 2%positive); Some (Ptr 3%positive);
                               Some (Ptr 2%positive); Some NULL; None]]>
          (<[2%positive := Chars [97; 0; 7]]>
             (<[3%positive := Chars [98; 99; 0]]> ∅)))
       [true] 170.

(** A buffer of five cells: the text " a ", its terminator, and one
    more cell. *)
Definition buffer_of_five : list Z := [32; 97; 32; 0; 7].

(** * What the properties are stated with *)

(** ** The allocator's answers *)

(** The heap after one request was answered, granted or not. *)
Definition spend (h : heap) : heap :=
  Heap (blocks h) (tail (budget h)) (junk h).

(** The allocator grants the next [n] requests. *)
Definition grants (n : nat) (h : heap) : Prop :=
  take n (budget h) = replicate n true.

#[export] Instance grants_dec (n : nat) (h : heap) : Decision (grants n h).
Proof. unfold grants. apply _. Defined.

(** ** Texts and results *)

(** A text holds no terminator. *)
Definition nonzero (t : list Z) : Prop := Forall (fun c => c <> 0) t.

(** An absent text fits; a present one fits when its buffer does. *)
Definition fits_text (text : option (list Z)) : Prop :=
  match text with None => True | Some b => fits b end.

(** The [n] cells of [b] from offset [s] on. *)
Definition slice (b : list Z) (s : Z) (n : nat) : list Z :=
  map (fun k => peek b (s + Z.of_nat k)) (seq 0 n).

(** [m], run on [h], returns a new owned buffer that holds the text [t]:
    a block that was not live, sized to [t] and its terminator, in a
    heap that differs from [h] by this block and by the answer spent. *)
Definition yields (m : M ptr) (h : heap) (t : list Z) : Prop :=
  exists l : loc,
    blocks h !! l = None /\
    m h = Some (Ptr l, upd l (Chars (t ++ [0])) (spend h)) /\
    c_string (upd l (Chars (t ++ [0])) (spend h)) (Ptr l) = Some t.

(** The text of the buffer that [m] returns when run on [h]. *)
Definition text_of (m : M ptr) (h : heap) : option (list Z) :=
  match m h with
  | Some (p, h') => c_string h' p
  | None => None
  end.

(** The token list that [m] returns when run on [h]. *)
Definition tokens_of (m : M ptr) (h : heap) : option (list (list Z)) :=
  match m h with
  | Some (p, h') => token_list h' p
  | None => None
  end.

(** [h'] is [h] with a token array at [l] on top: its slots point to the
    blocks [ls], which hold the texts [ts], and go on with [rest]. *)
Definition token_heap (h h' : heap) (l : loc) (ls : list loc)
    (ts : list (list Z)) (rest : list (option ptr)) : Prop :=
  NoDup (l :: ls) /\
  (forall l', l' ∈ l :: ls -> blocks h !! l' = None) /\
  blocks h' !! l = Some (Slots (map (fun l' => Some (Ptr l')) ls ++ rest)) /\
  Forall2 (fun l' t => blocks h' !! l' = Some (Chars (t ++ [0]))) ls ts /\
  (forall l', l' ∉ l :: ls -> blocks h' !! l' = blocks h !! l') /\
  junk h' = junk h.

(** ** The operations as the specification words them

    These are functions on texts, written from the specification and
    not from the code; the theorems compare the code with them. *)

Module Spec.

(** Title case: a scan with the flag [at_word_start]. *)
Fixpoint title_case (at_word_start : bool) (t : list Z) : list Z :=
  match t with
  | [] => []
  | u :: t' =>
      if is_whitespace u then u :: title_case true t'
      else if at_word_start then char_capitalize u :: title_case false t'
      else char_decapitalize u :: title_case false t'
  end.

(** Nothing but whitespace. *)
Definition all_ws (t : list Z) : Prop :=
  Forall (fun u => is_whitespace u = true) t.

(** No whitespace unit at the head nor at the end. *)
Definition trimmed (t : list Z) : Prop :=
  (forall u, head t = Some u -> is_whitespace u = false) /\
  (forall u, last t = Some u -> is_whitespace u = false).

(** The substring: [start] clamped to 0, nothing from the end on,
    [length] clamped to the remainder. *)
Definition substring (t : list Z) (start length : Z) : list Z :=
  let total := Z.of_nat (List.length t) in
  let start := Z.max 0 start in
  if total <=? start then []
  else
    let length :=
      if (length <? 0) || (total <? start + length) then total - start
      else length in
    take (Z.to_nat length) (drop (Z.to_nat start) t).

(** [t] concatenated with itself [times] times. *)
Definition repeated (t : list Z) (times : nat) : list Z :=
  concat (replicate times t).

(** Number of units of [t] equal to [d]. *)
Fixpoint occurrences (d : Z) (t : list Z) : nat :=
  match t with
  | [] => 0%nat
  | u :: t' => if u =? d then S (occurrences d t') else occurrences d t'
  end.

(** The pieces of [t] between the occurrences of [d], in order; [cur] is
    the piece under way. *)
Fixpoint fields_from (cur : list Z) (d : Z) (t : list Z) : list (list Z) :=
  match t with
  | [] => [cur]
  | u :: t' =>
      if u =? d then cur :: fields_from [] d t'
      else fields_from (cur ++ [u]) d t'
  end.

Definition fields (d : Z) (t : list Z) : list (list Z) := fields_from [] d t.

(** The tokens with [sep] strictly between them. *)
Fixpoint glue (sep : Z) (ts : list (list Z)) : list Z :=
  match ts with
  | [] => []
  | [t] => t
  | t :: ts' => t ++ sep :: glue sep ts'
  end.

End Spec.

Import Spec.

(** ** Vocabulary of the further properties *)

(** A decimal digit, ['0'..'9']. *)
Definition digit (u : Z) : Prop := 48 <= u <= 57.

(** A letter, ['A'..'Z'] or ['a'..'z']. *)
Definition letter (u : Z) : Prop := 65 <= u <= 90 \/ 97 <= u <= 122.

(** [t] without its leading whitespace. *)
Fixpoint drop_ws (t : list Z) : list Z :=
  match t with
  | [] => []
  | u :: t' => if is_whitespace u then drop_ws t' else t
  end.

(** [t] without its trailing whitespace. *)
Definition drop_ws_end (t : list Z) : list Z := rev (drop_ws (rev t)).

(** [s] occurs in [t] at offset [i]. *)
Definition occurs_at (s t : list Z) (i : nat) : Prop :=
  s `prefix_of` drop i t.

(** [t] up to the first occurrence of [d]. *)
Fixpoint before (d : Z) (t : list Z) : list Z :=
  match t with
  | [] => []
  | u :: t' => if u =? d then [] else u :: before d t'
  end.

(** [r] is the buffer [b] with changes in the cells up to its terminator
    only: as many cells, and the same ones after the terminator. *)
Definition within (b : list Z) (r : option (list Z)) : Prop :=
  exists b', r = Some b' /\
             length b' = length b /\
             drop (S (c_scan b)) b' = drop (S (c_scan b)) b.

(** * Proofs *)

Create HintDb strkit.

(** Boolean tests of the code, as propositions for [lia]. *)
Ltac bools :=
  repeat match goal with
  | H : (_ <? _) = true |- _ => apply Z.ltb_lt in H
  | H : (_ <? _) = false |- _ => apply Z.ltb_ge in H
  | H : (_ <=? _) = true |- _ => apply Z.leb_le in H
  | H : (_ <=? _) = false |- _ => apply Z.leb_gt in H
  | H : (_ =? _) = true |- _ => apply Z.eqb_eq in H
  | H : (_ =? _) = false |- _ => apply Z.eqb_neq in H
  | H : (_ >? _) = _ |- _ => rewrite Z.gtb_ltb in H
  | H : (_ >=? _) = _ |- _ => rewrite Z.geb_leb in H
  | H : (_ <? _)%nat = true |- _ => apply Nat.ltb_lt in H
  | H : (_ <? _)%nat = false |- _ => apply Nat.ltb_ge in H
  | H : (_ =? _)%nat = true |- _ => apply Nat.eqb_eq in H
  | H : (_ =? _)%nat = false |- _ => apply Nat.eqb_neq in H
  | H : (_ && _) = true |- _ => apply andb_true_iff in H; destruct H
  | H : (_ || _) = false |- _ => apply orb_false_iff in H; destruct H
  | H : (_ && _) = false |- _ => apply andb_false_iff in H; destruct H
  | H : (_ || _) = true |- _ => apply orb_true_iff in H; destruct H
  | H : negb _ = true |- _ => apply negb_true_iff in H
  | H : negb _ = false |- _ => apply negb_false_iff in H
  end.

(** ** Machine integers *)

Lemma to_int_id (z : Z) : INT_MIN <= z <= INT_MAX -> to_int z = z.
Proof.
  unfold to_int, INT_MIN, INT_MAX. intros Hz.
  rewrite Z.mod_small by lia. lia.
Qed.

Lemma to_size_id (z : Z) : 0 <= z <= ALLOC_MAX -> to_size z = z.
Proof.
  unfold to_size, ALLOC_MAX. intros Hz. apply Z.mod_small. lia.
Qed.

Lemma to_size_int (z : Z) : 0 <= z <= INT_MAX -> to_size (to_int z) = z.
Proof.
  intros Hz. rewrite to_int_id by (unfold INT_MIN; lia).
  apply to_size_id. unfold ALLOC_MAX, INT_MAX in *. lia.
Qed.

(** ** Scanning a buffer *)

Lemma c_scan_le (b : list Z) : (c_scan b <= length b)%nat.
Proof.
  induction b as [|c b IH]; simpl; [lia|].
  destruct (c =? 0); simpl; lia.
Qed.

Lemma length_content (b : list Z) : length (content b) = c_scan b.
Proof.
  unfold content. rewrite length_take. pose proof (c_scan_le b). lia.
Qed.

Lemma content_cons (c : Z) (b : list Z) :
  content (c :: b) = if c =? 0 then [] else c :: content b.
Proof. unfold content. simpl. destruct (c =? 0); reflexivity. Qed.

Lemma content_nonzero (b : list Z) : Forall (fun c => c <> 0) (content b).
Proof.
  induction b as [|c b IH]; [constructor|].
  rewrite content_cons. destruct (c =? 0) eqn:E; [constructor|].
  constructor; [lia | exact IH].
Qed.

Lemma c_scan_app_nul (t rest : list Z) :
  Forall (fun c => c <> 0) t -> c_scan (t ++ 0 :: rest) = length t.
Proof.
  induction 1 as [|c t Hc _ IH]; simpl; [reflexivity|].
  destruct (c =? 0) eqn:E; [lia|]. now rewrite IH.
Qed.

Lemma content_app_nul (t rest : list Z) :
  Forall (fun c => c <> 0) t -> content (t ++ 0 :: rest) = t.
Proof.
  intros Ht. unfold content. rewrite c_scan_app_nul by assumption.
  now rewrite take_app_length.
Qed.

Lemma content_idem (b : list Z) : content (content b) = content b.
Proof.
  induction b as [|c b IH]; [reflexivity|].
  rewrite content_cons. destruct (c =? 0) eqn:E; [reflexivity|].
  rewrite content_cons, E. now rewrite IH.
Qed.

Lemma str_len_fits (b : list Z) :
  fits b -> str_len (Some b) = Z.of_nat (c_scan b).
Proof.
  unfold fits, str_len. intros Hb. apply to_int_id.
  unfold INT_MIN. lia.
Qed.

Lemma peek_lookup (b : list Z) (i : nat) (c : Z) :
  b !! i = Some c -> peek b (Z.of_nat i) = c.
Proof.
  intros Hi. unfold peek.
  destruct (Z.of_nat i <? 0) eqn:E; [bools; lia|].
  now rewrite Nat2Z.id, Hi.
Qed.

Lemma peek_content (b : list Z) (i : nat) :
  (i < c_scan b)%nat -> content b !! i = Some (peek b (Z.of_nat i)).
Proof.
  intros Hi. unfold content. rewrite lookup_take_lt by assumption.
  pose proof (c_scan_le b).
  destruct (lookup_lt_is_Some_2 b i) as [c Hc]; [lia|].
  now rewrite (peek_lookup _ _ _ Hc).
Qed.

Lemma peek_scan (b : list Z) : peek b (Z.of_nat (c_scan b)) = 0.
Proof.
  induction b as [|c b IH].
  - reflexivity.
  - simpl c_scan. destruct (c =? 0) eqn:E.
    + unfold peek. simpl. lia.
    + unfold peek in *. rewrite Nat2Z.id in *.
      destruct (Z.of_nat (S (c_scan b)) <? 0) eqn:E1; [bools; lia|].
      destruct (Z.of_nat (c_scan b) <? 0) eqn:E2; [bools; lia|].
      simpl. exact IH.
Qed.

(** ** Character access *)

(** [str_char_at] measured against the text of the buffer. *)
Lemma str_char_at_units (text : option (list Z)) (index : Z) :
  fits_text text ->
  (str_char_at text index = 0
   <-> index < 0 \/ index >= Z.of_nat (length (units text))) /\
  (0 <= index < Z.of_nat (length (units text)) ->
   units text !! Z.to_nat index = Some (str_char_at text index)).
Proof.
  destruct text as [b|]; cbn [units fits_text].
  - intros Hb. rewrite length_content.
    unfold str_char_at. rewrite (str_len_fits _ Hb). cbv zeta.
    destruct (index <? 0) eqn:E1.
    { split; [split; [lia | reflexivity] | lia]. }
    destruct (index >=? Z.of_nat (c_scan b)) eqn:E2.
    { split; [split; [lia | reflexivity] | lia]. }
    assert (Hi : (Z.to_nat index < c_scan b)%nat) by lia.
    pose proof (peek_content b _ Hi) as Hp.
    rewrite Z2Nat.id in Hp by lia.
    split; [|intros _; exact Hp].
    split; [|lia]. intros H0. exfalso.
    pose proof (content_nonzero b) as Hnz.
    rewrite Forall_lookup in Hnz. apply (Hnz _ _ Hp). exact H0.
  - intros _. simpl. split; [split; [lia | reflexivity] | lia].
Qed.

(** C8.  For every text, present or absent, and every index,
    [str_char_at] returns the no-value unit 0 exactly when the index is
    negative or at least the length of the text, and the unit at that
    position otherwise.  The same is stated for a buffer written out as
    the units [t], none of them zero, a terminator and any cells after
    it, where the length is the length of [t] and the unit is read off
    [t]; and "abc" gives 'b' at index 1 and the no-value unit at
    indices 3 and -1. *)
Theorem str_char_at_spec (text : option (list Z)) (index : Z) :
  fits_text text ->
  (str_char_at text index = 0
   <-> index < 0 \/ index >= Z.of_nat (length (units text))) /\
  (0 <= index < Z.of_nat (length (units text)) ->
   units text !! Z.to_nat index = Some (str_char_at text index)) /\
  (forall t rest : list Z,
     text = Some (t ++ 0 :: rest) -> nonzero t ->
     (str_char_at text index = 0
      <-> index < 0 \/ index >= Z.of_nat (length t)) /\
     (0 <= index < Z.of_nat (length t) ->
      t !! Z.to_nat index = Some (str_char_at text index))) /\
  str_char_at (Some [97; 98; 99; 0; 100]) 1 = 98 /\
  str_char_at (Some [97; 98; 99; 0; 100]) 3 = 0 /\
  str_char_at (Some [97; 98; 99; 0; 100]) 4 = 0 /\
  str_char_at (Some [97; 98; 99; 0; 100]) (-1) = 0 /\
  str_char_at (Some (lit "abc")) 2 = 99 /\
  str_char_at None 0 = 0.
Proof.
  intros Hfit. destruct (str_char_at_units text index Hfit) as [H1 H2].
  split; [exact H1|]. split; [exact H2|].
  split; [|now repeat split].
  intros t rest -> Ht. cbn [units] in H1, H2.
  rewrite (content_app_nul t rest Ht) in H1, H2. now split.
Qed.

Lemma str_char_at_spec_witness :
  fits_text (Some [97; 98; 99; 0; 100]) /\
  (str_char_at (Some [97; 98; 99; 0; 100]) 1 = 0
   <-> 1 < 0
       \/ 1 >= Z.of_nat (length (units (Some [97; 98; 99; 0; 100])))) /\
  (0 <= 1 < Z.of_nat (length (units (Some [97; 98; 99; 0; 100]))) ->
   units (Some [97; 98; 99; 0; 100]) !! Z.to_nat 1
   = Some (str_char_at (Some [97; 98; 99; 0; 100]) 1)) /\
  (forall t rest : list Z,
     Some [97; 98; 99; 0; 100] = Some (t ++ 0 :: rest) -> nonzero t ->
     (str_char_at (Some [97; 98; 99; 0; 100]) 1 = 0
      <-> 1 < 0 \/ 1 >= Z.of_nat (length t)) /\
     (0 <= 1 < Z.of_nat (length t) ->
      t !! Z.to_nat 1 = Some (str_char_at (Some [97; 98; 99; 0; 100]) 1))) /\
  str_char_at (Some [97; 98; 99; 0; 100]) 1 = 98 /\
  str_char_at (Some [97; 98; 99; 0; 100]) 3 = 0 /\
  str_char_at (Some [97; 98; 99; 0; 100]) 4 = 0 /\
  str_char_at (Some [97; 98; 99; 0; 100]) (-1) = 0 /\
  str_char_at (Some (lit "abc")) 2 = 99 /\
  str_char_at None 0 = 0.
Proof.
  assert (H : fits_text (Some [97; 98; 99; 0; 100]))
    by (unfold fits_text, fits, INT_MAX; simpl; lia).
  split; [exact H|].
  exact (str_char_at_spec (Some [97; 98; 99; 0; 100]) 1 H).
Defined.

(** ** Character search *)

Lemma index_of_loop_nul (p : list Z) (pos : Z) : index_of_loop 0 p pos = -1.
Proof.
  revert pos. induction p as [|c p IH]; intros pos; simpl; [reflexivity|].
  destruct (c =? 0); [reflexivity | apply IH].
Qed.

(** C10.  For every text, present or absent, [index_of] with the zero
    unit as the character searched returns -1: the scan stops at the
    terminator before comparing it, so the zero unit is never found. *)
Theorem index_of_nul (text : option (list Z)) : index_of 0 text = -1.
Proof.
  destruct text as [b|]; simpl; [apply index_of_loop_nul | reflexivity].
Qed.

(** ** The heap *)

Lemma heap_eta (h : heap) : Heap (blocks h) (budget h) (junk h) = h.
Proof. now destruct h. Qed.

Lemma upd_upd (l : loc) (b1 b2 : block) (h : heap) :
  upd l b2 (upd l b1 h) = upd l b2 h.
Proof. unfold upd. simpl. now rewrite insert_insert_eq. Qed.

Lemma upd_same (l : loc) (blk : block) (h : heap) :
  blocks h !! l = Some blk -> upd l blk h = h.
Proof.
  intros Hl. unfold upd. rewrite insert_id by assumption. apply heap_eta.
Qed.

Lemma blocks_upd (l : loc) (blk : block) (h : heap) :
  blocks (upd l blk h) !! l = Some blk.
Proof. unfold upd. simpl. apply lookup_insert_eq. Qed.

Lemma blocks_upd_ne (l l' : loc) (blk : block) (h : heap) :
  l <> l' -> blocks (upd l blk h) !! l' = blocks h !! l'.
Proof. intros Hne. unfold upd. simpl. now apply lookup_insert_ne. Qed.

Lemma fresh_free (h : heap) : blocks h !! fresh (dom (blocks h)) = None.
Proof. apply not_elem_of_dom. apply is_fresh. Qed.

Lemma grants_S (n : nat) (h : heap) :
  grants (S n) h -> exists later, budget h = true :: later /\ grants n (spend h).
Proof.
  unfold grants, spend. destruct (budget h) as [|g later]; simpl; [discriminate|].
  intros [= -> H]. eauto.
Qed.

Lemma malloc_granted (f : heap -> block) (size : Z) (h : heap) :
  grants 1 h -> size <= ALLOC_MAX ->
  malloc f size h
  = Some (Ptr (fresh (dom (blocks h))),
          upd (fresh (dom (blocks h))) (f h) (spend h)).
Proof.
  intros Hg Hsz. apply grants_S in Hg as (later & Hb & _).
  unfold malloc, upd, spend. rewrite Hb. simpl.
  destruct (size <=? ALLOC_MAX) eqn:E; [reflexivity | bools; lia].
Qed.

Lemma malloc_result (f : heap -> block) (size : Z) (h : heap) :
  malloc f size h = Some (NULL, spend h) \/
  malloc f size h
  = Some (Ptr (fresh (dom (blocks h))),
          upd (fresh (dom (blocks h))) (f h) (spend h)).
Proof.
  unfold malloc, upd, spend. destruct (budget h) as [|g later] eqn:Hb; simpl.
  - left. rewrite <- Hb. now rewrite heap_eta.
  - destruct (g && (size <=? ALLOC_MAX)); [right | left]; reflexivity.
Qed.

Lemma malloc_too_large (f : heap -> block) (size : Z) (h : heap) :
  ALLOC_MAX < size -> malloc f size h = Some (NULL, spend h).
Proof.
  intros Hsz. unfold malloc, spend.
  destruct (budget h) as [|g later] eqn:Hb; simpl.
  - rewrite <- Hb. now rewrite heap_eta.
  - destruct (size <=? ALLOC_MAX) eqn:E; [bools; lia|].
    now rewrite andb_false_r.
Qed.

Lemma store_char_ok (l : loc) (cs : list Z) (i c : Z) (h : heap) :
  blocks h !! l = Some (Chars cs) -> 0 <= i < Z.of_nat (length cs) ->
  store_char (Ptr l) i c h
  = Some (tt, upd l (Chars (<[Z.to_nat i := c]> cs)) h).
Proof.
  intros Hl Hi. unfold store_char. rewrite Hl.
  destruct (0 <=? i) eqn:E1; [|bools; lia].
  destruct (i <? Z.of_nat (length cs)) eqn:E2; [|bools; lia].
  reflexivity.
Qed.

(** Writing cell [length pre] of [pre ++ x :: post]. *)
Lemma store_char_mid (l : loc) (pre post : list Z) (x i c : Z) (h : heap) :
  blocks h !! l = Some (Chars (pre ++ x :: post)) ->
  i = Z.of_nat (length pre) ->
  store_char (Ptr l) i c h = Some (tt, upd l (Chars (pre ++ c :: post)) h).
Proof.
  intros Hl ->. rewrite (store_char_ok _ _ _ _ _ Hl).
  - rewrite Nat2Z.id.
    replace (length pre) with (length pre + 0)%nat at 1 by lia.
    now rewrite insert_app_r.
  - rewrite length_app. simpl. lia.
Qed.

Lemma c_string_upd (l : loc) (t : list Z) (h : heap) :
  nonzero t -> c_string (upd l (Chars (t ++ [0])) h) (Ptr l) = Some t.
Proof.
  intros Ht. unfold c_string. rewrite blocks_upd.
  rewrite c_scan_app_nul by assumption.
  rewrite length_app. simpl.
  destruct (length t <? length t + 1)%nat eqn:E; [|bools; lia].
  now rewrite content_app_nul.
Qed.

(** ** Case conversion *)

Lemma capitalize_nonzero (c : Z) : c <> 0 -> char_capitalize c <> 0.
Proof.
  unfold char_capitalize. intros Hc.
  destruct ((97 <=? c) && (c <=? 122)) eqn:E; [bools; lia | assumption].
Qed.

Lemma decapitalize_nonzero (c : Z) : c <> 0 -> char_decapitalize c <> 0.
Proof.
  unfold char_decapitalize. intros Hc.
  destruct ((65 <=? c) && (c <=? 90)) eqn:E; [bools; lia | assumption].
Qed.

Lemma whitespace_nonzero (c : Z) : is_whitespace c = true -> c <> 0.
Proof. unfold is_whitespace. intros H ->. discriminate. Qed.

#[export] Hint Resolve capitalize_nonzero decapitalize_nonzero
  whitespace_nonzero : strkit.

(** The whitespace units: space, tab, newline, carriage return, form
    feed, vertical tab. *)
Lemma is_whitespace_units (u : Z) :
  is_whitespace u = true
  <-> u = 32 \/ u = 9 \/ u = 10 \/ u = 13 \/ u = 12 \/ u = 11.
Proof.
  unfold is_whitespace. rewrite !orb_true_iff, !Z.eqb_eq. tauto.
Qed.

Lemma nonzero_map (f : Z -> Z) (t : list Z) :
  (forall c, c <> 0 -> f c <> 0) -> nonzero t -> nonzero (map f t).
Proof.
  intros Hf Ht. unfold nonzero in *. rewrite Forall_map.
  eapply Forall_impl; [exact Ht | exact Hf].
Qed.

Lemma content_uppercase (b : list Z) :
  content (uppercase_loop b) = map char_capitalize (content b).
Proof.
  induction b as [|c b IH]; [reflexivity|].
  simpl uppercase_loop. rewrite (content_cons c b).
  destruct (c =? 0) eqn:E.
  - rewrite content_cons. now rewrite E.
  - rewrite content_cons.
    destruct (char_capitalize c =? 0) eqn:E'.
    + bools. now apply capitalize_nonzero in E.
    + simpl. now rewrite IH.
Qed.

Lemma content_lowercase (b : list Z) :
  content (lowercase_loop b) = map char_decapitalize (content b).
Proof.
  induction b as [|c b IH]; [reflexivity|].
  simpl lowercase_loop. rewrite (content_cons c b).
  destruct (c =? 0) eqn:E.
  - rewrite content_cons. now rewrite E.
  - rewrite content_cons.
    destruct (char_decapitalize c =? 0) eqn:E'.
    + bools. now apply decapitalize_nonzero in E.
    + simpl. now rewrite IH.
Qed.

(** The two conversions into a new buffer run one loop, with the unit
    mapping [f] as the only difference. *)
Section Conversion.

Variable f : Z -> Z.
Hypothesis f_nonzero : forall c : Z, c <> 0 -> f c <> 0.

(** The conversion loop fills the cells [mid] that follow [pre]. *)
Lemma convert_loop_ok (l : loc) (src : list Z) :
  forall (dest : Z) (pre mid post : list Z) (h : heap),
    blocks h !! l = Some (Chars (pre ++ mid ++ post)) ->
    dest = Z.of_nat (length pre) ->
    length mid = c_scan src ->
    convert_loop f src (Ptr l) dest h
    = Some (dest + Z.of_nat (c_scan src),
            upd l (Chars (pre ++ map f (content src) ++ post)) h).
Proof.
  induction src as [|c src IH]; intros dest pre mid post h Hl Hd Hm.
  - simpl in *. destruct mid; [|discriminate].
    rewrite upd_same by assumption. unfold ret. do 2 f_equal. lia.
  - simpl in Hm. simpl convert_loop. simpl c_scan. rewrite content_cons.
    destruct (c =? 0) eqn:E.
    + destruct mid; [|discriminate].
      rewrite upd_same by assumption. unfold ret. simpl. do 2 f_equal. lia.
    + destruct mid as [|m mid]; [discriminate|]. injection Hm as Hm.
      unfold bind. simpl in Hl.
      rewrite (store_char_mid _ _ _ _ _ _ _ Hl Hd).
      rewrite (IH (dest + 1) (pre ++ [f c]) mid post).
      * rewrite upd_upd.
        rewrite <- app_assoc. simpl. do 2 f_equal. lia.
      * rewrite blocks_upd. now rewrite <- app_assoc.
      * rewrite length_app. simpl. lia.
      * assumption.
Qed.

(** The body that [str_uppercase_n] and [str_lowercase_n] share. *)
Lemma convert_n_ok (b : list Z) (h : heap) :
  fits b -> grants 1 h ->
  yields
    (let len := str_len (Some b) in
     new_text <- malloc_chars (to_size (to_int (len + 1))) ;;
     match new_text with
     | NULL => ret NULL
     | Ptr _ =>
         dest <- convert_loop f b new_text 0 ;;
         store_char new_text dest 0 ;;
         ret new_text
     end) h (map f (content b)).
Proof.
  intros Hb Hg. unfold yields.
  exists (fresh (dom (blocks h))). split; [apply fresh_free|].
  pose proof (content_nonzero b) as Hnz.
  split; [|apply c_string_upd; now apply nonzero_map].
  cbv zeta. rewrite (str_len_fits _ Hb).
  unfold fits, INT_MAX in Hb.
  rewrite to_size_int by (unfold INT_MAX; lia).
  unfold bind at 1. unfold malloc_chars.
  rewrite malloc_granted;
    [|assumption|unfold ALLOC_MAX; lia].
  set (l := fresh (dom (blocks h))).
  replace (Z.to_nat (Z.of_nat (c_scan b) + 1)) with (c_scan b + 1)%nat by lia.
  rewrite replicate_add. simpl replicate.
  unfold bind.
  rewrite (convert_loop_ok l b 0 [] (replicate (c_scan b) (junk h))
             [junk h]);
    [|now rewrite blocks_upd|reflexivity|now rewrite length_replicate].
  rewrite upd_upd. simpl app.
  rewrite (store_char_mid l (map f (content b)) [] (junk h));
    [|now rewrite blocks_upd|rewrite length_map, length_content; lia].
  now rewrite upd_upd.
Qed.

End Conversion.

(** C9.  For every present text, the buffer that [str_uppercase_n]
    returns holds exactly the text that [str_uppercase] leaves in place
    in a copy of it, and [str_lowercase_n] agrees with [str_lowercase]
    in the same way. *)
Theorem case_variants_agree (b : list Z) (h : heap) :
  fits b -> grants 1 h ->
  yields (str_uppercase_n (Some b)) h (units (str_uppercase (Some b))) /\
  yields (str_lowercase_n (Some b)) h (units (str_lowercase (Some b))).
Proof.
  intros Hb Hg. simpl units. rewrite content_uppercase, content_lowercase.
  split; apply convert_n_ok; auto with strkit.
Qed.

Lemma case_variants_agree_witness :
  fits (lit "Hello, World!") /\ grants 1 (heap0 1) /\
  yields (str_uppercase_n (Some (lit "Hello, World!"))) (heap0 1)
    (units (str_uppercase (Some (lit "Hello, World!")))) /\
  yields (str_lowercase_n (Some (lit "Hello, World!"))) (heap0 1)
    (units (str_lowercase (Some (lit "Hello, World!")))).
Proof.
  assert (Hf : fits (lit "Hello, World!"))
    by (unfold fits, INT_MAX; simpl; lia).
  assert (Hg : grants 1 (heap0 1)) by reflexivity.
  split; [exact Hf|]. split; [exact Hg|].
  exact (case_variants_agree (lit "Hello, World!") (heap0 1) Hf Hg).
Defined.

(** ** Slices of a buffer and the copy loop *)

Lemma length_slice (b : list Z) (s : Z) (n : nat) : length (slice b s n) = n.
Proof. unfold slice. now rewrite length_map, length_seq. Qed.

Lemma slice_S (b : list Z) (s : Z) (n : nat) :
  slice b s (S n) = peek b s :: slice b (s + 1) n.
Proof.
  unfold slice. simpl. rewrite Z.add_0_r. f_equal.
  rewrite <- seq_shift, map_map. apply map_ext. intros k. f_equal. lia.
Qed.

Lemma slice_app (b : list Z) (s : Z) (n m : nat) :
  slice b s (n + m) = slice b s n ++ slice b (s + Z.of_nat n) m.
Proof.
  revert s. induction n as [|n IH]; intros s.
  - simpl. now rewrite Z.add_0_r.
  - simpl Nat.add. rewrite !slice_S, IH. simpl. do 3 f_equal. lia.
Qed.

Lemma slice_lookup (b : list Z) (s : Z) (n k : nat) :
  (k < n)%nat -> slice b s n !! k = Some (peek b (s + Z.of_nat k)).
Proof.
  intros Hk. unfold slice. rewrite list_lookup_fmap.
  now rewrite lookup_seq_lt.
Qed.

Lemma peek_cons (c : Z) (b : list Z) (i : Z) :
  0 <= i -> peek (c :: b) (i + 1) = peek b i.
Proof.
  intros Hi. unfold peek.
  destruct (i + 1 <? 0) eqn:E1; [bools; lia|].
  destruct (i <? 0) eqn:E2; [bools; lia|]. bools.
  replace (Z.to_nat (i + 1)) with (S (Z.to_nat i)) by lia. reflexivity.
Qed.

Lemma slice_cons (c : Z) (b : list Z) (s : Z) (n : nat) :
  0 <= s -> slice (c :: b) (s + 1) n = slice b s n.
Proof.
  intros Hs. unfold slice. apply map_ext. intros k.
  replace (s + 1 + Z.of_nat k) with (s + Z.of_nat k + 1) by lia.
  apply peek_cons. lia.
Qed.

Lemma content_slice (b : list Z) : content b = slice b 0 (c_scan b).
Proof.
  induction b as [|c b IH]; [reflexivity|].
  rewrite content_cons. simpl c_scan.
  destruct (c =? 0); [reflexivity|].
  rewrite slice_S. f_equal.
  rewrite IH. symmetry. apply (slice_cons c b 0). lia.
Qed.

(** A slice inside the text is a piece of the text. *)
Lemma slice_content (b : list Z) (s n : nat) :
  (s + n <= c_scan b)%nat ->
  slice b (Z.of_nat s) n = take n (drop s (content b)).
Proof.
  intros Hsn. apply list_eq. intros k.
  destruct (decide (k < n)%nat) as [Hk|Hk].
  - rewrite slice_lookup by assumption.
    rewrite lookup_take_lt by assumption. rewrite lookup_drop.
    rewrite peek_content by lia. do 2 f_equal. lia.
  - rewrite lookup_ge_None_2 by (rewrite length_slice; lia).
    symmetry. apply lookup_ge_None_2. rewrite length_take. lia.
Qed.

Lemma slice_nonzero (b : list Z) (s n : nat) :
  (s + n <= c_scan b)%nat -> nonzero (slice b (Z.of_nat s) n).
Proof.
  intros Hsn. rewrite slice_content by assumption.
  apply Forall_take, Forall_drop, content_nonzero.
Qed.

Lemma slice_whole (b : list Z) : slice b 0 (c_scan b) = content b.
Proof. symmetry. apply content_slice. Qed.

(** The copy loop fills the cells [mid] that follow [pre]. *)
Lemma copy_loop_ok (l : loc) (src : list Z) (d s : Z) (todo : nat) :
  forall (i : Z) (pre mid post : list Z) (h : heap),
    blocks h !! l = Some (Chars (pre ++ mid ++ post)) ->
    d + i = Z.of_nat (length pre) ->
    length mid = todo ->
    copy_loop todo (Ptr l) d src s i h
    = Some (tt, upd l (Chars (pre ++ slice src (s + i) todo ++ post)) h).
Proof.
  induction todo as [|todo IH]; intros i pre mid post h Hl Hd Hm.
  - destruct mid; [|discriminate]. simpl.
    rewrite upd_same by assumption. reflexivity.
  - destruct mid as [|m mid]; [discriminate|]. injection Hm as Hm.
    simpl copy_loop. unfold bind. simpl in Hl.
    rewrite (store_char_mid _ _ _ _ _ _ _ Hl Hd).
    rewrite (IH (i + 1) (pre ++ [peek src (s + i)]) mid post).
    + rewrite upd_upd, slice_S, <- app_assoc. simpl.
      replace (s + (i + 1)) with (s + i + 1) by lia. reflexivity.
    + rewrite blocks_upd. now rewrite <- app_assoc.
    + rewrite length_app. simpl. lia.
    + assumption.
Qed.

(** A new block of [n + 1] cells, filled with [n] units of [src] taken
    from [s] and closed with a terminator. *)
Lemma fill_new_block (l : loc) (src : list Z) (s n : Z) (h : heap) :
  0 <= n ->
  blocks h !! l = Some (Chars (replicate (Z.to_nat (n + 1)) (junk h))) ->
  (copy_units (Ptr l) 0 src s n ;; store_char (Ptr l) n 0) h
  = Some (tt, upd l (Chars (slice src s (Z.to_nat n) ++ [0])) h).
Proof.
  intros Hn Hl.
  replace (Z.to_nat (n + 1)) with (Z.to_nat n + 1)%nat in Hl by lia.
  rewrite replicate_add in Hl. simpl replicate in Hl.
  unfold bind, copy_units.
  rewrite (copy_loop_ok l src 0 s (Z.to_nat n) 0 []
             (replicate (Z.to_nat n) (junk h)) [junk h]);
    [|exact Hl|reflexivity|now rewrite length_replicate].
  simpl app. rewrite Z.add_0_r.
  rewrite (store_char_mid l (slice src s (Z.to_nat n)) [] (junk h));
    [|now rewrite blocks_upd|rewrite length_slice; lia].
  now rewrite upd_upd.
Qed.

Lemma empty_string_ok (h : heap) : grants 1 h -> yields empty_string h [].
Proof.
  intros Hg. exists (fresh (dom (blocks h))).
  split; [apply fresh_free|]. split; [|apply c_string_upd; constructor].
  unfold empty_string, bind, malloc_chars.
  rewrite malloc_granted; [|assumption|vm_compute; discriminate].
  rewrite (store_char_mid _ [] [] (junk h) 0 0);
    [|now rewrite blocks_upd|reflexivity].
  now rewrite upd_upd.
Qed.

(** ** Title case *)

Lemma title_loop_app (flag : bool) (t rest : list Z) :
  nonzero t -> title_loop flag (t ++ 0 :: rest) = title_case flag t ++ 0 :: rest.
Proof.
  intros Ht. revert flag.
  induction Ht as [|c t Hc _ IH]; intros flag; [reflexivity|].
  simpl. destruct (c =? 0) eqn:E; [bools; lia|].
  destruct (is_whitespace c); [now rewrite IH|].
  destruct flag; now rewrite IH.
Qed.

Lemma content_title (flag : bool) (b : list Z) :
  content (title_loop flag b) = title_case flag (content b).
Proof.
  revert flag. induction b as [|c b IH]; intros flag; [reflexivity|].
  simpl title_loop. rewrite (content_cons c b).
  destruct (c =? 0) eqn:E.
  - rewrite content_cons. now rewrite E.
  - simpl title_case.
    destruct (is_whitespace c).
    + rewrite content_cons, E. now rewrite IH.
    + destruct flag; rewrite content_cons.
      * destruct (char_capitalize c =? 0) eqn:E'.
        { bools. now apply capitalize_nonzero in E. }
        now rewrite IH.
      * destruct (char_decapitalize c =? 0) eqn:E'.
        { bools. now apply decapitalize_nonzero in E. }
        now rewrite IH.
Qed.

Lemma title_case_nonzero (flag : bool) (t : list Z) :
  nonzero t -> nonzero (title_case flag t).
Proof.
  intros Ht. revert flag.
  induction Ht as [|c t Hc _ IH]; intros flag; [constructor|].
  simpl. destruct (is_whitespace c); [constructor; [exact Hc | apply IH]|].
  destruct flag; (constructor; [auto with strkit|apply IH]).
Qed.

Lemma length_title_case (flag : bool) (t : list Z) :
  length (title_case flag t) = length t.
Proof.
  revert flag. induction t as [|c t IH]; intros flag; [reflexivity|].
  simpl. destruct (is_whitespace c); [simpl; now rewrite IH|].
  destruct flag; simpl; now rewrite IH.
Qed.

Lemma str_title_n_ok (b : list Z) (h : heap) :
  fits b -> grants 1 h ->
  yields (str_title_n (Some b)) h (title_case true (content b)).
Proof.
  intros Hb Hg. pose proof (content_nonzero b) as Hnz.
  exists (fresh (dom (blocks h))). split; [apply fresh_free|].
  split; [|apply c_string_upd; now apply title_case_nonzero].
  unfold str_title_n. cbv zeta. rewrite (str_len_fits _ Hb).
  unfold fits, INT_MAX in Hb.
  rewrite to_size_int by (unfold INT_MAX; lia).
  unfold bind at 1. unfold malloc_chars.
  rewrite malloc_granted; [|assumption|unfold ALLOC_MAX; lia].
  set (l := fresh (dom (blocks h))).
  set (n := Z.of_nat (c_scan b)).
  pose proof (fill_new_block l b 0 n
    (upd l (Chars (replicate (Z.to_nat (n + 1)) (junk h))) (spend h))) as Hfill.
  unfold bind in Hfill |- *.
  destruct (copy_units (Ptr l) 0 b 0 n _) as [[[] h1]|] eqn:Hcopy.
  2:{ exfalso. specialize (Hfill ltac:(lia) ltac:(now rewrite blocks_upd)).
      discriminate. }
  rewrite Hfill; [|lia|now rewrite blocks_upd].
  rewrite upd_upd. subst n. rewrite Nat2Z.id, slice_whole.
  unfold in_place, bind, cstr_at. rewrite blocks_upd.
  rewrite c_scan_app_nul by assumption.
  rewrite length_app. simpl length.
  destruct (length (content b) <? length (content b) + 1)%nat eqn:E;
    [|bools; lia].
  simpl str_title. rewrite title_loop_app by assumption.
  rewrite !length_app, length_title_case. simpl length.
  rewrite Nat.eqb_refl. rewrite upd_upd.
  replace (0 :: []) with [0] by reflexivity. reflexivity.
Qed.

(** C4.  For every text, [str_title] and [str_title_n] produce the scan
    that starts with the word-start flag set, passes a whitespace unit
    (space, tab, newline, carriage return, form feed, vertical tab)
    through and sets the flag, upper-cases a unit met with the flag set
    and clears it, and lower-cases every other unit; on
    "the QUICK fox" both give "The Quick Fox". *)
Theorem title_case_scan (b : list Z) (h : heap) :
  fits b -> grants 1 h ->
  units (str_title (Some b)) = title_case true (content b) /\
  yields (str_title_n (Some b)) h (title_case true (content b)) /\
  (forall u : Z,
     is_whitespace u = true
     <-> u = 32 \/ u = 9 \/ u = 10 \/ u = 13 \/ u = 12 \/ u = 11) /\
  units (str_title (Some (lit "the QUICK fox"))) = lit "The Quick Fox" /\
  text_of (str_title_n (Some (lit "the QUICK fox"))) (heap0 1)
  = Some (lit "The Quick Fox").
Proof.
  intros Hb Hg. split; [apply content_title|].
  split; [now apply str_title_n_ok|].
  split; [exact is_whitespace_units|].
  split; vm_compute; reflexivity.
Qed.

Lemma title_case_scan_witness :
  fits (lit "a tale OF two") /\ grants 1 (heap0 1) /\
  units (str_title (Some (lit "a tale OF two")))
  = title_case true (content (lit "a tale OF two")) /\
  yields (str_title_n (Some (lit "a tale OF two"))) (heap0 1)
    (title_case true (content (lit "a tale OF two"))) /\
  (forall u : Z,
     is_whitespace u = true
     <-> u = 32 \/ u = 9 \/ u = 10 \/ u = 13 \/ u = 12 \/ u = 11) /\
  units (str_title (Some (lit "the QUICK fox"))) = lit "The Quick Fox" /\
  text_of (str_title_n (Some (lit "the QUICK fox"))) (heap0 1)
  = Some (lit "The Quick Fox").
Proof.
  assert (Hf : fits (lit "a tale OF two"))
    by (unfold fits, INT_MAX; simpl; lia).
  assert (Hg : grants 1 (heap0 1)) by reflexivity.
  split; [exact Hf|]. split; [exact Hg|].
  exact (title_case_scan (lit "a tale OF two") (heap0 1) Hf Hg).
Defined.

(** ** Trimming *)

(** *** Reads and writes of a borrowed buffer *)

Lemma peek_nil (i : Z) : peek [] i = 0.
Proof. unfold peek. destruct (i <? 0); reflexivity. Qed.

Lemma peek_0 (c : Z) (b : list Z) : peek (c :: b) 0 = c.
Proof. reflexivity. Qed.

Lemma peek_past (b : list Z) (i : Z) :
  Z.of_nat (length b) <= i -> peek b i = 0.
Proof.
  intros Hi. unfold peek. destruct (i <? 0); [reflexivity|].
  now rewrite lookup_ge_None_2 by lia.
Qed.

Lemma peek_poke (b : list Z) (i j v : Z) :
  0 <= i -> 0 <= j ->
  peek (poke b i v) j = if j =? i then v else peek b j.
Proof.
  intros Hi Hj. unfold peek at 1, poke.
  destruct (j <? 0) eqn:E1; [bools; lia|].
  destruct (i <? 0) eqn:E2; [bools; lia|].
  destruct (i <? Z.of_nat (length b)) eqn:E3; bools.
  - destruct (j =? i) eqn:E4; bools.
    + subst j. now rewrite list_lookup_insert_eq by lia.
    + rewrite list_lookup_insert_ne by lia.
      unfold peek. destruct (j <? 0) eqn:E5; [bools; lia|]. reflexivity.
  - destruct (decide (j < Z.of_nat (length b))) as [Hlt|Hge].
    + rewrite lookup_app_l by lia.
      destruct (j =? i) eqn:E4; bools; [lia|].
      unfold peek. destruct (j <? 0) eqn:E5; [bools; lia|]. reflexivity.
    + rewrite lookup_app_r by lia.
      destruct (decide (j < i)) as [Hji|Hji].
      * rewrite lookup_app_l by (rewrite length_replicate; lia).
        rewrite lookup_replicate_2 by lia.
        destruct (j =? i) eqn:E4; bools; [lia|].
        now rewrite peek_past by lia.
      * rewrite lookup_app_r by (rewrite length_replicate; lia).
        rewrite length_replicate.
        destruct (j =? i) eqn:E4; bools.
        -- subst j.
           replace (Z.to_nat i - length b - (Z.to_nat i - length b))%nat
             with 0%nat by lia.
           reflexivity.
        -- rewrite lookup_ge_None_2 by (simpl; lia).
           now rewrite peek_past by lia.
Qed.

(** The scan stops at the first cell that holds 0. *)
Lemma c_scan_first_nul (b : list Z) (n : nat) :
  (forall k : nat, (k < n)%nat -> peek b (Z.of_nat k) <> 0) ->
  peek b (Z.of_nat n) = 0 ->
  c_scan b = n.
Proof.
  revert n. induction b as [|c b IH]; intros n Hnz Hz.
  - destruct n as [|n]; [reflexivity|].
    exfalso. apply (Hnz 0%nat); [lia|]. apply peek_nil.
  - simpl. destruct (c =? 0) eqn:E; bools.
    + destruct n as [|n]; [reflexivity|].
      exfalso. apply (Hnz 0%nat); [lia|]. exact E.
    + destruct n as [|n]; [exfalso; apply E; exact Hz|].
      f_equal. apply IH.
      * intros k Hk. specialize (Hnz (S k) ltac:(lia)).
        rewrite Nat2Z.inj_succ in Hnz. unfold Z.succ in Hnz.
        now rewrite peek_cons in Hnz by lia.
      * rewrite Nat2Z.inj_succ in Hz. unfold Z.succ in Hz.
        now rewrite peek_cons in Hz by lia.
Qed.

Lemma peek_before_scan (b : list Z) (k : nat) :
  (k < c_scan b)%nat -> peek b (Z.of_nat k) <> 0.
Proof.
  intros Hk. pose proof (peek_content b k Hk) as Hp.
  pose proof (content_nonzero b) as Hnz.
  rewrite Forall_lookup in Hnz. exact (Hnz _ _ Hp).
Qed.

(** The text of a buffer whose first 0 cell is cell [n]. *)
Lemma content_first_nul (b : list Z) (n : nat) :
  (forall k : nat, (k < n)%nat -> peek b (Z.of_nat k) <> 0) ->
  peek b (Z.of_nat n) = 0 ->
  content b = slice b 0 n.
Proof.
  intros Hnz Hz. rewrite content_slice.
  now rewrite (c_scan_first_nul b n Hnz Hz).
Qed.

(** Cutting a text short by writing a terminator into it. *)
Lemma content_cut (b : list Z) (n : nat) :
  (n <= c_scan b)%nat -> content (poke b (Z.of_nat n) 0) = slice b 0 n.
Proof.
  intros Hn.
  rewrite (content_first_nul (poke b (Z.of_nat n) 0) n).
  - unfold slice. apply map_ext_in. intros k Hk.
    apply in_seq in Hk. rewrite peek_poke by lia.
    destruct (0 + Z.of_nat k =? Z.of_nat n) eqn:E; bools; [lia|reflexivity].
  - intros k Hk. rewrite peek_poke by lia.
    destruct (Z.of_nat k =? Z.of_nat n) eqn:E; bools; [lia|].
    apply peek_before_scan. lia.
  - rewrite peek_poke by lia. now rewrite Z.eqb_refl.
Qed.

(** *** The forward scan over leading whitespace *)

Lemma skip_ws_le (b : list Z) : (skip_ws b <= c_scan b)%nat.
Proof.
  induction b as [|c b IH]; simpl; [lia|].
  destruct (c =? 0); simpl; [lia|].
  destruct (is_whitespace c); lia.
Qed.

Lemma skip_ws_before (b : list Z) (k : nat) :
  (k < skip_ws b)%nat -> is_whitespace (peek b (Z.of_nat k)) = true.
Proof.
  revert k. induction b as [|c b IH]; intros k Hk; simpl in Hk; [lia|].
  destruct (negb (c =? 0) && is_whitespace c) eqn:E; [|lia]. bools.
  destruct k as [|k]; [assumption|].
  rewrite Nat2Z.inj_succ. unfold Z.succ. rewrite peek_cons by lia.
  apply IH. lia.
Qed.

Lemma skip_ws_stop (b : list Z) :
  peek b (Z.of_nat (skip_ws b)) = 0 \/
  is_whitespace (peek b (Z.of_nat (skip_ws b))) = false.
Proof.
  induction b as [|c b IH]; simpl; [now left|].
  destruct (c =? 0) eqn:E0; simpl.
  - left. bools. assumption.
  - destruct (is_whitespace c) eqn:Ew; [|now right].
    rewrite Nat2Z.inj_succ. unfold Z.succ. now rewrite peek_cons by lia.
Qed.

(** *** The backward scan over trailing whitespace *)

Lemma back_ws_spec (fuel : nat) (b : list Z) (start e0 : Z) :
  start <= e0 -> e0 - start <= Z.of_nat fuel ->
  let e := back_ws fuel b start e0 in
  start <= e <= e0 /\
  (forall k, e < k <= e0 -> is_whitespace (peek b k) = true) /\
  (e = start \/ is_whitespace (peek b e) = false).
Proof.
  revert e0. induction fuel as [|fuel IH]; intros e0 Hs Hf; simpl.
  - split; [lia|]. split; [intros k Hk; lia|]. left. lia.
  - destruct (e0 >? start) eqn:E1; simpl.
    + destruct (is_whitespace (peek b e0)) eqn:E2.
      * bools. destruct (IH (e0 - 1)) as (H1 & H2 & H3); [lia|lia|].
        split; [lia|]. split; [|exact H3].
        intros k Hk. destruct (decide (k = e0)) as [->|Hne];
          [assumption|]. apply H2. lia.
      * bools. split; [lia|]. split; [intros k Hk; lia|]. now right.
    + bools. split; [lia|]. split; [intros k Hk; lia|]. left. lia.
Qed.

(** *** The shift to the front *)

Lemma shift_loop_peek (m : nat) :
  forall (fuel : nat) (b : list Z) (dest start : Z),
    0 <= dest <= start ->
    (forall k : nat, (k < m)%nat -> peek b (start + Z.of_nat k) <> 0) ->
    peek b (start + Z.of_nat m) = 0 ->
    (m < fuel)%nat ->
    forall j, 0 <= j ->
      peek (shift_loop fuel b dest start) j
      = if (dest <=? j) && (j <=? dest + Z.of_nat m)
        then peek b (j - dest + start) else peek b j.
Proof.
  induction m as [|m IH]; intros fuel b dest start Hd Hnz Hz Hf j Hj;
    (destruct fuel as [|fuel]; [lia|]); simpl shift_loop.
  - rewrite Z.add_0_r in Hz. rewrite Hz. simpl.
    rewrite peek_poke by lia. change (Z.of_nat 0) with 0.
    destruct (j =? dest) eqn:E;
      destruct ((dest <=? j) && (j <=? dest + 0)) eqn:E';
      bools; try lia; try reflexivity.
    subst j. replace (dest - dest + start) with start by lia. now rewrite Hz.
  - destruct (peek b start =? 0) eqn:E0.
    { bools. exfalso. apply (Hnz 0%nat); [lia|]. now rewrite Z.add_0_r. }
    rewrite IH; try lia.
    + rewrite !peek_poke by lia.
      destruct ((dest + 1 <=? j) && (j <=? dest + 1 + Z.of_nat m)) eqn:E1;
        destruct ((dest <=? j) && (j <=? dest + Z.of_nat (S m))) eqn:E2;
        destruct (j - (dest + 1) + (start + 1) =? dest) eqn:E3;
        destruct (j =? dest) eqn:E4;
        bools; try lia; try reflexivity; f_equal; lia.
    + intros k Hk. rewrite peek_poke by lia.
      destruct (start + 1 + Z.of_nat k =? dest) eqn:E2; [bools; lia|].
      specialize (Hnz (S k) ltac:(lia)).
      replace (start + 1 + Z.of_nat k) with (start + Z.of_nat (S k)) by lia.
      exact Hnz.
    + rewrite peek_poke by lia.
      destruct (start + 1 + Z.of_nat m =? dest) eqn:E2; [bools; lia|].
      replace (start + 1 + Z.of_nat m) with (start + Z.of_nat (S m)) by lia.
      exact Hz.
Qed.

Lemma content_shift (b : list Z) (start : nat) (fuel : nat) :
  (start <= c_scan b)%nat -> (c_scan b - start < fuel)%nat ->
  content (shift_loop fuel b 0 (Z.of_nat start))
  = slice b (Z.of_nat start) (c_scan b - start).
Proof.
  intros Hs Hf. set (m := (c_scan b - start)%nat).
  assert (Hnz : forall k : nat, (k < m)%nat ->
            peek b (Z.of_nat start + Z.of_nat k) <> 0).
  { intros k Hk. rewrite <- Nat2Z.inj_add. apply peek_before_scan. lia. }
  assert (Hz : peek b (Z.of_nat start + Z.of_nat m) = 0).
  { rewrite <- Nat2Z.inj_add. replace (start + m)%nat with (c_scan b) by lia.
    apply peek_scan. }
  pose proof (shift_loop_peek m fuel b 0 (Z.of_nat start) ltac:(lia) Hnz Hz Hf)
    as Hpeek.
  rewrite (content_first_nul _ m).
  - unfold slice. apply map_ext_in. intros k Hk. apply in_seq in Hk.
    rewrite Hpeek by lia.
    replace ((0 <=? 0 + Z.of_nat k) && (0 + Z.of_nat k <=? 0 + Z.of_nat m))
      with true
      by (symmetry; apply andb_true_iff; split; apply Z.leb_le; lia).
    f_equal. lia.
  - intros k Hk. rewrite Hpeek by lia.
    replace ((0 <=? Z.of_nat k) && (Z.of_nat k <=? 0 + Z.of_nat m))
      with true
      by (symmetry; apply andb_true_iff; split; apply Z.leb_le; lia).
    replace (Z.of_nat k - 0 + Z.of_nat start)
      with (Z.of_nat start + Z.of_nat k) by lia.
    apply Hnz. lia.
  - rewrite Hpeek by lia.
    replace ((0 <=? Z.of_nat m) && (Z.of_nat m <=? 0 + Z.of_nat m))
      with true
      by (symmetry; apply andb_true_iff; split; apply Z.leb_le; lia).
    replace (Z.of_nat m - 0 + Z.of_nat start)
      with (Z.of_nat start + Z.of_nat m) by lia.
    exact Hz.
Qed.

(** *** The two trims *)

Lemma c_scan_cut (b : list Z) (n : nat) :
  (n <= c_scan b)%nat -> c_scan (poke b (Z.of_nat n) 0) = n.
Proof.
  intros Hn. apply c_scan_first_nul.
  - intros k Hk. rewrite peek_poke by lia.
    destruct (Z.of_nat k =? Z.of_nat n) eqn:E; bools; [lia|].
    apply peek_before_scan. lia.
  - rewrite peek_poke by lia. now rewrite Z.eqb_refl.
Qed.

Lemma slice_poke_before (b : list Z) (i v s : Z) (n : nat) :
  0 <= s -> s + Z.of_nat n <= i ->
  slice (poke b i v) s n = slice b s n.
Proof.
  intros Hs Hi. unfold slice. apply map_ext_in. intros k Hk.
  apply in_seq in Hk. rewrite peek_poke by lia.
  destruct (s + Z.of_nat k =? i) eqn:E; bools; [lia|reflexivity].
Qed.

Lemma all_ws_slice (b : list Z) (s : Z) (n : nat) :
  (forall k : nat, (k < n)%nat ->
     is_whitespace (peek b (s + Z.of_nat k)) = true) ->
  all_ws (slice b s n).
Proof.
  intros H. unfold all_ws, slice. rewrite Forall_map.
  apply Forall_forall. intros k Hk. apply elem_of_seq in Hk.
  apply H. lia.
Qed.

Lemma head_slice (b : list Z) (s : Z) (n : nat) (u : Z) :
  head (slice b s n) = Some u -> u = peek b s.
Proof.
  destruct n as [|n]; [discriminate|]. rewrite slice_S. simpl.
  now intros [= <-].
Qed.

Lemma last_slice (b : list Z) (s : Z) (n : nat) (u : Z) :
  last (slice b s n) = Some u -> u = peek b (s + Z.of_nat n - 1).
Proof.
  rewrite last_lookup, length_slice.
  destruct n as [|n]; [discriminate|]. simpl Nat.pred.
  rewrite slice_lookup by lia. intros [= <-]. f_equal. lia.
Qed.

(** What the two scans of [str_trim] and [str_trim_n] find in a buffer
    that holds a unit other than whitespace. *)
Lemma trim_scans (b : list Z) :
  peek b (Z.of_nat (skip_ws b)) <> 0 ->
  let start := Z.of_nat (skip_ws b) in
  let n := Z.of_nat (c_scan b) in
  let e := back_ws (Z.to_nat (n - 1 - start)) b start (n - 1) in
  start <= e <= n - 1 /\
  is_whitespace (peek b start) = false /\
  is_whitespace (peek b e) = false /\
  (forall k, e < k <= n - 1 -> is_whitespace (peek b k) = true).
Proof.
  intros Hnz start n e.
  assert (Hws : is_whitespace (peek b start) = false).
  { destruct (skip_ws_stop b) as [H|H]; [contradiction|exact H]. }
  assert (Hlt : start < n).
  { pose proof (skip_ws_le b) as Hle. pose proof (peek_scan b) as Hz.
    destruct (decide (skip_ws b = c_scan b)) as [Heq|Hne]; [|subst start n; lia].
    rewrite Heq in Hnz. contradiction. }
  destruct (back_ws_spec (Z.to_nat (n - 1 - start)) b start (n - 1))
    as (H1 & H2 & H3); [lia|lia|].
  fold e in H1, H2, H3.
  split; [exact H1|]. split; [exact Hws|]. split; [|exact H2].
  destruct H3 as [->|H3]; assumption.
Qed.

(** The text is leading whitespace, the part kept, trailing whitespace. *)
Lemma trim_parts (b : list Z) :
  fits b ->
  exists ws1 r ws2 : list Z,
    content b = ws1 ++ r ++ ws2 /\ all_ws ws1 /\ all_ws ws2 /\ trimmed r /\
    units (str_trim (Some b)) = r /\
    (forall h, grants 1 h -> yields (str_trim_n (Some b)) h r).
Proof.
  intros Hb. pose proof (skip_ws_le b) as Hsk.
  destruct (peek b (Z.of_nat (skip_ws b)) =? 0) eqn:E0.
  - (* nothing but whitespace *)
    bools. assert (Hn : skip_ws b = c_scan b).
    { destruct (decide (skip_ws b = c_scan b)) as [|Hne]; [assumption|].
      exfalso. apply (peek_before_scan b (skip_ws b)); [lia|assumption]. }
    exists (content b), [], []. rewrite app_nil_r.
    split; [reflexivity|]. split.
    { rewrite content_slice, <- Hn. apply all_ws_slice. intros k Hk.
      apply skip_ws_before. lia. }
    split; [constructor|]. split; [split; intros u; discriminate|].
    split.
    + unfold str_trim. rewrite E0, Z.eqb_refl. simpl units.
      apply (content_cut b 0). lia.
    + intros h Hg. unfold str_trim_n. rewrite E0, Z.eqb_refl.
      now apply empty_string_ok.
  - bools. destruct (trim_scans b E0) as (He & Hws & Hwe & Htail).
    set (start := Z.of_nat (skip_ws b)) in *.
    set (n := Z.of_nat (c_scan b)) in *.
    set (e := back_ws (Z.to_nat (n - 1 - start)) b start (n - 1)) in *.
    set (len := Z.to_nat (e + 1 - start)).
    exists (slice b 0 (skip_ws b)), (slice b start len),
      (slice b (e + 1) (Z.to_nat (n - 1 - e))).
    split.
    { rewrite content_slice.
      replace (c_scan b) with (skip_ws b + (len + Z.to_nat (n - 1 - e)))%nat
        by lia.
      rewrite !slice_app. do 3 f_equal. lia. }
    split.
    { apply all_ws_slice. intros k Hk. apply skip_ws_before. lia. }
    split.
    { apply all_ws_slice. intros k Hk. apply Htail. lia. }
    split.
    { split; intros u Hu.
      - apply head_slice in Hu. now subst u.
      - apply last_slice in Hu. subst u.
        replace (start + Z.of_nat len - 1) with e by lia. exact Hwe. }
    assert (Hlen : str_len (Some b) - 1 = n - 1) by now rewrite str_len_fits.
    split.
    + unfold str_trim. fold start.
      destruct (peek b start =? 0) eqn:E1; [bools; contradiction|].
      rewrite Hlen. fold e.
      replace (e + 1) with (Z.of_nat (Z.to_nat (e + 1))) by lia.
      destruct (start >? 0) eqn:E2; bools; unfold units.
      * pose proof (c_scan_le (poke b (Z.of_nat (Z.to_nat (e + 1))) 0)) as Hsc.
        rewrite c_scan_cut in Hsc by lia.
        etransitivity;
          [apply (content_shift _ (skip_ws b));
           rewrite c_scan_cut by lia; lia|].
        rewrite c_scan_cut by lia. fold start.
        rewrite slice_poke_before by lia. f_equal. lia.
      * rewrite content_cut by lia.
        replace start with 0 by lia. f_equal. lia.
    + intros h Hg. unfold str_trim_n. fold start.
      destruct (peek b start =? 0) eqn:E1; [bools; contradiction|].
      rewrite Hlen. fold e. unfold fits, INT_MAX in Hb.
      rewrite (to_int_id (e - start + 1)) by (unfold INT_MIN, INT_MAX; lia).
      rewrite to_size_int by (unfold INT_MAX; lia).
      exists (fresh (dom (blocks h))). split; [apply fresh_free|].
      assert (Hr : nonzero (slice b start len)).
      { apply slice_nonzero. lia. }
      split; [|now apply c_string_upd].
      unfold bind at 1. unfold malloc_chars.
      rewrite malloc_granted; [|assumption|unfold ALLOC_MAX; lia].
      set (l := fresh (dom (blocks h))).
      pose proof (fill_new_block l b start (e - start + 1)
        (upd l (Chars (replicate (Z.to_nat (e - start + 1 + 1)) (junk h)))
           (spend h)) ltac:(lia) ltac:(now rewrite blocks_upd)) as Hfill.
      unfold bind in Hfill |- *.
      destruct (copy_units (Ptr l) 0 b start (e - start + 1) _)
        as [[[] h1]|]; [|discriminate].
      rewrite Hfill. rewrite upd_upd.
      replace (Z.to_nat (e - start + 1)) with len by lia. reflexivity.
Qed.

Lemma trimmed_whole (t ws1 r ws2 : list Z) :
  t = ws1 ++ r ++ ws2 -> all_ws ws1 -> all_ws ws2 -> trimmed t -> r = t.
Proof.
  intros Ht H1 H2 [Hh Hl].
  destruct ws1 as [|u ws1].
  - simpl in Ht. destruct ws2 as [|u ws2] using rev_ind.
    + now rewrite app_nil_r in Ht.
    + exfalso. apply Forall_app in H2 as [_ H2].
      unfold all_ws in H2. rewrite Forall_singleton in H2.
      specialize (Hl u). rewrite Ht, !app_assoc, last_snoc in Hl.
      rewrite Hl in H2; [discriminate|reflexivity].
  - exfalso. apply Forall_cons in H1 as [H1 _].
    specialize (Hh u). rewrite Ht in Hh. simpl in Hh.
    simpl in H1. rewrite Hh in H1; [discriminate|reflexivity].
Qed.

Lemma trimmed_of_ws (ws1 r ws2 : list Z) :
  all_ws (ws1 ++ r ++ ws2) -> trimmed r -> r = [].
Proof.
  intros Hall [Hh _]. destruct r as [|u r]; [reflexivity|].
  exfalso. apply Forall_app in Hall as [_ Hall].
  apply Forall_app in Hall as [Hall _].
  apply Forall_cons in Hall as [Hu _].
  simpl in Hu. rewrite (Hh u) in Hu; [discriminate|reflexivity].
Qed.

Lemma str_trim_present (b : list Z) : exists b', str_trim (Some b) = Some b'.
Proof.
  unfold str_trim.
  destruct (peek b (Z.of_nat (skip_ws b)) =? 0); [eauto|].
  destruct (Z.of_nat (skip_ws b) >? 0); eauto.
Qed.

(** C5.  For every text, the text [r] that [str_trim] leaves in place
    and that [str_trim_n] returns has no whitespace unit at its head nor
    at its end, trimming it again gives [r] again, and [r] is empty when
    the text holds nothing but whitespace.  [r] is the text without a
    run of whitespace at each end.  The whitespace units are the six
    units space, tab, line feed, carriage return, form feed and vertical
    tab, and no other; "  a b  " gives "a b", a text with the five
    other whitespace units around "a b" gives "a b" as well, and the
    text of the six whitespace units gives the empty text. *)
Theorem trim_both_spec (b : list Z) (h : heap) :
  fits b -> grants 1 h ->
  (exists r : list Z,
     units (str_trim (Some b)) = r /\
     yields (str_trim_n (Some b)) h r /\
     trimmed r /\
     units (str_trim (str_trim (Some b))) = r /\
     yields (str_trim_n (Some (r ++ [0]))) h r /\
     (all_ws (content b) -> r = []) /\
     (exists ws1 ws2 : list Z,
        content b = ws1 ++ r ++ ws2 /\ all_ws ws1 /\ all_ws ws2)) /\
  (forall u : Z,
     is_whitespace u = true
     <-> u = 32 \/ u = 9 \/ u = 10 \/ u = 13 \/ u = 12 \/ u = 11) /\
  units (str_trim (Some (lit "  a b  "))) = lit "a b" /\
  text_of (str_trim_n (Some (lit "  a b  "))) (heap0 1) = Some (lit "a b") /\
  units (str_trim (Some [9; 10; 97; 32; 98; 13; 12; 11])) = [97; 32; 98] /\
  text_of (str_trim_n (Some [9; 10; 97; 32; 98; 13; 12; 11])) (heap0 1)
  = Some [97; 32; 98] /\
  units (str_trim (Some [32; 9; 10; 13; 12; 11])) = [] /\
  text_of (str_trim_n (Some [32; 9; 10; 13; 12; 11])) (heap0 1) = Some [].
Proof.
  intros Hb Hg.
  split; [|split; [exact is_whitespace_units
                  |repeat split; vm_compute; reflexivity]].
  destruct (trim_parts b Hb) as (ws1 & r & ws2 & Hparts & H1 & H2 & Hr & Hin & Hn).
  assert (Hnz : nonzero r).
  { pose proof (content_nonzero b) as Hc. rewrite Hparts in Hc.
    apply Forall_app in Hc as [_ Hc]. now apply Forall_app in Hc as [Hc _]. }
  assert (Hle : (length r <= c_scan b)%nat).
  { rewrite <- length_content, Hparts, !length_app. lia. }
  exists r. split; [exact Hin|]. split; [now apply Hn|].
  split; [exact Hr|]. split; [|split; [|split; [|now exists ws1, ws2]]].
  - destruct (str_trim_present b) as [b' Hb']. rewrite Hb' in Hin |- *.
    simpl in Hin.
    assert (Hb'' : fits b').
    { unfold fits in *. rewrite <- length_content, Hin. lia. }
    destruct (trim_parts b' Hb'')
      as (ws1' & r' & ws2' & Hparts' & H1' & H2' & Hr' & Hin' & _).
    rewrite Hin'. rewrite Hin in Hparts'.
    now apply (trimmed_whole r ws1' r' ws2').
  - assert (Hc : content (r ++ [0]) = r) by now apply content_app_nul.
    assert (Hf : fits (r ++ [0])).
    { unfold fits in *. rewrite <- length_content, Hc. lia. }
    destruct (trim_parts (r ++ [0]) Hf)
      as (ws1' & r' & ws2' & Hparts' & H1' & H2' & Hr' & _ & Hn').
    rewrite Hc in Hparts'.
    rewrite <- (trimmed_whole r ws1' r' ws2' Hparts' H1' H2' Hr) at 2.
    now apply Hn'.
  - intros Hall. rewrite Hparts in Hall.
    now apply (trimmed_of_ws ws1 r ws2).
Qed.

Lemma trim_both_spec_witness :
  fits (lit "  a b  ") /\ grants 1 (heap0 1) /\
  (exists r : list Z,
     units (str_trim (Some (lit "  a b  "))) = r /\
     yields (str_trim_n (Some (lit "  a b  "))) (heap0 1) r /\
     trimmed r /\
     units (str_trim (str_trim (Some (lit "  a b  ")))) = r /\
     yields (str_trim_n (Some (r ++ [0]))) (heap0 1) r /\
     (all_ws (content (lit "  a b  ")) -> r = []) /\
     (exists ws1 ws2 : list Z,
        content (lit "  a b  ") = ws1 ++ r ++ ws2 /\
        all_ws ws1 /\ all_ws ws2)) /\
  (forall u : Z,
     is_whitespace u = true
     <-> u = 32 \/ u = 9 \/ u = 10 \/ u = 13 \/ u = 12 \/ u = 11) /\
  units (str_trim (Some (lit "  a b  "))) = lit "a b" /\
  text_of (str_trim_n (Some (lit "  a b  "))) (heap0 1) = Some (lit "a b") /\
  units (str_trim (Some [9; 10; 97; 32; 98; 13; 12; 11])) = [97; 32; 98] /\
  text_of (str_trim_n (Some [9; 10; 97; 32; 98; 13; 12; 11])) (heap0 1)
  = Some [97; 32; 98] /\
  units (str_trim (Some [32; 9; 10; 13; 12; 11])) = [] /\
  text_of (str_trim_n (Some [32; 9; 10; 13; 12; 11])) (heap0 1) = Some [].
Proof.
  assert (Hf : fits (lit "  a b  ")) by (unfold fits, INT_MAX; simpl; lia).
  assert (Hg : grants 1 (heap0 1)) by reflexivity.
  split; [exact Hf|]. split; [exact Hg|].
  exact (trim_both_spec (lit "  a b  ") (heap0 1) Hf Hg).
Defined.

(** Three spaces trim to the empty text, in place and in a new buffer. *)
Example trim_spaces :
  units (str_trim (Some (lit "   "))) = [] /\
  text_of (str_trim_n (Some (lit "   "))) (heap0 1) = Some [].
Proof. split; vm_compute; reflexivity. Qed.

(** ** Substring *)

Lemma substring_in_range (b : list Z) (start length : Z) (h : heap) :
  fits b -> grants 1 h ->
  Z.max 0 start + length <= INT_MAX ->
  yields (str_substring_n (Some b) start length) h
    (substring (content b) start length).
Proof.
  intros Hb Hg Hov. unfold str_substring_n, substring.
  rewrite (str_len_fits _ Hb), length_content. cbv zeta.
  set (n := Z.of_nat (c_scan b)).
  replace (if start <? 0 then 0 else start) with (Z.max 0 start)
    by (destruct (start <? 0) eqn:E; bools; lia).
  set (s := Z.max 0 start) in *.
  unfold fits, INT_MAX in Hb. fold n in Hb. unfold INT_MAX in Hov.
  destruct (s >=? n) eqn:E1; bools.
  { replace (n <=? s) with true by (symmetry; apply Z.leb_le; lia).
    now apply empty_string_ok. }
  replace (n <=? s) with false by (symmetry; apply Z.leb_gt; lia).
  rewrite (to_int_id (n - s)) by (unfold INT_MIN, INT_MAX; lia).
  assert (Hlen :
    (if (length <? 0) || (to_int (s + length) >? n) then n - s else length)
    = (if (length <? 0) || (n <? s + length) then n - s else length)).
  { destruct (length <? 0) eqn:E2; [reflexivity|]. bools. simpl.
    rewrite to_int_id by (unfold INT_MIN, INT_MAX; lia).
    now rewrite Z.gtb_ltb. }
  rewrite Hlen. clear Hlen.
  set (len := if (length <? 0) || (n <? s + length) then n - s else length).
  assert (Hl : 0 <= len <= n - s).
  { subst len. destruct (length <? 0) eqn:E2; simpl; [lia|].
    destruct (n <? s + length) eqn:E3; bools; lia. }
  rewrite to_size_int by (unfold INT_MAX; lia).
  assert (Hsl : slice b s (Z.to_nat len)
                = take (Z.to_nat len) (drop (Z.to_nat s) (content b))).
  { rewrite <- slice_content by lia. f_equal. lia. }
  exists (fresh (dom (blocks h))). split; [apply fresh_free|].
  rewrite <- Hsl.
  split; [|apply c_string_upd;
           replace s with (Z.of_nat (Z.to_nat s)) by lia;
           apply slice_nonzero; lia].
  unfold bind at 1. unfold malloc_chars.
  rewrite malloc_granted; [|assumption|unfold ALLOC_MAX; lia].
  set (l := fresh (dom (blocks h))).
  pose proof (fill_new_block l b s len
    (upd l (Chars (replicate (Z.to_nat (len + 1)) (junk h))) (spend h))
    ltac:(lia) ltac:(now rewrite blocks_upd)) as Hfill.
  unfold bind in Hfill |- *.
  destruct (copy_units (Ptr l) 0 b s len _) as [[[] h1]|]; [|discriminate].
  rewrite Hfill. now rewrite upd_upd.
Qed.

(** The two scenarios that the specification lists, run on the code. *)
Example substring_scenarios :
  text_of (str_substring_n (Some (lit "abcdef")) (-3) 4) (heap0 1)
  = Some (lit "abcd") /\
  text_of (str_substring_n (Some (lit "abcdef")) 10 2) (heap0 1)
  = Some (lit "").
Proof. split; vm_compute; reflexivity. Qed.

(** C6.  On "abcdef" with start 1 and length [INT_MAX] the sum
    [start + length] wraps around below 0, so the test that clamps a
    length running past the end does not fire, the request for
    [length + 1] bytes wraps to more than any allocator grants, and
    [str_substring_n] returns NULL whatever the heap; the substring the
    claim describes there is "bcdef". *)
Theorem substring_length_overflow (h : heap) :
  str_substring_n (Some (lit "abcdef")) 1 INT_MAX h = Some (NULL, spend h) /\
  substring (lit "abcdef") 1 INT_MAX = lit "bcdef".
Proof.
  split; [|reflexivity].
  unfold str_substring_n.
  replace (str_len (Some (lit "abcdef"))) with 6 by reflexivity.
  cbv zeta.
  replace (1 <? 0) with false by reflexivity.
  replace (1 >=? 6) with false by reflexivity.
  replace ((INT_MAX <? 0) || (to_int (1 + INT_MAX) >? 6)) with false
    by reflexivity.
  replace (to_size (to_int (INT_MAX + 1))) with 18446744071562067968
    by reflexivity.
  unfold bind, malloc_chars. rewrite malloc_too_large; [reflexivity|].
  unfold ALLOC_MAX. lia.
Qed.

(** ** Repetition *)

Lemma repeat_loop_ok (l : loc) (b : list Z) (todo : nat) :
  forall (dest : Z) (pre mid post : list Z) (h : heap),
    blocks h !! l = Some (Chars (pre ++ mid ++ post)) ->
    dest = Z.of_nat (length pre) ->
    length mid = (todo * c_scan b)%nat ->
    repeat_loop todo b (Z.of_nat (c_scan b)) (Ptr l) dest h
    = Some (dest + Z.of_nat (todo * c_scan b),
            upd l (Chars (pre ++ repeated (content b) todo ++ post)) h).
Proof.
  induction todo as [|todo IH]; intros dest pre mid post h Hl Hd Hm.
  - destruct mid; [|discriminate]. simpl.
    rewrite upd_same by assumption. unfold ret. do 2 f_equal. lia.
  - simpl repeat_loop. unfold bind, copy_units. rewrite Nat2Z.id.
    simpl in Hm.
    assert (Hmid : mid = take (c_scan b) mid ++ drop (c_scan b) mid)
      by now rewrite take_drop.
    rewrite Hmid, <- app_assoc in Hl.
    rewrite (copy_loop_ok l b dest 0 (c_scan b) 0 pre
               (take (c_scan b) mid) (drop (c_scan b) mid ++ post) h Hl);
      [|lia|rewrite length_take; lia].
    simpl Z.add. rewrite slice_whole.
    rewrite (IH (dest + Z.of_nat (c_scan b)) (pre ++ content b)
               (drop (c_scan b) mid) post).
    + rewrite upd_upd. unfold repeated. simpl.
      rewrite <- !app_assoc. do 2 f_equal. lia.
    + rewrite blocks_upd. now rewrite <- app_assoc.
    + rewrite length_app, length_content. lia.
    + rewrite length_drop. lia.
Qed.

Lemma nonzero_repeated (t : list Z) (times : nat) :
  nonzero t -> nonzero (repeated t times).
Proof.
  intros Ht. unfold repeated.
  induction times as [|times IH]; simpl; [constructor|].
  now apply Forall_app.
Qed.

Lemma length_repeated (t : list Z) (times : nat) :
  length (repeated t times) = (times * length t)%nat.
Proof.
  unfold repeated. induction times as [|times IH]; simpl; [reflexivity|].
  rewrite length_app. lia.
Qed.

(** What [str_repeat_n] does within the reach of [int].  For every
    present text and every count, when the allocation is granted:
    [str_repeat_n] returns an empty buffer when the count is at most 0
    or the text is empty; otherwise, when length times count stays below
    [INT_MAX], it returns the text repeated count times, of length count
    times the length of the text. *)
Theorem str_repeat_n_spec (b : list Z) (times : Z) (h : heap) :
  fits b -> grants 1 h ->
  (times <= 0 \/ content b = [] ->
   yields (str_repeat_n (Some b) times) h []) /\
  (0 < times -> content b <> [] ->
   Z.of_nat (length (content b)) * times < INT_MAX ->
   yields (str_repeat_n (Some b) times) h
     (repeated (content b) (Z.to_nat times)) /\
   Z.of_nat (length (repeated (content b) (Z.to_nat times)))
   = times * Z.of_nat (length (content b))).
Proof.
  intros Hb Hg. unfold str_repeat_n. rewrite (str_len_fits _ Hb).
  split.
  - intros Hcase. destruct (times <=? 0) eqn:E1;
      [now apply empty_string_ok|].
    destruct Hcase as [Ht|Hc]; [bools; lia|].
    apply (f_equal length) in Hc. rewrite length_content in Hc.
    simpl in Hc. rewrite Hc. simpl. now apply empty_string_ok.
  - intros Ht Hc Hov. rewrite length_content in Hov.
    split; [|rewrite length_repeated; lia].
    destruct (times <=? 0) eqn:E1; [bools; lia|].
    assert (Hn : c_scan b <> 0%nat).
    { intros H0. apply Hc. apply length_zero_iff_nil.
      now rewrite length_content. }
    destruct (Z.of_nat (c_scan b) =? 0) eqn:E2; [bools; lia|].
    unfold INT_MAX in Hov.
    rewrite (to_int_id (Z.of_nat (c_scan b) * times))
      by (unfold INT_MIN, INT_MAX; nia).
    rewrite to_size_int by (unfold INT_MAX; nia).
    pose proof (content_nonzero b) as Hnz.
    exists (fresh (dom (blocks h))). split; [apply fresh_free|].
    split; [|apply c_string_upd; now apply nonzero_repeated].
    unfold bind at 1. unfold malloc_chars.
    rewrite malloc_granted; [|assumption|unfold ALLOC_MAX; nia].
    set (l := fresh (dom (blocks h))).
    replace (Z.to_nat (Z.of_nat (c_scan b) * times + 1))
      with (Z.to_nat times * c_scan b + 1)%nat by nia.
    rewrite replicate_add. simpl replicate.
    unfold bind.
    rewrite (repeat_loop_ok l b (Z.to_nat times) 0 []
               (replicate (Z.to_nat times * c_scan b) (junk h)) [junk h]);
      [|now rewrite blocks_upd|reflexivity|now rewrite length_replicate].
    rewrite upd_upd. simpl app.
    rewrite (store_char_mid l (repeated (content b) (Z.to_nat times)) []
               (junk h));
      [|now rewrite blocks_upd
       |rewrite length_repeated, length_content; lia].
    now rewrite upd_upd.
Qed.

Lemma str_repeat_n_spec_witness :
  fits (lit "ab") /\ grants 1 (heap0 1) /\
  (3 <= 0 \/ content (lit "ab") = [] ->
   yields (str_repeat_n (Some (lit "ab")) 3) (heap0 1) []) /\
  (0 < 3 -> content (lit "ab") <> [] ->
   Z.of_nat (length (content (lit "ab"))) * 3 < INT_MAX ->
   yields (str_repeat_n (Some (lit "ab")) 3) (heap0 1)
     (repeated (content (lit "ab")) (Z.to_nat 3)) /\
   Z.of_nat (length (repeated (content (lit "ab")) (Z.to_nat 3)))
   = 3 * Z.of_nat (length (content (lit "ab")))).
Proof.
  assert (Hf : fits (lit "ab")) by (unfold fits, INT_MAX; simpl; lia).
  assert (Hg : grants 1 (heap0 1)) by reflexivity.
  split; [exact Hf|]. split; [exact Hg|].
  exact (str_repeat_n_spec (lit "ab") 3 (heap0 1) Hf Hg).
Defined.

(** The product [len * times] is an [int]: with "ab" and 2^30 it wraps
    to [INT_MIN], and the request that follows is refused. *)
Example str_repeat_n_overflow (h : heap) :
  str_repeat_n (Some (lit "ab")) 1073741824 h = Some (NULL, spend h).
Proof.
  unfold str_repeat_n.
  replace (1073741824 <=? 0) with false by reflexivity.
  replace (str_len (Some (lit "ab"))) with 2 by reflexivity.
  replace (2 =? 0) with false by reflexivity.
  replace (to_size (to_int (to_int (2 * 1073741824) + 1)))
    with 18446744071562067969 by reflexivity.
  unfold bind, malloc_chars. rewrite malloc_too_large; [reflexivity|].
  unfold ALLOC_MAX. lia.
Qed.

(** When the wrapped product is small the request is granted and the
    copy runs past the block: with "abc" and 1431655766 the product
    wraps to 2, the block has 3 cells, and the second round faults. *)
Example str_repeat_n_overrun :
  str_repeat_n (Some (lit "abc")) 1431655766 (heap0 1) = None.
Proof.
  unfold str_repeat_n.
  replace (1431655766 <=? 0) with false by reflexivity.
  replace (str_len (Some (lit "abc"))) with 3 by reflexivity.
  replace (3 =? 0) with false by reflexivity.
  replace (to_size (to_int (to_int (3 * 1431655766) + 1))) with 3
    by reflexivity.
  replace (Z.to_nat 1431655766) with (S (S (Z.to_nat 1431655764))) by lia.
  generalize (Z.to_nat 1431655764). intros rounds.
  vm_compute. reflexivity.
Qed.

(** C7.  [str_repeat_n] computes the length of its result, [len * times],
    as an [int].  The text "ab" is present and not empty and the count
    2^30 is positive, so the result is to be "ab" repeated 2^30 times,
    2^31 units long; the product wraps to [INT_MIN], the request made
    with it is one no allocator grants, and [str_repeat_n] returns NULL
    whatever the allocator would answer.  With "abc" and 1431655766 the
    result is to be 4294967298 units long; the product wraps to 2, a
    block of 3 cells is granted, and the second round of the copy
    writes past its end. *)
Theorem str_repeat_n_product_overflow (h : heap) :
  (0 < 1073741824 /\ content (lit "ab") <> [] /\
   Z.of_nat (length (repeated (content (lit "ab")) (Z.to_nat 1073741824)))
   = 2147483648 /\
   to_int (str_len (Some (lit "ab")) * 1073741824) = INT_MIN /\
   str_repeat_n (Some (lit "ab")) 1073741824 h = Some (NULL, spend h)) /\
  (0 < 1431655766 /\ content (lit "abc") <> [] /\
   Z.of_nat (length (repeated (content (lit "abc")) (Z.to_nat 1431655766)))
   = 4294967298 /\
   to_int (str_len (Some (lit "abc")) * 1431655766) = 2 /\
   grants 1 (heap0 1) /\
   str_repeat_n (Some (lit "abc")) 1431655766 (heap0 1) = None).
Proof.
  split.
  - split; [lia|]. split; [discriminate|]. split.
    { rewrite length_repeated.
      change (length (content (lit "ab"))) with 2%nat. lia. }
    split; [reflexivity | apply str_repeat_n_overflow].
  - split; [lia|]. split; [discriminate|]. split.
    { rewrite length_repeated.
      change (length (content (lit "abc"))) with 3%nat. lia. }
    split; [reflexivity|]. split; [reflexivity | apply str_repeat_n_overrun].
Qed.

(** ** Splitting *)

Lemma length_fields_from (cur : list Z) (d : Z) (t : list Z) :
  length (fields_from cur d t) = S (occurrences d t).
Proof.
  revert cur. induction t as [|u t IH]; intros cur; simpl; [reflexivity|].
  destruct (u =? d); simpl; now rewrite IH.
Qed.

Lemma glue_cons (sep : Z) (t : list Z) (ts : list (list Z)) :
  ts <> [] -> glue sep (t :: ts) = t ++ sep :: glue sep ts.
Proof. destruct ts; [contradiction|reflexivity]. Qed.

Lemma fields_from_nonempty (cur : list Z) (d : Z) (t : list Z) :
  fields_from cur d t <> [].
Proof.
  intros H. apply (f_equal length) in H.
  rewrite length_fields_from in H. discriminate.
Qed.

Lemma glue_fields_from (cur : list Z) (d : Z) (t : list Z) :
  glue d (fields_from cur d t) = cur ++ t.
Proof.
  revert cur. induction t as [|u t IH]; intros cur; simpl fields_from.
  - simpl. now rewrite app_nil_r.
  - destruct (u =? d) eqn:E; bools.
    + rewrite glue_cons by apply fields_from_nonempty.
      rewrite IH. now subst u.
    + rewrite IH. now rewrite <- app_assoc.
Qed.

Lemma fields_from_none (cur : list Z) (d : Z) (t : list Z) :
  occurrences d t = 0%nat -> fields_from cur d t = [cur ++ t].
Proof.
  revert cur. induction t as [|u t IH]; intros cur; simpl.
  - intros _. now rewrite app_nil_r.
  - destruct (u =? d); [discriminate|].
    intros H. rewrite IH by assumption. now rewrite <- app_assoc.
Qed.

Lemma fields_from_snoc (cur : list Z) (d : Z) (t : list Z) :
  fields_from cur d (t ++ [d]) = fields_from cur d t ++ [[]].
Proof.
  revert cur. induction t as [|u t IH]; intros cur; simpl.
  - now rewrite Z.eqb_refl.
  - destruct (u =? d); now rewrite IH.
Qed.

Lemma fields_from_nonzero (cur : list Z) (d : Z) (t : list Z) :
  nonzero cur -> nonzero t -> Forall nonzero (fields_from cur d t).
Proof.
  intros Hc Ht. revert cur Hc.
  induction Ht as [|u t Hu _ IH]; intros cur Hc; simpl.
  - now constructor.
  - destruct (u =? d).
    + constructor; [assumption|]. apply IH. constructor.
    + apply IH. apply Forall_app. split; [assumption|]. now constructor.
Qed.

Lemma length_glue_fields (cur : list Z) (d : Z) (t : list Z) :
  length (glue d (fields_from cur d t)) = (length cur + length t)%nat.
Proof. now rewrite glue_fields_from, length_app. Qed.

Lemma occurrences_le (d : Z) (t : list Z) :
  (occurrences d t <= length t)%nat.
Proof.
  induction t as [|u t IH]; simpl; [lia|]. destruct (u =? d); lia.
Qed.

(** The first pass counts the occurrences. *)
Lemma count_loop_ok (d : Z) (p : list Z) (token_count : Z) :
  0 <= token_count ->
  token_count + Z.of_nat (c_scan p) <= INT_MAX ->
  count_loop d p token_count
  = token_count + Z.of_nat (occurrences d (content p)).
Proof.
  revert token_count. induction p as [|c p IH]; intros tc H0 Hov.
  - simpl. lia.
  - simpl count_loop. rewrite content_cons. simpl c_scan in Hov.
    destruct (c =? 0) eqn:E0; [simpl; lia|].
    pose proof (occurrences_le d (content p)) as Hle.
    rewrite length_content in Hle.
    simpl occurrences. destruct (c =? d) eqn:E1.
    + rewrite to_int_id by (unfold INT_MIN; lia).
      rewrite IH by lia. lia.
    + rewrite IH by lia. lia.
Qed.

(** ** The heap under a token array *)

Lemma grants_0 (h : heap) : grants 0 h.
Proof. reflexivity. Qed.

Lemma grants_S_iff (n : nat) (h : heap) :
  grants (S n) h <-> grants 1 h /\ grants n (spend h).
Proof.
  unfold grants, spend. simpl budget.
  destruct (budget h) as [|g later]; simpl.
  - split; [discriminate|intros [H _]; discriminate].
  - rewrite take_0. split.
    + intros [= -> H]. split; [reflexivity|assumption].
    + intros [[= ->] H]. now rewrite H.
Qed.

Lemma not_grants_1 (f : heap -> block) (size : Z) (h : heap) :
  ~ grants 1 h -> malloc f size h = Some (NULL, spend h).
Proof.
  intros Hg. unfold malloc, spend, grants in *.
  destruct (budget h) as [|g later] eqn:Hb; simpl in *.
  - rewrite <- Hb. now rewrite heap_eta.
  - rewrite take_0 in Hg. destruct g; [contradiction|reflexivity].
Qed.

Lemma blocks_spend (h : heap) : blocks (spend h) = blocks h.
Proof. reflexivity. Qed.

Lemma token_heap_spend (h hc : heap) (l : loc) (ls : list loc)
    (ts : list (list Z)) (rest : list (option ptr)) :
  token_heap h hc l ls ts rest -> token_heap h (spend hc) l ls ts rest.
Proof. intros H. exact H. Qed.

Lemma store_slot_mid (l : loc) (pre post : list (option ptr))
    (x : option ptr) (i : Z) (q : ptr) (h : heap) :
  blocks h !! l = Some (Slots (pre ++ x :: post)) ->
  i = Z.of_nat (length pre) ->
  store_slot (Ptr l) i q h
  = Some (tt, upd l (Slots (pre ++ Some q :: post)) h).
Proof.
  intros Hl ->. unfold store_slot. rewrite Hl.
  destruct (0 <=? Z.of_nat (length pre)) eqn:E1; [|bools; lia].
  rewrite length_app. simpl length.
  destruct (Z.of_nat (length pre) <? Z.of_nat (length pre + S (length post)))
    eqn:E2; [|bools; lia].
  simpl. rewrite Nat2Z.id.
  replace (length pre) with (length pre + 0)%nat at 1 by lia.
  now rewrite insert_app_r.
Qed.

(** One token more: the block [l'] is new, holds [t], and slot
    [length ls] points to it. *)
Lemma token_heap_snoc (h hc : heap) (l l' : loc) (ls : list loc)
    (ts : list (list Z)) (t : list Z) (x : option ptr)
    (rest : list (option ptr)) :
  token_heap h hc l ls ts (x :: rest) ->
  blocks hc !! l' = None ->
  token_heap h
    (upd l (Slots (map (fun l' => Some (Ptr l')) ls ++ Some (Ptr l') :: rest))
       (upd l' (Chars (t ++ [0])) hc))
    l (ls ++ [l']) (ts ++ [t]) rest.
Proof.
  intros (Hnd & Hnew & Hl & Hts & Hframe & Hj) Hl'.
  assert (Hne : l <> l') by (intros ->; rewrite Hl in Hl'; discriminate).
  assert (Hnotin : l' ∉ ls).
  { intros Hin. rewrite Forall2_lookup in Hts.
    apply list_elem_of_lookup in Hin as [i Hi].
    specialize (Hts i). rewrite Hi in Hts. inversion Hts as [? ? Hb|].
    rewrite Hl' in Hb. discriminate. }
  assert (Hh : blocks h !! l' = None).
  { rewrite <- Hframe; [assumption|].
    rewrite elem_of_cons. intros [->|Hin]; [now apply Hne|now apply Hnotin]. }
  unfold token_heap. split; [|split; [|split; [|split; [|split]]]].
  - apply NoDup_cons in Hnd as [Hl0 Hnd]. apply NoDup_cons. split.
    + rewrite elem_of_app, list_elem_of_singleton. intros [H|H]; [auto|subst; auto].
    + apply NoDup_app. split; [assumption|]. split; [|apply NoDup_singleton].
      intros y Hy Hy'. apply list_elem_of_singleton in Hy'. now subst y.
  - intros y Hy. rewrite elem_of_cons, elem_of_app, list_elem_of_singleton in Hy.
    destruct Hy as [->|[Hy| ->]].
    + apply Hnew. now left.
    + apply Hnew. now right.
    + assumption.
  - rewrite blocks_upd. rewrite map_app, <- app_assoc. reflexivity.
  - apply Forall2_app.
    + eapply Forall2_impl; [exact Hts|]. intros y t' Hy. cbv beta in Hy |- *.
      destruct (decide (y = l)) as [->|Hyl];
        [rewrite Hl in Hy; discriminate|].
      destruct (decide (y = l')) as [->|Hyl'];
        [rewrite Hl' in Hy; discriminate|].
      rewrite blocks_upd_ne by auto. now rewrite blocks_upd_ne by auto.
    + constructor; [|constructor].
      rewrite blocks_upd_ne by auto. apply blocks_upd.
  - intros y Hy. rewrite elem_of_cons, elem_of_app, list_elem_of_singleton in Hy.
    rewrite blocks_upd_ne by (intros ->; apply Hy; now left).
    rewrite blocks_upd_ne by (intros ->; apply Hy; right; now right).
    apply Hframe. rewrite elem_of_cons. intros [->|Hin]; apply Hy; auto.
  - exact Hj.
Qed.

Lemma copy_units_new (l : loc) (src : list Z) (s n : Z) (h : heap) :
  0 <= n ->
  blocks h !! l = Some (Chars (replicate (Z.to_nat (n + 1)) (junk h))) ->
  copy_units (Ptr l) 0 src s n h
  = Some (tt, upd l (Chars (slice src s (Z.to_nat n) ++ [junk h])) h).
Proof.
  intros Hn Hl.
  replace (Z.to_nat (n + 1)) with (Z.to_nat n + 1)%nat in Hl by lia.
  rewrite replicate_add in Hl. simpl replicate in Hl.
  unfold copy_units.
  rewrite (copy_loop_ok l src 0 s (Z.to_nat n) 0 []
             (replicate (Z.to_nat n) (junk h)) [junk h]);
    [|exact Hl|reflexivity|now rewrite length_replicate].
  simpl app. now rewrite Z.add_0_r.
Qed.

Lemma token_heap_rest (h hc : heap) (l : loc) (ls : list loc)
    (ts : list (list Z)) (rest rest' : list (option ptr)) :
  token_heap h hc l ls ts rest ->
  token_heap h
    (upd l (Slots (map (fun l' => Some (Ptr l')) ls ++ rest')) hc)
    l ls ts rest'.
Proof.
  intros (Hnd & Hnew & Hl & Hts & Hframe & Hj).
  unfold token_heap. split; [assumption|]. split; [assumption|].
  split; [apply blocks_upd|]. split; [|split; [|assumption]].
  - eapply Forall2_impl; [exact Hts|]. intros y t' Hy. cbv beta in Hy |- *.
    destruct (decide (y = l)) as [->|Hyl];
      [rewrite Hl in Hy; discriminate|].
    now rewrite blocks_upd_ne by auto.
  - intros y Hy. rewrite blocks_upd_ne by (intros ->; apply Hy; now left).
    now apply Hframe.
Qed.

(** *** One step of the second pass *)

Lemma emit_token_refused (b : list Z) (token_start ptr_ : Z) (result : ptr)
    (result_ptr : Z) (hc : heap) :
  ~ grants 1 hc ->
  emit_token b token_start ptr_ result result_ptr hc = Some (false, spend hc).
Proof.
  intros Hg. unfold emit_token, bind, malloc_chars.
  now rewrite not_grants_1.
Qed.

Lemma emit_token_granted (h hc : heap) (l : loc) (ls : list loc)
    (ts : list (list Z)) (x : option ptr) (rest : list (option ptr))
    (b : list Z) (s k : nat) :
  token_heap h hc l ls ts (x :: rest) ->
  fits b -> (s + k <= c_scan b)%nat -> grants 1 hc ->
  exists hc' l',
    emit_token b (Z.of_nat s) (Z.of_nat (s + k)) (Ptr l)
      (Z.of_nat (length ls)) hc = Some (true, hc') /\
    token_heap h hc' l (ls ++ [l']) (ts ++ [slice b (Z.of_nat s) k]) rest /\
    budget hc' = budget (spend hc).
Proof.
  intros Hth Hb Hsk Hg.
  set (l' := fresh (dom (blocks hc))).
  assert (Hl' : blocks hc !! l' = None) by apply fresh_free.
  pose proof Hth as (_ & _ & Hl & _ & _ & _).
  assert (Hne : l <> l') by (intros ->; rewrite Hl in Hl'; discriminate).
  eexists _, l'. split; [|split].
  - unfold emit_token. unfold fits, INT_MAX in Hb.
    replace (Z.of_nat (s + k) - Z.of_nat s) with (Z.of_nat k) by lia.
    rewrite (to_int_id (Z.of_nat k)) by (unfold INT_MIN, INT_MAX; lia).
    rewrite to_size_int by (unfold INT_MAX; lia).
    unfold bind at 1. unfold malloc_chars.
    rewrite malloc_granted; [|assumption|unfold ALLOC_MAX; lia].
    fold l'. unfold bind at 1.
    rewrite copy_units_new; [|lia|now rewrite blocks_upd].
    rewrite upd_upd. unfold bind at 1. rewrite Nat2Z.id.
    erewrite (store_char_mid l' (slice b (Z.of_nat s) k) []);
      [|now rewrite blocks_upd|now rewrite length_slice].
    rewrite upd_upd. unfold bind at 1.
    rewrite (store_slot_mid l (map (fun l' => Some (Ptr l')) ls) rest x);
      [|rewrite blocks_upd_ne by auto; exact Hl|now rewrite length_map].
    reflexivity.
  - apply (token_heap_snoc h (spend hc) l l' ls ts _ x rest); assumption.
  - reflexivity.
Qed.

Lemma drop_cons_lookup (b p : list Z) (c : Z) (pos : nat) :
  c :: p = drop pos b -> b !! pos = Some c /\ p = drop (S pos) b.
Proof.
  intros H. split.
  - rewrite <- (Nat.add_0_r pos), <- lookup_drop, <- H. reflexivity.
  - replace (S pos) with (pos + 1)%nat by lia.
    rewrite <- drop_drop, <- H. reflexivity.
Qed.

Lemma slice_snoc (b : list Z) (s : Z) (n : nat) :
  slice b s (S n) = slice b s n ++ [peek b (s + Z.of_nat n)].
Proof.
  replace (S n) with (n + 1)%nat by lia. rewrite slice_app. f_equal.
  unfold slice. simpl. now rewrite Z.add_0_r.
Qed.

(** *** The second pass *)

(** At the terminator the loop emits the last token and leaves. *)
Lemma split_loop_at_nul (b : list Z) (d : Z) (p : list Z)
    (ptr_ token_start : Z) (result : ptr) (result_ptr : Z) :
  hd 0 p = 0 ->
  split_loop b d p ptr_ token_start result result_ptr
  = (ok <- emit_token b token_start ptr_ result result_ptr ;;
     if negb ok then ret (false, result_ptr)
     else ret (true, result_ptr + 1)).
Proof.
  intros Hp. destruct p as [|c p]; simpl in *.
  - now rewrite orb_true_r.
  - subst c. simpl. now rewrite orb_true_r.
Qed.

(** At a delimiter the loop emits a token and goes on after it. *)
Lemma split_loop_at_delimiter (b : list Z) (d c : Z) (p : list Z)
    (ptr_ token_start : Z) (result : ptr) (result_ptr : Z) :
  c <> 0 -> c = d ->
  split_loop b d (c :: p) ptr_ token_start result result_ptr
  = (ok <- emit_token b token_start ptr_ result result_ptr ;;
     if negb ok then ret (false, result_ptr)
     else split_loop b d p (ptr_ + 1) (ptr_ + 1) result (result_ptr + 1)).
Proof.
  intros Hc ->. simpl. rewrite Z.eqb_refl. simpl.
  destruct (d =? 0) eqn:E; [bools; contradiction|]. reflexivity.
Qed.

(** Elsewhere the loop steps over the unit. *)
Lemma split_loop_at_unit (b : list Z) (d c : Z) (p : list Z)
    (ptr_ token_start : Z) (result : ptr) (result_ptr : Z) :
  c <> 0 -> c <> d ->
  split_loop b d (c :: p) ptr_ token_start result result_ptr
  = split_loop b d p (ptr_ + 1) token_start result result_ptr.
Proof.
  intros Hc Hd. simpl.
  destruct (c =? d) eqn:E1; [bools; contradiction|].
  destruct (c =? 0) eqn:E2; [bools; contradiction|]. reflexivity.
Qed.

Lemma budget_drop_1 (h : heap) : budget (spend h) = drop 1 (budget h).
Proof. unfold spend. simpl. now destruct (budget h). Qed.

(** The second pass on the text [b], for the array at [l] set up on top
    of the heap [h].  From any cell on it emits the tokens still to
    come, or stops at the first request refused, and in both cases
    leaves a token array that holds what it built. *)
Section SecondPass.

Variables (h : heap) (l : loc) (b : list Z) (d : Z).
Hypothesis b_fits : fits b.

Lemma split_loop_ok :
  forall (p : list Z) (pos s : nat) (ls : list loc) (ts : list (list Z))
         (rest : list (option ptr)) (hc : heap),
    p = drop pos b -> (s <= pos <= c_scan b)%nat ->
    let toks := fields_from (slice b (Z.of_nat s) (pos - s)) d (content p) in
    token_heap h hc l ls ts (replicate (length toks) None ++ rest) ->
    exists (hc' : heap) (ls' : list loc) (ts' : list (list Z))
           (success : bool) (rest' : list (option ptr)),
      split_loop b d p (Z.of_nat pos) (Z.of_nat s) (Ptr l)
        (Z.of_nat (length ls)) hc
      = Some ((success, Z.of_nat (length (ls ++ ls'))), hc') /\
      token_heap h hc' l (ls ++ ls') (ts ++ ts') rest' /\
      (grants (length toks) hc ->
       success = true /\ ts' = toks /\ rest' = rest /\
       budget hc' = drop (length toks) (budget hc)) /\
      (~ grants (length toks) hc -> success = false).
Proof.
  pose proof b_fits as Hb.
  intros p. induction p as [|c p IH];
    intros pos s ls ts rest hc Hp Hpos toks Hth.
  1: assert (Hnul : hd 0 (@nil Z) = 0 /\ content (@nil Z) = [])
       by (split; reflexivity).
  2: destruct (c =? 0) eqn:E0.
  2: assert (Hnul : hd 0 (c :: p) = 0 /\ content (c :: p) = [])
       by (rewrite content_cons, E0; bools; split; [assumption|reflexivity]).
  1, 2: destruct Hnul as [Hhd Hcont]; subst toks; rewrite Hcont in *;
        simpl fields_from in *; simpl length in *;
        simpl replicate in Hth; simpl app in Hth;
        rewrite (split_loop_at_nul _ _ _ _ _ _ _ Hhd); unfold bind;
        destruct (decide (grants 1 hc)) as [Hg|Hg].
  1, 3: destruct (emit_token_granted h hc l ls ts None rest b s (pos - s)
                    Hth Hb ltac:(lia) Hg) as (hc' & l' & He & Hth' & Hbud);
        replace (Z.of_nat (s + (pos - s))) with (Z.of_nat pos) in He by lia;
        rewrite He; simpl;
        exists hc', [l'], [slice b (Z.of_nat s) (pos - s)], true, rest;
        (split; [unfold ret; do 3 f_equal; rewrite length_app; simpl; lia|]);
        (split; [exact Hth'|]); (split; [|contradiction]);
        intros _; (split; [reflexivity|]); (split; [reflexivity|]);
        (split; [reflexivity|]); rewrite Hbud; apply budget_drop_1.
  1, 2: rewrite emit_token_refused by assumption; simpl;
        exists (spend hc), [], [], false, (None :: rest);
        rewrite !app_nil_r; (split; [reflexivity|]);
        (split; [exact Hth|]); (split; [contradiction|reflexivity]).
  apply drop_cons_lookup in Hp as [Hc Hp].
  apply peek_lookup in Hc. bools.
  assert (Hlt : (pos < c_scan b)%nat).
  { destruct (decide (pos = c_scan b)) as [->|]; [|lia].
    rewrite peek_scan in Hc. congruence. }
  subst toks. rewrite content_cons in *.
  destruct (c =? 0) eqn:E0'; [bools; contradiction|]. clear E0'.
  simpl fields_from in *.
  destruct (c =? d) eqn:E1; bools.
  - (* a delimiter *)
    simpl length in *. simpl replicate in Hth. simpl app in Hth.
    rewrite (split_loop_at_delimiter _ _ _ _ _ _ _ _ E0 E1). unfold bind.
    destruct (decide (grants 1 hc)) as [Hg|Hg].
    + destruct (emit_token_granted h hc l ls ts None _ b s (pos - s)
                  Hth Hb ltac:(lia) Hg) as (hc1 & l' & He & Hth' & Hbud).
      replace (Z.of_nat (s + (pos - s))) with (Z.of_nat pos) in He by lia.
      rewrite He. simpl negb. cbv iota.
      replace (Z.of_nat (length ls) + 1)
        with (Z.of_nat (length (ls ++ [l'])))
        by (rewrite length_app; simpl; lia).
      replace (Z.of_nat pos + 1) with (Z.of_nat (S pos)) by lia.
      destruct (IH (S pos) (S pos) (ls ++ [l'])
                  (ts ++ [slice b (Z.of_nat s) (pos - s)]) rest hc1
                  Hp ltac:(lia))
        as (hc' & ls' & ts' & success & rest' & Hrun & Hth'' & Hok & Hko).
      { replace (S pos - S pos)%nat with 0%nat by lia. exact Hth'. }
      replace (S pos - S pos)%nat with 0%nat in * by lia.
      change (slice b (Z.of_nat (S pos)) 0) with (@nil Z) in *.
      change (negb true) with false. cbv iota.
      rewrite Hrun.
      exists hc', (l' :: ls'), (slice b (Z.of_nat s) (pos - s) :: ts'),
        success, rest'.
      rewrite <- !app_assoc in Hth''. rewrite <- ?app_assoc.
      simpl app in Hth'' |- *.
      split; [reflexivity|]. split; [exact Hth''|].
      assert (Hiff : grants (length (fields_from [] d (content p))) hc1
                     <-> grants (S (length (fields_from [] d (content p))))
                           hc).
      { rewrite grants_S_iff. unfold grants at 1 3. rewrite Hbud. tauto. }
      split.
      * intros Hall. apply Hiff in Hall.
        destruct (Hok Hall) as (-> & -> & -> & Hbud').
        repeat split. rewrite Hbud', Hbud, budget_drop_1.
        now rewrite drop_drop.
      * intros Hnot. apply Hko. now rewrite Hiff.
    + rewrite emit_token_refused by assumption. simpl.
      exists (spend hc), [], [], false,
        (None :: replicate (length (fields_from [] d (content p))) None
           ++ rest).
      rewrite !app_nil_r. split; [reflexivity|].
      split; [exact Hth|]. split.
      * intros Hall. apply grants_S_iff in Hall as [Hall _]. contradiction.
      * reflexivity.
  - (* a unit of the token under way *)
    rewrite (split_loop_at_unit _ _ _ _ _ _ _ _ E0 E1).
    replace (Z.of_nat pos + 1) with (Z.of_nat (S pos)) by lia.
    assert (Hcur : slice b (Z.of_nat s) (pos - s) ++ [c]
                   = slice b (Z.of_nat s) (S pos - s)).
    { replace (S pos - s)%nat with (S (pos - s)) by lia.
      rewrite slice_snoc. do 2 f_equal. rewrite <- Hc. f_equal. lia. }
    rewrite Hcur in Hth |- *.
    apply (IH (S pos) s ls ts rest hc Hp ltac:(lia) Hth).
Qed.

End SecondPass.

(** *** Releasing the tokens *)

Lemma free_loop_ok (l : loc) (rest : list (option ptr)) (todo : list loc) :
  forall (done : list loc) (hc : heap),
    blocks hc !! l
    = Some (Slots (map (fun l' => Some (Ptr l')) (done ++ todo) ++ rest)) ->
    l ∉ todo -> NoDup todo ->
    (forall y, y ∈ todo -> is_Some (blocks hc !! y)) ->
    exists hc',
      free_loop (length todo) (Ptr l) (Z.of_nat (length done)) hc
      = Some (tt, hc') /\
      budget hc' = budget hc /\
      (forall y, y ∈ todo -> blocks hc' !! y = None) /\
      (forall y, y ∉ todo -> blocks hc' !! y = blocks hc !! y).
Proof.
  induction todo as [|a todo IH]; intros done hc Hl Hnotin Hnd Hlive.
  - exists hc. split; [reflexivity|]. split; [reflexivity|].
    split; [intros y Hy; now apply elem_of_nil in Hy|reflexivity].
  - simpl free_loop. unfold bind at 1. unfold load_slot. rewrite Hl.
    destruct (0 <=? Z.of_nat (length done)) eqn:E; [|bools; lia].
    rewrite Nat2Z.id.
    rewrite lookup_app_l
      by (rewrite length_map, length_app; simpl; lia).
    rewrite list_lookup_fmap, lookup_app_r by lia.
    rewrite Nat.sub_diag. simpl.
    unfold bind at 1. unfold free.
    destruct (Hlive a ltac:(now left)) as [blk Ha]. rewrite Ha.
    apply NoDup_cons in Hnd as [Ha' Hnd].
    rewrite not_elem_of_cons in Hnotin. destruct Hnotin as [Hla Hnotin].
    set (hc1 := Heap (delete a (blocks hc)) (budget hc) (junk hc)).
    destruct (IH (done ++ [a]) hc1) as (hc' & Hrun & Hbud & Hgone & Hkeep).
    + subst hc1. simpl. rewrite lookup_delete_ne by auto.
      rewrite Hl. now rewrite <- app_assoc.
    + assumption.
    + assumption.
    + intros y Hy. subst hc1. simpl.
      rewrite lookup_delete_ne by (intros ->; contradiction).
      apply Hlive. now right.
    + rewrite length_app in Hrun. simpl in Hrun.
      replace (Z.of_nat (length done) + 1)
        with (Z.of_nat (length done + 1)) by lia.
      rewrite Hrun. exists hc'. split; [reflexivity|].
      split; [exact Hbud|]. split.
      * intros y Hy. apply elem_of_cons in Hy as [->|Hy].
        -- rewrite Hkeep by assumption. subst hc1. simpl.
           apply lookup_delete_eq.
        -- now apply Hgone.
      * intros y Hy. rewrite not_elem_of_cons in Hy. destruct Hy as [Hya Hy].
        rewrite Hkeep by assumption. subst hc1. simpl.
        now rewrite lookup_delete_ne by auto.
Qed.

(** Freeing the tokens and the array gives back the heap as it was. *)
Lemma release_ok (h hc : heap) (l : loc) (ls : list loc)
    (ts : list (list Z)) (rest : list (option ptr)) :
  token_heap h hc l ls ts rest ->
  exists hc',
    (free_loop (length ls) (Ptr l) 0 ;; free (Ptr l)) hc = Some (tt, hc') /\
    blocks hc' = blocks h /\ budget hc' = budget hc.
Proof.
  intros (Hnd & Hnew & Hl & Hts & Hframe & Hj).
  apply NoDup_cons in Hnd as [Hlls Hnd].
  destruct (free_loop_ok l rest ls [] hc) as (hc1 & Hrun & Hbud & Hgone & Hkeep).
  - exact Hl.
  - assumption.
  - assumption.
  - intros y Hy. rewrite Forall2_lookup in Hts.
    apply list_elem_of_lookup in Hy as [i Hi].
    specialize (Hts i). rewrite Hi in Hts. inversion Hts as [? ? Hb|].
    rewrite Hb. eauto.
  - change (Z.of_nat (length (@nil loc))) with 0 in Hrun.
    unfold bind. rewrite Hrun. unfold free.
    rewrite Hkeep by assumption. rewrite Hl.
    eexists. split; [reflexivity|]. simpl. split; [|exact Hbud].
    apply map_eq. intros y.
    destruct (decide (y = l)) as [->|Hyl].
    { rewrite lookup_delete_eq. symmetry. apply Hnew. now left. }
    rewrite lookup_delete_ne by auto.
    destruct (decide (y ∈ ls)) as [Hin|Hout].
    + rewrite Hgone by assumption. symmetry. apply Hnew. now right.
    + rewrite Hkeep by assumption. apply Hframe.
      rewrite not_elem_of_cons. auto.
Qed.

(** *** [str_split] as a whole *)

Lemma c_string_block (h : heap) (l : loc) (t : list Z) :
  blocks h !! l = Some (Chars (t ++ [0])) -> nonzero t ->
  c_string h (Ptr l) = Some t.
Proof.
  intros Hl Ht. unfold c_string. rewrite Hl.
  rewrite c_scan_app_nul by assumption. rewrite length_app. simpl.
  destruct (length t <? length t + 1)%nat eqn:E; [|bools; lia].
  now rewrite content_app_nul.
Qed.

Lemma read_tokens_ok (h : heap) (ls : list loc) (ts : list (list Z)) :
  Forall2 (fun l' t => blocks h !! l' = Some (Chars (t ++ [0]))) ls ts ->
  Forall nonzero ts ->
  read_tokens h (map (fun l' => Some (Ptr l')) ls ++ [Some NULL]) = Some ts.
Proof.
  induction 1 as [|l' t ls ts Hl _ IH]; intros Hnz; [reflexivity|].
  apply Forall_cons in Hnz as [Ht Hnz]. cbn [map app read_tokens].
  rewrite (c_string_block _ _ _ Hl Ht). now rewrite IH.
Qed.

Lemma token_list_ok (h h' : heap) (l : loc) (ls : list loc)
    (ts : list (list Z)) :
  token_heap h h' l ls ts [Some NULL] -> Forall nonzero ts ->
  token_list h' (Ptr l) = Some ts.
Proof.
  intros (_ & _ & Hl & Hts & _ & _) Hnz. unfold token_list. rewrite Hl.
  now apply read_tokens_ok.
Qed.

Lemma token_heap_init (h : heap) (n : nat) :
  token_heap h
    (upd (fresh (dom (blocks h))) (Slots (replicate n None)) (spend h))
    (fresh (dom (blocks h))) [] [] (replicate n None).
Proof.
  unfold token_heap. split; [apply NoDup_singleton|]. split.
  { intros y Hy. apply list_elem_of_singleton in Hy as ->. apply fresh_free. }
  split; [apply blocks_upd|]. split; [constructor|]. split; [|reflexivity].
  intros y Hy. rewrite list_elem_of_singleton in Hy.
  now rewrite blocks_upd_ne by auto.
Qed.

(** [str_split] as a whole: with every request granted it builds the
    token array; with one refused it gives back all it took. *)
Lemma str_split_run (b : list Z) (d : Z) (h : heap) :
  fits b ->
  let n := occurrences d (content b) in
  (grants (n + 2) h ->
   exists l ls h',
     str_split (Some b) d h = Some (Ptr l, h') /\
     token_heap h h' l ls (fields d (content b)) [Some NULL] /\
     budget h' = drop (n + 2) (budget h)) /\
  (~ grants (n + 2) h ->
   exists h', str_split (Some b) d h = Some (NULL, h') /\
              blocks h' = blocks h).
Proof.
  intros Hb n. pose proof (occurrences_le d (content b)) as Hle.
  rewrite length_content in Hle. fold n in Hle.
  unfold fits, INT_MAX in Hb.
  assert (Hrun : str_split (Some b) d h
    = (result <- malloc_slots (8 * (Z.of_nat n + 2)) ;;
       match result with
       | NULL => ret NULL
       | Ptr _ =>
           r <- split_loop b d b 0 0 result 0 ;;
           let '(success, result_ptr) := r in
           if success : bool then store_slot result result_ptr NULL ;; ret result
           else free_loop (Z.to_nat result_ptr) result 0 ;;
                free result ;; ret NULL
       end) h).
  { unfold str_split. rewrite count_loop_ok by (unfold INT_MAX; lia).
    fold n. replace (1 + Z.of_nat n + 1) with (Z.of_nat n + 2) by lia.
    rewrite (to_int_id (Z.of_nat n + 2)) by (unfold INT_MIN, INT_MAX; lia).
    unfold SIZEOF_PTR.
    rewrite (to_size_id (Z.of_nat n + 2)) by (unfold ALLOC_MAX; lia).
    rewrite to_size_id by (unfold ALLOC_MAX; lia). reflexivity. }
  rewrite Hrun. clear Hrun.
  replace (n + 2)%nat with (S (S n)) by lia.
  set (l := fresh (dom (blocks h))).
  set (hc0 := upd l (Slots (replicate (S n + 1) None)) (spend h)).
  assert (Hiff : grants (length (fields d (content b))) hc0
                 <-> grants (S n) (spend h)).
  { unfold fields. rewrite length_fields_from. fold n. reflexivity. }
  assert (Hmalloc : grants 1 h ->
            malloc_slots (8 * (Z.of_nat n + 2)) h = Some (Ptr l, hc0)).
  { intros Hg. unfold malloc_slots.
    rewrite malloc_granted; [|assumption|unfold ALLOC_MAX; lia].
    fold l. unfold SIZEOF_PTR. rewrite Z.mul_comm, Z.div_mul by lia.
    replace (Z.to_nat (Z.of_nat n + 2)) with (S n + 1)%nat by lia.
    reflexivity. }
  pose proof (token_heap_init h (S n + 1)) as Hinit. fold l hc0 in Hinit.
  rewrite replicate_add in Hinit. simpl replicate in Hinit at 2.
  assert (Hlen : length (fields_from [] d (content b)) = S n)
    by apply length_fields_from.
  rewrite <- Hlen in Hinit.
  destruct (split_loop_ok h l b d ltac:(unfold fits, INT_MAX; lia) b 0 0
              [] [] [None] hc0 eq_refl ltac:(lia) Hinit)
    as (hc' & ls' & ts' & success & rest' & Hloop & Hth & Hok & Hko).
  change (slice b (Z.of_nat 0) (0 - 0)) with (@nil Z) in *.
  fold (fields d (content b)) in *.
  simpl app in Hloop, Hth. simpl length in Hloop.
  change (Z.of_nat 0) with 0 in Hloop.
  destruct (decide (grants (S (S n)) h)) as [Hall|Hnot];
    (split; [intros Hall'|intros Hnot']); try contradiction.
  - apply grants_S_iff in Hall as [Hg Hall].
    destruct (Hok ltac:(now apply Hiff)) as (-> & -> & -> & Hbud).
    pose proof Hth as (_ & _ & Hl & _ & _ & _).
    exists l, ls', (upd l (Slots (map (fun l' => Some (Ptr l')) ls'
                                  ++ [Some NULL])) hc').
    split; [|split].
    + unfold bind at 1. rewrite (Hmalloc Hg).
      unfold bind at 1. rewrite Hloop. unfold bind.
      rewrite (store_slot_mid l (map (fun l' => Some (Ptr l')) ls') [] None);
        [reflexivity|exact Hl|now rewrite length_map].
    + now apply token_heap_rest with (rest := [None]).
    + simpl budget. rewrite Hbud. unfold fields.
      rewrite length_fields_from. fold n. subst hc0. simpl budget.
      destruct (budget h); reflexivity.
  - destruct (decide (grants 1 h)) as [Hg|Hg].
    + assert (Hfail : success = false).
      { apply Hko. rewrite Hiff. intros Hrest. apply Hnot.
        apply grants_S_iff. now split. }
      subst success.
      destruct (release_ok h hc' l ls' ts' rest' Hth)
        as (hc'' & Hrel & Hblk & _).
      exists hc''. split; [|exact Hblk].
      unfold bind at 1. rewrite (Hmalloc Hg).
      unfold bind at 1. rewrite Hloop. rewrite Nat2Z.id.
      unfold bind in Hrel |- *.
      destruct (free_loop (length ls') (Ptr l) 0 hc') as [[[] hx]|];
        [|discriminate].
      now rewrite Hrel.
    + exists (spend h). split; [|reflexivity].
      unfold bind, malloc_slots. now rewrite not_grants_1.
Qed.

(** C1.  For every text and delimiter, [str_split] returns as many
    tokens as the delimiter has occurrences plus one, in order: the
    pieces of the text between the occurrences.  A text without the
    delimiter gives the one token equal to it, a delimiter at the head
    or at the end gives an empty token there, and "Hello, World!" split
    at the comma gives "Hello" and " World!". *)
Theorem str_split_tokens (b : list Z) (d : Z) (h : heap) :
  fits b -> grants (occurrences d (content b) + 2) h ->
  exists (p : ptr) (h' : heap) (tokens : list (list Z)),
    str_split (Some b) d h = Some (p, h') /\
    token_list h' p = Some tokens /\
    length tokens = S (occurrences d (content b)) /\
    tokens = fields d (content b) /\
    glue d tokens = content b /\
    (occurrences d (content b) = 0%nat -> tokens = [content b]) /\
    (forall t, content b = d :: t -> head tokens = Some []) /\
    (forall t, content b = t ++ [d] -> last tokens = Some []) /\
    tokens_of (str_split (Some (lit "Hello, World!")) 44) (heap0 3)
    = Some [lit "Hello"; lit " World!"].
Proof.
  intros Hb Hg.
  destruct (str_split_run b d h Hb) as [Hrun _].
  destruct (Hrun Hg) as (l & ls & h' & Hsplit & Hth & _).
  exists (Ptr l), h', (fields d (content b)).
  split; [exact Hsplit|]. split.
  { apply (token_list_ok h h' l ls); [exact Hth|].
    apply fields_from_nonzero; [constructor|apply content_nonzero]. }
  split; [apply length_fields_from|]. split; [reflexivity|].
  split; [apply (glue_fields_from [])|].
  split; [apply (fields_from_none [])|].
  split; [|split; [|vm_compute; reflexivity]].
  - intros t Ht. rewrite Ht. unfold fields. simpl.
    now rewrite Z.eqb_refl.
  - intros t Ht. rewrite Ht. unfold fields. rewrite fields_from_snoc.
    apply last_snoc.
Qed.

Lemma str_split_tokens_witness :
  fits (lit ",a,b") /\
  grants (occurrences 44 (content (lit ",a,b")) + 2) (heap0 4) /\
  exists (p : ptr) (h' : heap) (tokens : list (list Z)),
    str_split (Some (lit ",a,b")) 44 (heap0 4) = Some (p, h') /\
    token_list h' p = Some tokens /\
    length tokens = S (occurrences 44 (content (lit ",a,b"))) /\
    tokens = fields 44 (content (lit ",a,b")) /\
    glue 44 tokens = content (lit ",a,b") /\
    (occurrences 44 (content (lit ",a,b")) = 0%nat ->
     tokens = [content (lit ",a,b")]) /\
    (forall t, content (lit ",a,b") = 44 :: t -> head tokens = Some []) /\
    (forall t, content (lit ",a,b") = t ++ [44] -> last tokens = Some []) /\
    tokens_of (str_split (Some (lit "Hello, World!")) 44) (heap0 3)
    = Some [lit "Hello"; lit " World!"].
Proof.
  assert (Hf : fits (lit ",a,b")) by (unfold fits, INT_MAX; simpl; lia).
  assert (Hg : grants (occurrences 44 (content (lit ",a,b")) + 2) (heap0 4))
    by (vm_compute; reflexivity).
  split; [exact Hf|]. split; [exact Hg|].
  exact (str_split_tokens (lit ",a,b") 44 (heap0 4) Hf Hg).
Defined.

(** C2.  For every text and delimiter, when the allocator refuses one
    of the requests that [str_split] makes, [str_split] returns NULL
    and the heap holds exactly the blocks it held before: the tokens
    built so far and the array are released, nothing half-built is
    left. *)
Theorem str_split_all_or_nothing (b : list Z) (d : Z) (h : heap) :
  fits b -> ~ grants (occurrences d (content b) + 2) h ->
  exists h' : heap,
    str_split (Some b) d h = Some (NULL, h') /\ blocks h' = blocks h.
Proof.
  intros Hb Hg. destruct (str_split_run b d h Hb) as [_ Hrun].
  exact (Hrun Hg).
Qed.

Lemma str_split_all_or_nothing_witness :
  fits (lit ",a,b") /\
  ~ grants (occurrences 44 (content (lit ",a,b")) + 2)
      (Heap ∅ [true; true; false; true] 170) /\
  exists h' : heap,
    str_split (Some (lit ",a,b")) 44 (Heap ∅ [true; true; false; true] 170)
    = Some (NULL, h') /\
    blocks h' = blocks (Heap ∅ [true; true; false; true] 170).
Proof.
  assert (Hf : fits (lit ",a,b")) by (unfold fits, INT_MAX; simpl; lia).
  assert (Hg : ~ grants (occurrences 44 (content (lit ",a,b")) + 2)
                 (Heap ∅ [true; true; false; true] 170))
    by (vm_compute; discriminate).
  split; [exact Hf|]. split; [exact Hg|].
  exact (str_split_all_or_nothing (lit ",a,b") 44 _ Hf Hg).
Defined.

(** ** Joining *)

Lemma length_glue (sep : Z) (ts : list (list Z)) :
  ts <> [] ->
  (length (glue sep ts) + 1 = length (concat ts) + length ts)%nat.
Proof.
  induction ts as [|t ts IH]; [contradiction|]. intros _.
  destruct ts as [|t' ts].
  - simpl. rewrite app_nil_r. lia.
  - rewrite glue_cons by discriminate.
    specialize (IH ltac:(discriminate)).
    change (concat (t :: t' :: ts)) with (t ++ concat (t' :: ts)).
    rewrite !length_app. simpl length in *. lia.
Qed.

Lemma cstr_at_block (h : heap) (l : loc) (t : list Z) :
  blocks h !! l = Some (Chars (t ++ [0])) -> nonzero t ->
  cstr_at (Ptr l) h = Some (t ++ [0], h).
Proof.
  intros Hl Ht. unfold cstr_at. rewrite Hl.
  rewrite c_scan_app_nul by assumption. rewrite length_app. simpl.
  destruct (length t <? length t + 1)%nat eqn:E; [reflexivity|bools; lia].
Qed.

Lemma str_len_block (t : list Z) :
  nonzero t -> Z.of_nat (length t) <= INT_MAX ->
  str_len (Some (t ++ [0])) = Z.of_nat (length t).
Proof.
  intros Ht Hlen. unfold str_len. rewrite c_scan_app_nul by assumption.
  apply to_int_id. unfold INT_MIN. lia.
Qed.

(** The first pass adds up the lengths and counts the tokens. *)
Lemma measure_loop_ok (h : heap) (ls : list loc) (ts : list (list Z)) :
  Forall2 (fun l' t => blocks h !! l' = Some (Chars (t ++ [0]))) ls ts ->
  Forall nonzero ts ->
  forall total_len count : Z,
    0 <= total_len -> 0 <= count ->
    total_len + Z.of_nat (length (concat ts)) <= INT_MAX ->
    count + Z.of_nat (length ts) <= INT_MAX ->
    measure_loop (map (fun l' => Some (Ptr l')) ls ++ [Some NULL])
      total_len count h
    = Some ((total_len + Z.of_nat (length (concat ts)),
             count + Z.of_nat (length ts)), h).
Proof.
  induction 1 as [|l' t ls ts Hl _ IH];
    intros Hnz total_len count H0 H1 Hov Hcnt.
  - simpl. unfold ret. do 3 f_equal; lia.
  - apply Forall_cons in Hnz as [Ht Hnz].
    simpl concat in *. rewrite length_app in *. simpl length in *.
    cbn [map app measure_loop]. unfold bind.
    rewrite (cstr_at_block _ _ _ Hl Ht).
    rewrite str_len_block by (try assumption; lia).
    rewrite !to_int_id by (unfold INT_MIN; lia).
    rewrite IH by (try assumption; lia).
    do 3 f_equal; lia.
Qed.

(** The inner loop copies [todo] cells of the block [a] to [r]. *)
Lemma part_loop_ok (a r : loc) (src : list Z) (todo : nat) :
  a <> r ->
  forall (j : nat) (pre mid post : list Z) (h : heap),
    blocks h !! a = Some (Chars src) ->
    (j + todo <= length src)%nat ->
    blocks h !! r = Some (Chars (pre ++ mid ++ post)) ->
    length mid = todo ->
    part_loop todo (Ptr a) (Z.of_nat j) (Ptr r) (Z.of_nat (length pre)) h
    = Some (Z.of_nat (length pre + todo),
            upd r (Chars (pre ++ take todo (drop j src) ++ post)) h).
Proof.
  intros Hne. induction todo as [|todo IH];
    intros j pre mid post h Ha Hj Hr Hm.
  - destruct mid; [|discriminate]. simpl.
    rewrite upd_same by assumption. unfold ret. do 3 f_equal. lia.
  - destruct mid as [|m mid]; [discriminate|]. injection Hm as Hm.
    simpl part_loop. unfold bind at 1. unfold load_char. rewrite Ha.
    destruct (0 <=? Z.of_nat j) eqn:E; [|bools; lia]. rewrite Nat2Z.id.
    destruct (lookup_lt_is_Some_2 src j ltac:(lia)) as [c Hc]. rewrite Hc.
    unfold bind at 1. simpl in Hr.
    rewrite (store_char_mid _ _ _ _ _ _ _ Hr eq_refl).
    replace (Z.of_nat j + 1) with (Z.of_nat (S j)) by lia.
    replace (Z.of_nat (length pre) + 1)
      with (Z.of_nat (length (pre ++ [c])))
      by (rewrite length_app; simpl; lia).
    rewrite (IH (S j) (pre ++ [c]) mid post).
    + rewrite upd_upd. rewrite length_app. simpl length.
      rewrite <- app_assoc. simpl app.
      rewrite (drop_S src c j Hc). simpl take.
      do 3 f_equal. lia.
    + now rewrite blocks_upd_ne by auto.
    + lia.
    + rewrite blocks_upd. now rewrite <- app_assoc.
    + assumption.
Qed.

(** The second pass writes the tokens from [i] on, with the separator
    after each but the last. *)
Lemma join_loop_ok (l r : loc) (sep count : Z) (ts : list (list Z)) :
  forall (ls done : list loc) (pre mid post : list Z) (h : heap),
    Forall2 (fun l' t => blocks h !! l' = Some (Chars (t ++ [0]))) ls ts ->
    Forall nonzero ts ->
    Forall (fun t => Z.of_nat (length t) <= INT_MAX) ts ->
    blocks h !! l
    = Some (Slots (map (fun l' => Some (Ptr l')) (done ++ ls)
                   ++ [Some NULL])) ->
    r ∉ l :: ls ->
    count = Z.of_nat (length done + length ls) -> count <= INT_MAX ->
    blocks h !! r = Some (Chars (pre ++ mid ++ post)) ->
    length mid = length (glue sep ts) ->
    join_loop (length ls) (Ptr l) sep count (Z.of_nat (length done)) (Ptr r)
      (Z.of_nat (length pre)) h
    = Some (Z.of_nat (length pre + length (glue sep ts)),
            upd r (Chars (pre ++ glue sep ts ++ post)) h).
Proof.
  induction ts as [|t ts IH];
    intros ls done pre mid post h Hts Hnz Hfit Hl Hr Hcount Hmax Hblk Hm.
  1: revert Hcount; inversion Hts; subst; intros Hcount.
  2: revert Hcount; inversion Hts as [|a ? ls' ? Ha Hts']; subst; clear Hts;
     intros Hcount; rename Hts' into Hts; rename ls' into ls.
  - destruct mid; [|discriminate]. simpl.
    rewrite upd_same by assumption. unfold ret. do 3 f_equal. lia.
  - apply Forall_cons in Hnz as [Ht Hnz].
    apply Forall_cons in Hfit as [Hlt Hfit].
    rewrite !not_elem_of_cons in Hr. destruct Hr as (Hrl & Hra & Hrls).
    assert (Hglue : (length t <= length mid)%nat).
    { rewrite Hm. destruct ts; simpl; [lia|]. rewrite length_app. lia. }
    cbn [length] in Hcount |- *. cbn [join_loop].
    unfold bind at 1. unfold load_slot. rewrite Hl.
    destruct (0 <=? Z.of_nat (length done)) eqn:E; [|bools; lia].
    rewrite Nat2Z.id.
    rewrite lookup_app_l
      by (rewrite length_map, length_app; simpl; lia).
    rewrite list_lookup_fmap, lookup_app_r by lia.
    rewrite Nat.sub_diag. simpl lookup. cbn [fmap option_fmap option_map].
    unfold bind at 1. rewrite (cstr_at_block _ _ _ Ha Ht).
    rewrite str_len_block by assumption. rewrite Nat2Z.id.
    unfold bind at 1.
    assert (Hmid : mid = take (length t) mid ++ drop (length t) mid)
      by now rewrite take_drop.
    rewrite Hmid, <- app_assoc in Hblk.
    change 0 with (Z.of_nat 0).
    rewrite (part_loop_ok a r (t ++ [0]) (length t) ltac:(auto) 0 pre
               (take (length t) mid) (drop (length t) mid ++ post) h Ha
               ltac:(rewrite length_app; simpl; lia) Hblk
               ltac:(rewrite length_take; lia)).
    rewrite drop_0, take_app_length.
    rewrite (to_int_id (count - 1)) by (unfold INT_MIN; lia).
    assert (Hslots : forall hx blk,
              blocks (upd r blk hx) !! l = blocks hx !! l)
      by (intros; now rewrite blocks_upd_ne by auto).
    assert (Htoks : forall blk,
              Forall2 (fun l' t' => blocks (upd r blk h) !! l'
                                    = Some (Chars (t' ++ [0]))) ls ts).
    { intros blk. apply Forall2_same_length_lookup_2.
      - now apply Forall2_length in Hts.
      - intros i y t' Hy Ht'. rewrite blocks_upd_ne.
        + rewrite Forall2_lookup in Hts. specialize (Hts i).
          rewrite Hy, Ht' in Hts. now inversion Hts.
        + intros ->. apply Hrls. apply list_elem_of_lookup. eauto. }
    destruct ts as [|t' ts'] eqn:Ets.
    + (* the last token: no separator *)
      inversion Hts; subst. simpl length in *.
      destruct (Z.of_nat (length done) <? Z.of_nat (length done + 1) - 1)
        eqn:E1; [bools; lia|].
      unfold bind. unfold ret. cbn [join_loop glue] in Hm |- *.
      rewrite drop_ge by lia. do 3 f_equal.
    + (* a separator follows *)
      rewrite <- Ets in *.
      assert (Hls : ls <> []).
      { intros ->. subst ts. inversion Hts. }
      assert (Hlen : (0 < length ls)%nat)
        by (destruct ls; [contradiction|simpl; lia]).
      destruct (Z.of_nat (length done) <? count - 1) eqn:E1; [|bools; lia].
      assert (Hg : glue sep (t :: ts) = t ++ sep :: glue sep ts)
        by (apply glue_cons; subst ts; discriminate).
      rewrite Hg in Hm |- *. rewrite length_app in Hm. simpl length in Hm.
      destruct (drop (length t) mid) as [|m mid'] eqn:Hdrop.
      { apply (f_equal length) in Hdrop. rewrite length_drop in Hdrop.
        simpl in Hdrop. lia. }
      assert (Hmid' : length mid' = length (glue sep ts)).
      { apply (f_equal length) in Hdrop. rewrite length_drop in Hdrop.
        simpl in Hdrop. lia. }
      unfold bind at 1. unfold bind at 1.
      rewrite (store_char_mid r (pre ++ t) (mid' ++ post) m);
        [|rewrite blocks_upd, <- app_assoc; reflexivity
         |rewrite length_app; lia].
      rewrite upd_upd. unfold ret.
      replace (Z.of_nat (length pre + length t) + 1)
        with (Z.of_nat (length ((pre ++ t) ++ [sep])))
        by (rewrite !length_app; simpl; lia).
      replace (Z.of_nat (length done) + 1)
        with (Z.of_nat (length (done ++ [a])))
        by (rewrite length_app; simpl; lia).
      rewrite (IH ls (done ++ [a]) ((pre ++ t) ++ [sep]) mid' post).
      * rewrite upd_upd. rewrite !length_app. simpl length.
        rewrite <- !app_assoc. simpl app.
        do 3 f_equal. lia.
      * apply Htoks.
      * assumption.
      * assumption.
      * rewrite Hslots, Hl. now rewrite <- app_assoc.
      * rewrite not_elem_of_cons. auto.
      * rewrite length_app. simpl. lia.
      * assumption.
      * rewrite blocks_upd. rewrite <- !app_assoc. reflexivity.
      * assumption.
Qed.

Lemma length_le_concat (ts : list (list Z)) :
  Forall (fun t => (length t <= length (concat ts))%nat) ts.
Proof.
  induction ts as [|t ts IH]; [constructor|].
  simpl. rewrite length_app. constructor; [lia|].
  eapply Forall_impl; [exact IH|]. intros t' Ht'. simpl in Ht'. lia.
Qed.

Lemma str_join_n_ok (h h1 : heap) (l : loc) (ls : list loc)
    (ts : list (list Z)) (sep : Z) :
  token_heap h h1 l ls ts [Some NULL] ->
  Forall nonzero ts -> ts <> [] ->
  Z.of_nat (length (glue sep ts)) + 2 <= INT_MAX ->
  grants 1 h1 ->
  str_join_n (Ptr l) sep h1
  = Some (Ptr (fresh (dom (blocks h1))),
          upd (fresh (dom (blocks h1))) (Chars (glue sep ts ++ [0]))
            (spend h1)).
Proof.
  intros (Hnd & Hnew & Hl & Hts & Hframe & Hj) Hnz Hne Hfit Hg.
  pose proof (length_glue sep ts Hne) as Hlen.
  pose proof (Forall2_length _ _ _ Hts) as Hlsts.
  assert (Hcnt : (0 < length ts)%nat)
    by (destruct ts; [contradiction|simpl; lia]).
  unfold INT_MAX in Hfit.
  set (r := fresh (dom (blocks h1))).
  assert (Hr : blocks h1 !! r = None) by apply fresh_free.
  assert (Hrl : r <> l) by (intros E; rewrite E, Hl in Hr; discriminate).
  assert (Hrls : r ∉ ls).
  { intros Hin. rewrite Forall2_lookup in Hts.
    apply list_elem_of_lookup in Hin as [i Hi].
    specialize (Hts i). rewrite Hi in Hts. inversion Hts as [? ? Hb|].
    rewrite Hr in Hb. discriminate. }
  unfold str_join_n. unfold bind at 1. unfold slots_at. rewrite Hl.
  unfold bind at 1.
  rewrite (measure_loop_ok h1 ls ts Hts Hnz 0 0)
    by (unfold INT_MAX; lia).
  rewrite !Z.add_0_l.
  destruct (Z.of_nat (length ts) =? 0) eqn:E0; [bools; lia|].
  rewrite (to_int_id (Z.of_nat (length ts) - 1))
    by (unfold INT_MIN, INT_MAX; lia).
  replace (Z.of_nat (length (concat ts)) + (Z.of_nat (length ts) - 1))
    with (Z.of_nat (length (glue sep ts))) by lia.
  rewrite (to_int_id (Z.of_nat (length (glue sep ts))))
    by (unfold INT_MIN, INT_MAX; lia).
  rewrite to_size_int by (unfold INT_MAX; lia).
  unfold bind at 1. unfold malloc_chars.
  rewrite malloc_granted; [|assumption|unfold ALLOC_MAX; lia].
  fold r.
  replace (Z.to_nat (Z.of_nat (length (glue sep ts)) + 1))
    with (length (glue sep ts) + 1)%nat by lia.
  rewrite replicate_add. simpl replicate.
  set (hx := upd r (Chars (replicate (length (glue sep ts)) (junk h1)
                           ++ [junk h1])) (spend h1)).
  assert (Htoks : Forall2 (fun l' t => blocks hx !! l'
                                       = Some (Chars (t ++ [0]))) ls ts).
  { apply Forall2_same_length_lookup_2; [assumption|].
    intros i y t' Hy Ht'. subst hx. rewrite blocks_upd_ne.
    - rewrite Forall2_lookup in Hts. specialize (Hts i).
      rewrite Hy, Ht' in Hts. now inversion Hts.
    - intros ->. apply Hrls. apply list_elem_of_lookup. eauto. }
  replace (Z.to_nat (Z.of_nat (length ts))) with (length ls) by lia.
  unfold bind at 1.
  pose proof (join_loop_ok l r sep (Z.of_nat (length ts)) ts ls [] []
                (replicate (length (glue sep ts)) (junk h1)) [junk h1] hx)
    as Hloop.
  change (Z.of_nat (length (@nil loc))) with 0 in Hloop.
  change (Z.of_nat (length (@nil Z))) with 0 in Hloop.
  rewrite Hloop; clear Hloop.
  - subst hx. rewrite upd_upd. simpl app. simpl length. unfold bind.
    rewrite (store_char_mid r (glue sep ts) [] (junk h1));
      [|now rewrite blocks_upd|lia].
    now rewrite upd_upd.
  - exact Htoks.
  - assumption.
  - pose proof (length_le_concat ts) as Hle.
    eapply Forall_impl; [exact Hle|]. intros t' Ht'. simpl in Ht'.
    unfold INT_MAX. lia.
  - subst hx. rewrite blocks_upd_ne by auto. exact Hl.
  - rewrite not_elem_of_cons. auto.
  - simpl. lia.
  - unfold INT_MAX. lia.
  - subst hx. now rewrite blocks_upd.
  - now rewrite length_replicate.
Qed.

Lemma grants_add (n m : nat) (h : heap) :
  grants (n + m) h ->
  grants n h /\ take m (drop n (budget h)) = replicate m true.
Proof.
  unfold grants. intros H.
  rewrite replicate_add in H.
  assert (Hlen : (n <= length (budget h))%nat).
  { apply (f_equal length) in H.
    rewrite length_take, length_app, !length_replicate in H. lia. }
  rewrite <- (take_drop n (budget h)) in H at 1.
  rewrite take_app_add' in H by (rewrite length_take; lia).
  apply app_inj_1 in H; [exact H|].
  rewrite length_take, length_replicate. lia.
Qed.

(** C3.  For every text and delimiter, [str_join_n] with the delimiter
    as separator, run on the token list that [str_split] returned,
    returns the text again, whether the text holds the delimiter or
    not. *)
Theorem split_join_roundtrip (b : list Z) (d : Z) (h : heap) :
  fits b -> grants (occurrences d (content b) + 3) h ->
  exists (p : ptr) (h1 : heap),
    str_split (Some b) d h = Some (p, h1) /\
    yields (str_join_n p d) h1 (content b).
Proof.
  intros Hb Hg.
  replace (occurrences d (content b) + 3)%nat
    with ((occurrences d (content b) + 2) + 1)%nat in Hg by lia.
  apply grants_add in Hg as [Hsplit Hjoin].
  destruct (str_split_run b d h Hb) as [Hrun _].
  destruct (Hrun Hsplit) as (l & ls & h1 & Hs & Hth & Hbud).
  exists (Ptr l), h1. split; [exact Hs|].
  pose proof (content_nonzero b) as Hnz.
  assert (Hfields : Forall nonzero (fields d (content b)))
    by (apply fields_from_nonzero; [constructor|assumption]).
  assert (Hglue : glue d (fields d (content b)) = content b)
    by apply (glue_fields_from []).
  exists (fresh (dom (blocks h1))). split; [apply fresh_free|].
  split; [|now apply c_string_upd].
  rewrite <- Hglue at 1.
  apply (str_join_n_ok h h1 l ls); try assumption.
  - apply fields_from_nonempty.
  - rewrite Hglue, length_content. exact Hb.
  - unfold grants. now rewrite Hbud.
Qed.

Lemma split_join_roundtrip_witness :
  fits (lit "a,b,,c") /\
  grants (occurrences 44 (content (lit "a,b,,c")) + 3) (heap0 6) /\
  exists (p : ptr) (h1 : heap),
    str_split (Some (lit "a,b,,c")) 44 (heap0 6) = Some (p, h1) /\
    yields (str_join_n p 44) h1 (content (lit "a,b,,c")).
Proof.
  assert (Hf : fits (lit "a,b,,c")) by (unfold fits, INT_MAX; simpl; lia).
  assert (Hg : grants (occurrences 44 (content (lit "a,b,,c")) + 3) (heap0 6))
    by (vm_compute; reflexivity).
  split; [exact Hf|]. split; [exact Hg|].
  exact (split_join_roundtrip (lit "a,b,,c") 44 (heap0 6) Hf Hg).
Defined.

(** The round trip run on the code, with and without the delimiter. *)
Example split_join_scenarios :
  text_of (p <- str_split (Some (lit "a,b,,c")) 44 ;; str_join_n p 44)
    (heap0 6) = Some (lit "a,b,,c") /\
  text_of (p <- str_split (Some (lit "abc")) 44 ;; str_join_n p 44)
    (heap0 3) = Some (lit "abc").
Proof. split; vm_compute; reflexivity. Qed.

(** * Further properties of the library *)

(** ** Length and the search for a unit *)

(** X1.  For a buffer whose length fits [int], [str_len] returns the
    offset of the first zero cell: the number of units of the text, with
    a zero cell at that offset and none before it.  An absent text has
    length 0. *)
Theorem str_len_first_nul (b : list Z) :
  fits b ->
  str_len (Some b) = Z.of_nat (length (content b)) /\
  peek b (str_len (Some b)) = 0 /\
  (forall i : Z, 0 <= i < str_len (Some b) -> peek b i <> 0) /\
  str_len None = 0.
Proof.
  intros Hb. rewrite (str_len_fits _ Hb), length_content.
  split; [reflexivity|]. split; [apply peek_scan|].
  split; [|reflexivity].
  intros i Hi. replace i with (Z.of_nat (Z.to_nat i)) by lia.
  apply peek_before_scan. lia.
Qed.

Lemma str_len_first_nul_witness :
  fits (lit "abc") /\
  str_len (Some (lit "abc")) = Z.of_nat (length (content (lit "abc"))) /\
  peek (lit "abc") (str_len (Some (lit "abc"))) = 0 /\
  (forall i : Z,
     0 <= i < str_len (Some (lit "abc")) -> peek (lit "abc") i <> 0) /\
  str_len None = 0.
Proof.
  assert (H : fits (lit "abc")) by (unfold fits, INT_MAX; simpl; lia).
  split; [exact H|]. exact (str_len_first_nul (lit "abc") H).
Defined.

(** The first position of a unit is unique. *)
Lemma first_position_unique (x : Z) (t : list Z) (i j : nat) :
  t !! i = Some x -> x ∉ take i t ->
  t !! j = Some x -> x ∉ take j t -> i = j.
Proof.
  intros Hi Hni Hj Hnj.
  destruct (Nat.lt_trichotomy i j) as [Hlt|[Heq|Hlt]]; [|exact Heq|].
  - exfalso. apply Hnj. apply list_elem_of_lookup. exists i.
    now rewrite lookup_take_lt.
  - exfalso. apply Hni. apply list_elem_of_lookup. exists j.
    now rewrite lookup_take_lt.
Qed.

Lemma index_of_loop_ok (search : Z) (p : list Z) (pos : Z) :
  0 <= pos -> pos + Z.of_nat (c_scan p) <= INT_MAX ->
  ((search ∉ content p) /\ index_of_loop search p pos = -1) \/
  (exists i : nat,
     content p !! i = Some search /\ (search ∉ take i (content p)) /\
     index_of_loop search p pos = pos + Z.of_nat i).
Proof.
  revert pos. induction p as [|c p IH]; intros pos Hpos Hmax.
  - left. split; [apply not_elem_of_nil | reflexivity].
  - rewrite content_cons. simpl index_of_loop. simpl c_scan in Hmax.
    destruct (c =? 0) eqn:E0.
    + left. split; [apply not_elem_of_nil | reflexivity].
    + destruct (c =? search) eqn:Es.
      * right. exists 0%nat. bools. subst c.
        split; [reflexivity|]. split; [apply not_elem_of_nil|].
        rewrite to_int_id by (unfold INT_MIN; lia). lia.
      * destruct (IH (pos + 1)) as [[Hn Hr]|[i [Hi [Hn Hr]]]]; [lia|lia| |].
        -- left. split; [|exact Hr].
           rewrite not_elem_of_cons. split; [bools; congruence | exact Hn].
        -- right. exists (S i). split; [exact Hi|]. split.
           ++ simpl. rewrite not_elem_of_cons.
              split; [bools; congruence | exact Hn].
           ++ rewrite Hr. lia.
Qed.

(** X2.  For a buffer whose length fits [int], [index_of] returns -1
    exactly when the unit does not occur in the text, and returns [i]
    exactly when the unit is at position [i] and at no position before. *)
Theorem index_of_first (search : Z) (b : list Z) :
  fits b ->
  (index_of search (Some b) = -1 <-> search ∉ content b) /\
  (forall i : nat,
     index_of search (Some b) = Z.of_nat i
     <-> content b !! i = Some search /\ search ∉ take i (content b)).
Proof.
  intros Hb. unfold index_of.
  destruct (index_of_loop_ok search b 0) as [[Hn Hr]|[j [Hj [Hn Hr]]]];
    [lia | unfold fits in Hb; lia | |].
  - rewrite Hr. split; [tauto|].
    intros i. split; [lia|]. intros [Hi _]. exfalso. apply Hn.
    apply list_elem_of_lookup. now exists i.
  - rewrite Hr. split.
    + split; [lia|]. intros Hno. exfalso. apply Hno.
      apply list_elem_of_lookup. now exists j.
    + intros i. split.
      * intros Hij. assert (i = j) by lia. subst i. now split.
      * intros [Hi Hni].
        now rewrite (first_position_unique _ _ _ _ Hi Hni Hj Hn).
Qed.

Lemma index_of_first_witness :
  fits (lit "hello") /\
  (index_of 108 (Some (lit "hello")) = -1 <-> 108 ∉ content (lit "hello")) /\
  (forall i : nat,
     index_of 108 (Some (lit "hello")) = Z.of_nat i
     <-> content (lit "hello") !! i = Some 108 /\
         108 ∉ take i (content (lit "hello"))).
Proof.
  assert (H : fits (lit "hello")) by (unfold fits, INT_MAX; simpl; lia).
  split; [exact H|]. exact (index_of_first 108 (lit "hello") H).
Defined.

(** ** The first and the last unit *)

Lemma content_nil_peek (b : list Z) : content b = [] <-> peek b 0 = 0.
Proof.
  destruct b as [|c b]; [now split|].
  rewrite content_cons, peek_0. destruct (c =? 0) eqn:E; bools.
  - now split.
  - split; [discriminate | contradiction].
Qed.

Lemma head_content (b : list Z) : default 0 (head (content b)) = peek b 0.
Proof.
  destruct b as [|c b]; [reflexivity|].
  rewrite content_cons, peek_0. destruct (c =? 0) eqn:E; bools; simpl; lia.
Qed.

Lemma last_content (b : list Z) :
  content b <> [] ->
  last (content b) = Some (peek b (Z.of_nat (c_scan b) - 1)).
Proof.
  intros Hne. rewrite last_lookup, length_content.
  assert (c_scan b <> 0)%nat.
  { intros H0. apply Hne. apply length_zero_iff_nil.
    now rewrite length_content. }
  rewrite peek_content by lia. f_equal. f_equal. lia.
Qed.

(** X3.  [str_first_char] and [str_last_char] return the first and the
    last unit of the text, which are what [str_char_at] returns at
    offsets 0 and length - 1, and they return the zero unit exactly
    when the text is empty or absent. *)
Theorem first_last_char (text : option (list Z)) :
  fits_text text ->
  str_first_char text = default 0 (head (units text)) /\
  str_last_char text = default 0 (last (units text)) /\
  str_first_char text = str_char_at text 0 /\
  str_last_char text = str_char_at text (str_len text - 1) /\
  (str_first_char text = 0 <-> units text = []) /\
  (str_last_char text = 0 <-> units text = []).
Proof.
  destruct text as [b|]; cbn [fits_text units]; [|intros _; now repeat split].
  intros Hb.
  assert (Hfirst : str_first_char (Some b) = default 0 (head (content b))).
  { rewrite head_content. unfold str_first_char.
    destruct (peek b 0 =? 0) eqn:E; bools; lia. }
  assert (Hlast : str_last_char (Some b) = default 0 (last (content b))).
  { unfold str_last_char. destruct (peek b 0 =? 0) eqn:E; bools.
    - apply content_nil_peek in E. now rewrite E.
    - assert (Hne : content b <> []) by now rewrite content_nil_peek.
      rewrite (last_content _ Hne), (str_len_fits _ Hb).
      unfold default, from_option, id. f_equal. apply to_int_id. unfold fits, INT_MIN in *. lia. }
  pose proof (content_nonzero b) as Hnz.
  split; [exact Hfirst|]. split; [exact Hlast|].
  split; [|split; [|split]].
  - unfold str_first_char, str_char_at. rewrite (str_len_fits _ Hb).
    change (0 <? 0) with false. cbv iota.
    destruct (peek b 0 =? 0) eqn:E; bools.
    + destruct (0 >=? Z.of_nat (c_scan b)); congruence.
    + destruct (0 >=? Z.of_nat (c_scan b)) eqn:E1; [|reflexivity].
      bools. exfalso. apply E.
      replace 0 with (Z.of_nat (c_scan b)) at 1 by lia. apply peek_scan.
  - unfold str_last_char, str_char_at. rewrite (str_len_fits _ Hb).
    destruct (peek b 0 =? 0) eqn:E; bools.
    + apply content_nil_peek in E.
      assert (H0 : c_scan b = 0%nat) by now rewrite <- length_content, E.
      rewrite H0. reflexivity.
    + assert (Hne : content b <> []) by now rewrite content_nil_peek.
      assert (c_scan b <> 0)%nat.
      { intros H0. apply Hne. apply length_zero_iff_nil.
        now rewrite length_content. }
      rewrite to_int_id by (unfold fits, INT_MIN in *; lia).
      destruct (Z.of_nat (c_scan b) - 1 <? 0) eqn:E1; [bools; lia|].
      destruct (Z.of_nat (c_scan b) - 1 >=? Z.of_nat (c_scan b)) eqn:E2;
        [bools; lia | reflexivity].
  - rewrite Hfirst. destruct (content b) as [|u t]; [now split|].
    apply Forall_cons in Hnz as [Hu _]. simpl. now split.
  - rewrite Hlast. revert Hnz. generalize (content b). intros t Hnz.
    induction t as [|u t _] using rev_ind; [now split|].
    rewrite last_snoc. apply Forall_app in Hnz as [_ Hu].
    rewrite Forall_singleton in Hu. unfold default, from_option, id.
    split; [intros; contradiction|].
    intros Happ. destruct t; discriminate.
Qed.

Lemma first_last_char_witness :
  fits_text (Some (lit "abc")) /\
  str_first_char (Some (lit "abc"))
  = default 0 (head (units (Some (lit "abc")))) /\
  str_last_char (Some (lit "abc"))
  = default 0 (last (units (Some (lit "abc")))) /\
  str_first_char (Some (lit "abc")) = str_char_at (Some (lit "abc")) 0 /\
  str_last_char (Some (lit "abc"))
  = str_char_at (Some (lit "abc")) (str_len (Some (lit "abc")) - 1) /\
  (str_first_char (Some (lit "abc")) = 0 <-> units (Some (lit "abc")) = []) /\
  (str_last_char (Some (lit "abc")) = 0 <-> units (Some (lit "abc")) = []).
Proof.
  assert (H : fits_text (Some (lit "abc")))
    by (unfold fits_text, fits, INT_MAX; simpl; lia).
  split; [exact H|]. exact (first_last_char (Some (lit "abc")) H).
Defined.

(** ** Validation *)

(** The comparisons of a goal, as cases for [lia]. *)
Ltac no_test t :=
  lazymatch t with
  | context [if _ then _ else _] => fail
  | _ => idtac
  end.

Ltac compare_cases :=
  repeat (match goal with
          | |- context [?a <=? ?b] =>
              no_test a; no_test b; destruct (Z.leb_spec a b)
          | |- context [?a <? ?b] =>
              no_test a; no_test b; destruct (Z.ltb_spec a b)
          | |- context [?a >? ?b] => rewrite (Z.gtb_ltb a b)
          | |- context [?a =? ?b] =>
              no_test a; no_test b; destruct (Z.eqb_spec a b)
          end; cbn [andb orb negb]; cbv iota).

Lemma numeric_loop_ok (s : list Z) :
  (numeric_loop s = 1 <-> Forall digit (content s)) /\
  (numeric_loop s = 0 \/ numeric_loop s = 1).
Proof.
  induction s as [|c s [IH1 IH2]]; [split; [now split | now right]|].
  rewrite content_cons. cbn [numeric_loop].
  destruct (c =? 0) eqn:E0; [split; [now split | now right]|].
  rewrite Forall_cons, <- IH1. unfold digit. compare_cases.
  all: split; [split; [lia | intros [? ?]; lia] | tauto || now left].
Qed.

Lemma alpha_loop_ok (s : list Z) :
  (alpha_loop s = 1 <-> Forall letter (content s)) /\
  (alpha_loop s = 0 \/ alpha_loop s = 1).
Proof.
  induction s as [|c s [IH1 IH2]]; [split; [now split | now right]|].
  rewrite content_cons. cbn [alpha_loop].
  destruct (c =? 0) eqn:E0; [split; [now split | now right]|].
  rewrite Forall_cons, <- IH1. unfold letter. compare_cases.
  all: split; [split; [lia | intros [? ?]; lia] | tauto || now left].
Qed.

Lemma alpha_numeric_loop_ok (s : list Z) :
  (alpha_numeric_loop s = 1
   <-> Forall (fun u => letter u \/ digit u) (content s)) /\
  (alpha_numeric_loop s = 0 \/ alpha_numeric_loop s = 1).
Proof.
  induction s as [|c s [IH1 IH2]]; [split; [now split | now right]|].
  rewrite content_cons. cbn [alpha_numeric_loop].
  destruct (c =? 0) eqn:E0; [split; [now split | now right]|].
  rewrite Forall_cons, <- IH1. unfold letter, digit. compare_cases.
  all: split; [split; [lia | intros [? ?]; lia] | tauto || now left].
Qed.

(** The shape shared by the three predicates: 0 on an absent or empty
    text, the loop otherwise. *)
Lemma validation_shape (loop : list Z -> Z) (P : Z -> Prop)
    (s : option (list Z)) :
  (forall b, (loop b = 1 <-> Forall P (content b)) /\ (loop b = 0 \/ loop b = 1)) ->
  let r := match s with
           | None => 0
           | Some b => if peek b 0 =? 0 then 0 else loop b
           end in
  (r = 1 <-> units s <> [] /\ Forall P (units s)) /\ (r = 0 \/ r = 1).
Proof.
  intros Hloop. destruct s as [b|]; cbn [units].
  - destruct (Hloop b) as [H1 H2]. cbv zeta.
    destruct (peek b 0 =? 0) eqn:E; bools.
    + apply content_nil_peek in E. rewrite E.
      split; [|now left]. split; [lia | intros [? _]; contradiction].
    + rewrite <- content_nil_peek in E. split; [|exact H2].
      rewrite H1. tauto.
  - cbv zeta. split; [|now left].
    split; [lia | intros [? _]; contradiction].
Qed.

(** X4.  [str_is_numeric] returns 1 exactly when the text is present,
    not empty and made of decimal digits only, and 0 otherwise. *)
Theorem str_is_numeric_spec (s : option (list Z)) :
  (str_is_numeric s = 1 <-> units s <> [] /\ Forall digit (units s)) /\
  (str_is_numeric s = 0 \/ str_is_numeric s = 1).
Proof. exact (validation_shape numeric_loop digit s numeric_loop_ok). Qed.

(** X5.  [str_is_alpha] returns 1 exactly when the text is present, not
    empty and made of letters only, and 0 otherwise. *)
Theorem str_is_alpha_spec (s : option (list Z)) :
  (str_is_alpha s = 1 <-> units s <> [] /\ Forall letter (units s)) /\
  (str_is_alpha s = 0 \/ str_is_alpha s = 1).
Proof. exact (validation_shape alpha_loop letter s alpha_loop_ok). Qed.

(** X6.  [str_is_alpha_numeric] returns 1 exactly when the text is
    present, not empty and made of letters and decimal digits only, and
    0 otherwise; so it accepts every text that [str_is_numeric] or
    [str_is_alpha] accepts. *)
Theorem str_is_alpha_numeric_spec (s : option (list Z)) :
  (str_is_alpha_numeric s = 1
   <-> units s <> [] /\ Forall (fun u => letter u \/ digit u) (units s)) /\
  (str_is_alpha_numeric s = 0 \/ str_is_alpha_numeric s = 1) /\
  (str_is_numeric s = 1 \/ str_is_alpha s = 1 -> str_is_alpha_numeric s = 1).
Proof.
  pose proof (validation_shape alpha_numeric_loop _ s alpha_numeric_loop_ok)
    as [Han H01].
  pose proof (validation_shape numeric_loop _ s numeric_loop_ok) as [Hn _].
  pose proof (validation_shape alpha_loop _ s alpha_loop_ok) as [Ha _].
  cbv zeta in Han, H01, Hn, Ha.
  split; [exact Han|]. split; [exact H01|].
  intros [H|H].
  - apply Hn in H as [Hne Hall]. apply Han. split; [exact Hne|].
    eapply Forall_impl; [exact Hall|]. intros u Hu. now right.
  - apply Ha in H as [Hne Hall]. apply Han. split; [exact Hne|].
    eapply Forall_impl; [exact Hall|]. intros u Hu. now left.
Qed.

(** ** Equality of two texts *)

Lemma hd_peek (b : list Z) : hd 0 b = peek b 0.
Proof. destruct b; reflexivity. Qed.

Lemma equal_loop_ok (s1 s2 : list Z) :
  (equal_loop s1 s2 = 1 <-> content s1 = content s2) /\
  (equal_loop s1 s2 = 0 \/ equal_loop s1 s2 = 1).
Proof.
  revert s2. induction s1 as [|c s1 IH]; intros s2.
  - cbn [equal_loop]. rewrite hd_peek.
    change (content []) with (@nil Z).
    destruct (0 =? peek s2 0) eqn:E; bools.
    + symmetry in E. apply content_nil_peek in E. rewrite E.
      split; [now split | now right].
    + split; [|now left]. split; [lia|]. intros Hc. exfalso. apply E.
      symmetry. now apply content_nil_peek.
  - cbn [equal_loop]. rewrite content_cons.
    destruct (c =? 0) eqn:E0; cbn [negb andb].
    + bools. subst c. rewrite hd_peek.
      destruct (0 =? peek s2 0) eqn:E; bools.
      * symmetry in E. apply content_nil_peek in E. rewrite E.
        split; [now split | now right].
      * split; [|now left]. split; [lia|]. intros Hc. exfalso. apply E.
        symmetry. now apply content_nil_peek.
    + destruct (c =? hd 0 s2) eqn:E1; bools.
      * destruct s2 as [|d s2]; [simpl in E1; lia|].
        simpl in E1. subst d. cbn [tail]. rewrite content_cons.
        replace (c =? 0) with false by (symmetry; now apply Z.eqb_neq).
        destruct (IH s2) as [IH1 IH2]. split; [|exact IH2].
        rewrite IH1. split; [congruence|]. intros Hc. now inversion Hc.
      * split; [|now left]. split; [lia|]. intros Hc. exfalso.
        destruct s2 as [|d s2]; [discriminate Hc|].
        rewrite content_cons in Hc. simpl in E1.
        destruct (d =? 0); [discriminate Hc|]. inversion Hc. congruence.
Qed.

(** X7.  [str_is_equal] returns 1 exactly when both texts are absent,
    or both are present and hold the same units, and 0 otherwise (an
    absent text differs from an empty one); the order of the arguments
    does not matter. *)
Theorem str_is_equal_spec (s1 s2 : option (list Z)) :
  (str_is_equal s1 s2 = 1
   <-> match s1, s2 with
       | None, None => True
       | Some b1, Some b2 => content b1 = content b2
       | _, _ => False
       end) /\
  (str_is_equal s1 s2 = 0 \/ str_is_equal s1 s2 = 1) /\
  str_is_equal s1 s2 = str_is_equal s2 s1.
Proof.
  destruct s1 as [b1|], s2 as [b2|]; cbn [str_is_equal].
  - destruct (equal_loop_ok b1 b2) as [H1 H2].
    destruct (equal_loop_ok b2 b1) as [H3 H4].
    split; [exact H1|]. split; [exact H2|].
    destruct H2 as [H2|H2], H4 as [H4|H4]; try congruence.
    + apply H3 in H4. symmetry in H4. apply H1 in H4. congruence.
    + apply H1 in H2. symmetry in H2. apply H3 in H2. congruence.
  - split; [|split; [now left | reflexivity]]. split; [lia | tauto].
  - split; [|split; [now left | reflexivity]]. split; [lia | tauto].
  - split; [|split; [now right | reflexivity]]. now split.
Qed.

(** ** Replacing a unit in place *)

Lemma content_app_stop (t rest : list Z) :
  peek rest 0 = 0 -> content (t ++ rest) = content t.
Proof.
  intros Hrest. induction t as [|u t IH].
  - simpl. apply content_nil_peek. exact Hrest.
  - simpl. rewrite !content_cons, IH. reflexivity.
Qed.

Lemma content_of_nonzero (t : list Z) : nonzero t -> content t = t.
Proof.
  induction 1 as [|u t Hu _ IH]; [reflexivity|].
  rewrite content_cons, IH.
  now replace (u =? 0) with false by (symmetry; now apply Z.eqb_neq).
Qed.

Lemma peek_drop_scan (b : list Z) : peek (drop (c_scan b) b) 0 = 0.
Proof.
  induction b as [|c b IH]; [reflexivity|].
  simpl c_scan. destruct (c =? 0) eqn:E; bools.
  - simpl. now rewrite peek_0.
  - exact IH.
Qed.

Lemma content_drop_scan (b : list Z) : content b ++ drop (c_scan b) b = b.
Proof. unfold content. apply take_drop. Qed.

Lemma replace_loop_cells (find replace : Z) (b : list Z) :
  replace_loop find replace b
  = map (replaced find replace) (content b) ++ drop (c_scan b) b.
Proof.
  induction b as [|c b IH]; [reflexivity|].
  rewrite content_cons. cbn [replace_loop c_scan].
  destruct (c =? 0) eqn:E; [reflexivity|].
  cbn [map drop app]. now rewrite IH.
Qed.

Lemma content_replaced (find replace : Z) (t : list Z) :
  nonzero t ->
  content (map (replaced find replace) t)
  = if replace =? 0 then before find t else map (replaced find replace) t.
Proof.
  induction 1 as [|u t Hu Ht IH].
  - now destruct (replace =? 0).
  - cbn [map before]. rewrite content_cons, IH.
    assert (Hr : replaced find replace u = if u =? find then replace else u)
      by reflexivity.
    rewrite !Hr.
    destruct (replace =? 0) eqn:Er, (u =? find) eqn:Eu; bools.
    + subst replace. reflexivity.
    + now replace (u =? 0) with false by (symmetry; now apply Z.eqb_neq).
    + now replace (replace =? 0) with false
        by (symmetry; now apply Z.eqb_neq).
    + now replace (u =? 0) with false by (symmetry; now apply Z.eqb_neq).
Qed.

Lemma length_before (d : Z) (t : list Z) :
  (length (before d t) <= length t)%nat.
Proof.
  induction t as [|u t IH]; simpl; [lia|].
  destruct (u =? d); simpl; lia.
Qed.

Lemma content_replace_loop (find replace : Z) (b : list Z) :
  content (replace_loop find replace b)
  = if replace =? 0 then before find (content b)
    else map (replaced find replace) (content b).
Proof.
  rewrite replace_loop_cells, content_app_stop by apply peek_drop_scan.
  apply content_replaced, content_nonzero.
Qed.

(** X8.  [str_replace_char] with a replacement other than the zero unit
    leaves the text with every occurrence of [find] replaced; with the
    zero unit as the replacement it cuts the text at the first
    occurrence of [find].  The text never gets longer, and a search for
    the zero unit changes nothing. *)
Theorem str_replace_char_spec (b : list Z) (find replace : Z) :
  units (str_replace_char (Some b) find replace)
  = (if replace =? 0 then before find (content b)
     else map (replaced find replace) (content b)) /\
  (length (units (str_replace_char (Some b) find replace))
   <= length (content b))%nat /\
  (find = 0 -> str_replace_char (Some b) find replace = Some b).
Proof.
  cbn [str_replace_char units]. rewrite content_replace_loop.
  split; [reflexivity|]. split.
  - destruct (replace =? 0); [apply length_before|].
    now rewrite length_map.
  - intros ->. f_equal. rewrite replace_loop_cells.
    assert (Hid : map (replaced 0 replace) (content b) = content b).
    { pose proof (content_nonzero b) as Hnz.
      induction Hnz as [|u t Hu _ IH]; [reflexivity|].
      cbn [map]. rewrite IH. unfold replaced.
      now replace (u =? 0) with false by (symmetry; now apply Z.eqb_neq). }
    rewrite Hid. apply content_drop_scan.
Qed.

(** ** Case conversions in place *)

Lemma capitalize_idem (c : Z) :
  char_capitalize (char_capitalize c) = char_capitalize c.
Proof. unfold char_capitalize. compare_cases; lia. Qed.

Lemma decapitalize_idem (c : Z) :
  char_decapitalize (char_decapitalize c) = char_decapitalize c.
Proof. unfold char_decapitalize. compare_cases; lia. Qed.

Lemma capitalize_decapitalize (c : Z) :
  char_capitalize (char_decapitalize c) = char_capitalize c.
Proof. unfold char_capitalize, char_decapitalize. compare_cases; lia. Qed.

Lemma decapitalize_capitalize (c : Z) :
  char_decapitalize (char_capitalize c) = char_decapitalize c.
Proof. unfold char_capitalize, char_decapitalize. compare_cases; lia. Qed.

Lemma capitalize_zero (c : Z) : (char_capitalize c =? 0) = (c =? 0).
Proof. unfold char_capitalize. compare_cases; lia. Qed.

Lemma decapitalize_zero (c : Z) : (char_decapitalize c =? 0) = (c =? 0).
Proof. unfold char_decapitalize. compare_cases; lia. Qed.

Lemma whitespace_capitalize (c : Z) :
  is_whitespace c = false -> is_whitespace (char_capitalize c) = false.
Proof.
  unfold is_whitespace, char_capitalize. intros H. bools.
  compare_cases; lia.
Qed.

Lemma whitespace_decapitalize (c : Z) :
  is_whitespace c = false -> is_whitespace (char_decapitalize c) = false.
Proof.
  unfold is_whitespace, char_decapitalize. intros H. bools.
  compare_cases; lia.
Qed.

Lemma capitalize_whitespace (c : Z) :
  is_whitespace c = true ->
  char_capitalize c = c /\ char_decapitalize c = c.
Proof.
  intros H. apply is_whitespace_units in H.
  unfold char_capitalize, char_decapitalize. compare_cases; lia.
Qed.

Lemma uppercase_uppercase (b : list Z) :
  uppercase_loop (uppercase_loop b) = uppercase_loop b.
Proof.
  induction b as [|c b IH]; [reflexivity|]. cbn [uppercase_loop].
  destruct (c =? 0) eqn:E; cbn [uppercase_loop]; [now rewrite E|].
  now rewrite capitalize_zero, E, capitalize_idem, IH.
Qed.

Lemma lowercase_lowercase (b : list Z) :
  lowercase_loop (lowercase_loop b) = lowercase_loop b.
Proof.
  induction b as [|c b IH]; [reflexivity|]. cbn [lowercase_loop].
  destruct (c =? 0) eqn:E; cbn [lowercase_loop]; [now rewrite E|].
  now rewrite decapitalize_zero, E, decapitalize_idem, IH.
Qed.

Lemma lowercase_uppercase (b : list Z) :
  lowercase_loop (uppercase_loop b) = lowercase_loop b.
Proof.
  induction b as [|c b IH]; [reflexivity|].
  cbn [uppercase_loop lowercase_loop].
  destruct (c =? 0) eqn:E; cbn [lowercase_loop]; [now rewrite E|].
  now rewrite capitalize_zero, E, decapitalize_capitalize, IH.
Qed.

Lemma uppercase_lowercase (b : list Z) :
  uppercase_loop (lowercase_loop b) = uppercase_loop b.
Proof.
  induction b as [|c b IH]; [reflexivity|].
  cbn [uppercase_loop lowercase_loop].
  destruct (c =? 0) eqn:E; cbn [uppercase_loop]; [now rewrite E|].
  now rewrite decapitalize_zero, E, capitalize_decapitalize, IH.
Qed.

Lemma title_title (flag : bool) (b : list Z) :
  title_loop flag (title_loop flag b) = title_loop flag b.
Proof.
  revert flag. induction b as [|c b IH]; intros flag; [reflexivity|].
  cbn [title_loop].
  destruct (c =? 0) eqn:E; cbn [title_loop]; [now rewrite E|].
  destruct (is_whitespace c) eqn:Ew; cbn [title_loop].
  - now rewrite E, Ew, IH.
  - destruct flag; cbn [title_loop].
    + now rewrite capitalize_zero, E, (whitespace_capitalize _ Ew),
        capitalize_idem, IH.
    + now rewrite decapitalize_zero, E, (whitespace_decapitalize _ Ew),
        decapitalize_idem, IH.
Qed.

Lemma uppercase_title (flag : bool) (b : list Z) :
  uppercase_loop (title_loop flag b) = uppercase_loop b.
Proof.
  revert flag. induction b as [|c b IH]; intros flag; [reflexivity|].
  cbn [title_loop uppercase_loop].
  destruct (c =? 0) eqn:E; cbn [uppercase_loop]; [now rewrite E|].
  destruct (is_whitespace c) eqn:Ew; cbn [uppercase_loop].
  - now rewrite E, IH.
  - destruct flag; cbn [uppercase_loop].
    + now rewrite capitalize_zero, E, capitalize_idem, IH.
    + now rewrite decapitalize_zero, E, capitalize_decapitalize, IH.
Qed.

Lemma lowercase_title (flag : bool) (b : list Z) :
  lowercase_loop (title_loop flag b) = lowercase_loop b.
Proof.
  revert flag. induction b as [|c b IH]; intros flag; [reflexivity|].
  cbn [title_loop lowercase_loop].
  destruct (c =? 0) eqn:E; cbn [lowercase_loop]; [now rewrite E|].
  destruct (is_whitespace c) eqn:Ew; cbn [lowercase_loop].
  - now rewrite E, IH.
  - destruct flag; cbn [lowercase_loop].
    + now rewrite capitalize_zero, E, decapitalize_capitalize, IH.
    + now rewrite decapitalize_zero, E, decapitalize_idem, IH.
Qed.

Lemma c_scan_content (b : list Z) : c_scan b = length (content b).
Proof. now rewrite length_content. Qed.

(** X9.  The in-place case conversions compose as expected on the whole
    buffer: each is idempotent, converting to one case makes an earlier
    conversion to the other case or to title case irrelevant, and none
    of them changes the length of the text. *)
Theorem case_conversions_compose (text : option (list Z)) :
  str_uppercase (str_uppercase text) = str_uppercase text /\
  str_lowercase (str_lowercase text) = str_lowercase text /\
  str_title (str_title text) = str_title text /\
  str_lowercase (str_uppercase text) = str_lowercase text /\
  str_uppercase (str_lowercase text) = str_uppercase text /\
  str_uppercase (str_title text) = str_uppercase text /\
  str_lowercase (str_title text) = str_lowercase text /\
  str_len (str_uppercase text) = str_len text /\
  str_len (str_lowercase text) = str_len text /\
  str_len (str_title text) = str_len text.
Proof.
  destruct text as [b|]; [|now repeat split].
  cbn [str_uppercase str_lowercase str_title str_len].
  rewrite uppercase_uppercase, lowercase_lowercase, title_title,
    lowercase_uppercase, uppercase_lowercase, uppercase_title,
    lowercase_title.
  rewrite (c_scan_content (uppercase_loop b)),
    (c_scan_content (lowercase_loop b)),
    (c_scan_content (title_loop true b)).
  rewrite content_uppercase, content_lowercase, content_title.
  rewrite !length_map, length_title_case, length_content.
  now repeat split.
Qed.

(** ** The search for a substring *)

Lemma match_loop_ok (needle h : list Z) :
  match_loop needle h = true <-> content needle `prefix_of` content h.
Proof.
  revert h. induction needle as [|n needle IH]; intros h.
  - split; [intros _; apply prefix_nil | reflexivity].
  - cbn [match_loop]. rewrite content_cons.
    destruct (n =? 0) eqn:En.
    { split; [intros _; apply prefix_nil | reflexivity]. }
    destruct h as [|c h].
    { split; [discriminate|]. intros Hp. now apply prefix_nil_not in Hp. }
    rewrite content_cons.
    destruct (c =? 0) eqn:Ec; cbn [negb andb].
    { split; [discriminate|]. intros Hp. now apply prefix_nil_not in Hp. }
    destruct (n =? c) eqn:Enc; bools.
    + subst c. rewrite IH. split; [apply prefix_cons|].
      apply prefix_cons_inv_2.
    + split; [discriminate|]. intros Hp.
      apply prefix_cons_inv_1 in Hp. contradiction.
Qed.

Lemma occurs_at_nil (s : list Z) (i : nat) : s <> [] -> ~ occurs_at s [] i.
Proof.
  unfold occurs_at. intros Hs Hp. rewrite drop_nil in Hp.
  now apply prefix_nil_inv in Hp.
Qed.

Lemma index_of_str_loop_ok (s haystack : list Z) (pos : Z) :
  content s <> [] ->
  0 <= pos -> pos + Z.of_nat (c_scan haystack) <= INT_MAX ->
  ((forall i, ~ occurs_at (content s) (content haystack) i) /\
   index_of_str_loop s haystack pos = -1) \/
  (exists i : nat,
     occurs_at (content s) (content haystack) i /\
     (forall k, (k < i)%nat -> ~ occurs_at (content s) (content haystack) k) /\
     index_of_str_loop s haystack pos = pos + Z.of_nat i).
Proof.
  intros Hs. revert pos.
  induction haystack as [|c hs IH]; intros pos Hpos Hmax.
  - left. split; [|reflexivity]. intros i. now apply occurs_at_nil.
  - cbn [index_of_str_loop]. simpl c_scan in Hmax.
    destruct (c =? 0) eqn:Ec.
    { left. split; [|reflexivity]. rewrite content_cons, Ec.
      intros i. now apply occurs_at_nil. }
    destruct (match_loop s (c :: hs)) eqn:Em.
    + right. exists 0%nat. apply match_loop_ok in Em.
      split; [exact Em|]. split; [intros k Hk; lia|].
      rewrite to_int_id by (unfold INT_MIN; lia). lia.
    + assert (H0 : ~ occurs_at (content s) (content (c :: hs)) 0).
      { unfold occurs_at. rewrite drop_0, <- match_loop_ok, Em.
        discriminate. }
      assert (Hshift : forall i,
                occurs_at (content s) (content (c :: hs)) (S i)
                <-> occurs_at (content s) (content hs) i).
      { intros i. unfold occurs_at. now rewrite content_cons, Ec. }
      destruct (IH (pos + 1)) as [[Hn Hr]|[i [Hi [Hn Hr]]]]; [lia|lia| |].
      * left. split; [|exact Hr]. intros [|i]; [exact H0|].
        rewrite Hshift. apply Hn.
      * right. exists (S i). split; [now apply Hshift|]. split.
        -- intros [|k] Hk; [exact H0|]. rewrite Hshift. apply Hn. lia.
        -- rewrite Hr. lia.
Qed.

(** The two outcomes of [index_of_str] on present arguments. *)
Lemma index_of_str_cases (b s : list Z) :
  fits b ->
  ((forall i, ~ occurs_at (content s) (content b) i) /\
   index_of_str (Some b) (Some s) = -1) \/
  (exists i : nat,
     occurs_at (content s) (content b) i /\
     (forall k, (k < i)%nat -> ~ occurs_at (content s) (content b) k) /\
     index_of_str (Some b) (Some s) = Z.of_nat i).
Proof.
  intros Hb. cbn [index_of_str].
  destruct (peek s 0 =? 0) eqn:E; bools.
  - right. exists 0%nat. apply content_nil_peek in E. rewrite E.
    split; [apply prefix_nil|]. split; [intros k Hk; lia | reflexivity].
  - rewrite <- content_nil_peek in E.
    destruct (index_of_str_loop_ok s b 0 E) as [H|[i [H1 [H2 H3]]]];
      [lia | unfold fits in Hb; lia | now left |].
    right. exists i. rewrite H3. now repeat split.
Qed.

(** X10.  On present arguments, the text's length fitting [int],
    [index_of_str] returns [i] exactly when the substring occurs at
    offset [i] of the text and at no offset before, and returns -1
    exactly when it occurs nowhere; the empty substring occurs at offset
    0 of every text.  An absent argument gives -1. *)
Theorem index_of_str_first (b s : list Z) :
  fits b ->
  (forall i : nat,
     index_of_str (Some b) (Some s) = Z.of_nat i
     <-> occurs_at (content s) (content b) i /\
         forall k, (k < i)%nat -> ~ occurs_at (content s) (content b) k) /\
  (index_of_str (Some b) (Some s) = -1
   <-> forall i, ~ occurs_at (content s) (content b) i) /\
  (content s = [] -> index_of_str (Some b) (Some s) = 0) /\
  index_of_str None (Some s) = -1 /\
  index_of_str (Some b) None = -1.
Proof.
  intros Hb.
  destruct (index_of_str_cases b s Hb) as [[Hn Hr]|[j [Hj [Hn Hr]]]];
    rewrite Hr.
  - split; [|split; [tauto|split; [|now split]]].
    + intros i. split; [lia|]. intros [Hi _]. now apply Hn in Hi.
    + intros Hs. exfalso. apply (Hn 0%nat). rewrite Hs. apply prefix_nil.
  - split; [|split; [|split; [|now split]]].
    + intros i. split.
      * intros Hij. assert (i = j) by lia. subst i. now split.
      * intros [Hi Hni]. f_equal.
        destruct (Nat.lt_trichotomy i j) as [Hlt|[Heq|Hlt]];
          [|now symmetry|].
        -- now apply Hn in Hlt.
        -- now apply Hni in Hlt.
    + split; [lia|]. intros Hno. now apply Hno in Hj.
    + intros Hs. destruct j as [|j]; [reflexivity|].
      exfalso. apply (Hn 0%nat); [lia|]. rewrite Hs. apply prefix_nil.
Qed.

Lemma index_of_str_first_witness :
  fits (lit "hello") /\
  (forall i : nat,
     index_of_str (Some (lit "hello")) (Some (lit "ll")) = Z.of_nat i
     <-> occurs_at (content (lit "ll")) (content (lit "hello")) i /\
         forall k, (k < i)%nat ->
                   ~ occurs_at (content (lit "ll")) (content (lit "hello")) k) /\
  (index_of_str (Some (lit "hello")) (Some (lit "ll")) = -1
   <-> forall i, ~ occurs_at (content (lit "ll")) (content (lit "hello")) i) /\
  (content (lit "ll") = [] ->
   index_of_str (Some (lit "hello")) (Some (lit "ll")) = 0) /\
  index_of_str None (Some (lit "ll")) = -1 /\
  index_of_str (Some (lit "hello")) None = -1.
Proof.
  assert (H : fits (lit "hello")) by (unfold fits, INT_MAX; simpl; lia).
  split; [exact H|]. exact (index_of_str_first (lit "hello") (lit "ll") H).
Defined.

Lemma occurs_at_infix (s t : list Z) :
  (exists i, occurs_at s t i) <-> exists pre post, t = pre ++ s ++ post.
Proof.
  split.
  - intros [i [post Hi]]. exists (take i t), post.
    now rewrite <- Hi, take_drop.
  - intros [pre [post ->]]. exists (length pre). exists post.
    now rewrite drop_app_length.
Qed.

(** X11.  On present arguments, the text's length fitting [int],
    [str_contains] returns 1 exactly when the substring occurs somewhere
    in the text, and 0 otherwise; it returns 0 when an argument is
    absent. *)
Theorem str_contains_infix (b s : list Z) :
  fits b ->
  (str_contains (Some b) (Some s) = 1
   <-> exists pre post, content b = pre ++ content s ++ post) /\
  (str_contains (Some b) (Some s) = 0 \/ str_contains (Some b) (Some s) = 1) /\
  str_contains None (Some s) = 0 /\
  str_contains (Some b) None = 0.
Proof.
  intros Hb. rewrite <- occurs_at_infix. unfold str_contains.
  destruct (index_of_str_cases b s Hb) as [[Hn Hr]|[j [Hj [Hn Hr]]]];
    rewrite Hr.
  - change (-1 >=? 0) with false. cbv iota.
    split; [|split; [now left | now split]].
    split; [lia|]. intros [i Hi]. now apply Hn in Hi.
  - replace (Z.of_nat j >=? 0) with true by (symmetry; rewrite Z.geb_leb; lia).
    split; [|split; [now right | now split]].
    split; [|reflexivity]. intros _. now exists j.
Qed.

Lemma str_contains_infix_witness :
  fits (lit "hello") /\
  (str_contains (Some (lit "hello")) (Some (lit "ll")) = 1
   <-> exists pre post,
         content (lit "hello") = pre ++ content (lit "ll") ++ post) /\
  (str_contains (Some (lit "hello")) (Some (lit "ll")) = 0 \/
   str_contains (Some (lit "hello")) (Some (lit "ll")) = 1) /\
  str_contains None (Some (lit "ll")) = 0 /\
  str_contains (Some (lit "hello")) None = 0.
Proof.
  assert (H : fits (lit "hello")) by (unfold fits, INT_MAX; simpl; lia).
  split; [exact H|]. exact (str_contains_infix (lit "hello") (lit "ll") H).
Defined.

(** ** Reversal in place and palindromes *)

Lemma peek_app_mid (pre : list Z) (x : Z) (post : list Z) :
  peek (pre ++ x :: post) (Z.of_nat (length pre)) = x.
Proof.
  apply peek_lookup. now rewrite lookup_app_r, Nat.sub_diag by lia.
Qed.

Lemma poke_app_mid (pre : list Z) (x : Z) (post : list Z) (v : Z) :
  poke (pre ++ x :: post) (Z.of_nat (length pre)) v = pre ++ v :: post.
Proof.
  unfold poke.
  destruct (Z.of_nat (length pre) <? 0) eqn:E1; [bools; lia|].
  destruct (Z.of_nat (length pre) <? Z.of_nat (length (pre ++ x :: post)))
    eqn:E2.
  - rewrite Nat2Z.id, insert_app_r_alt, Nat.sub_diag by lia. reflexivity.
  - bools. rewrite length_app in E2. simpl in E2. lia.
Qed.

(** A list of two units or more has a first and a last one. *)
Lemma two_ends (mid : list Z) :
  (2 <= length mid)%nat -> exists x m y, mid = x :: m ++ [y].
Proof.
  intros Hlen. destruct mid as [|x mid]; [simpl in Hlen; lia|].
  induction mid as [|y m _] using rev_ind; [simpl in Hlen; lia|].
  now exists x, m, y.
Qed.

Lemma reverse_loop_mid (fuel : nat) (pre mid post : list Z) :
  (length mid <= S fuel)%nat ->
  reverse_loop fuel (pre ++ mid ++ post) (Z.of_nat (length pre))
    (Z.of_nat (length pre) + Z.of_nat (length mid) - 1)
  = pre ++ rev mid ++ post.
Proof.
  revert pre mid post. induction fuel as [|fuel IH]; intros pre mid post Hlen.
  - destruct mid as [|x [|y mid]]; [reflexivity|reflexivity|simpl in Hlen; lia].
  - cbn [reverse_loop].
    destruct (Z.of_nat (length pre)
              <? Z.of_nat (length pre) + Z.of_nat (length mid) - 1) eqn:E;
      bools.
    + destruct (two_ends mid) as [x [m [y ->]]]; [lia|].
      rewrite length_cons, length_app in *. cbn [length] in *.
      assert (Hb : pre ++ (x :: m ++ [y]) ++ post
                   = (pre ++ x :: m) ++ y :: post).
      { cbn [app]. now rewrite <- !app_assoc. }
      assert (He : Z.of_nat (length pre) + Z.of_nat (S (length m + 1)) - 1
                   = Z.of_nat (length (pre ++ x :: m))).
      { rewrite length_app. cbn [length]. lia. }
      rewrite He.
      assert (Hx : peek (pre ++ (x :: m ++ [y]) ++ post)
                     (Z.of_nat (length pre)) = x).
      { cbn [app]. apply peek_app_mid. }
      assert (Hy : peek (pre ++ (x :: m ++ [y]) ++ post)
                     (Z.of_nat (length (pre ++ x :: m))) = y).
      { rewrite Hb. apply peek_app_mid. }
      rewrite Hx, Hy.
      assert (H1 : poke (pre ++ (x :: m ++ [y]) ++ post)
                     (Z.of_nat (length pre)) y
                   = (pre ++ y :: m) ++ y :: post).
      { cbn [app]. rewrite poke_app_mid. cbn [app].
        now rewrite <- !app_assoc. }
      rewrite H1.
      replace (length (pre ++ x :: m)) with (length (pre ++ y :: m))
        by (rewrite !length_app; reflexivity).
      rewrite poke_app_mid.
      replace ((pre ++ y :: m) ++ x :: post)
        with ((pre ++ [y]) ++ m ++ x :: post)
        by (now rewrite <- !app_assoc).
      replace (Z.of_nat (length pre) + 1)
        with (Z.of_nat (length (pre ++ [y])))
        by (rewrite length_app; cbn [length]; lia).
      replace (Z.of_nat (length (pre ++ y :: m)) - 1)
        with (Z.of_nat (length (pre ++ [y])) + Z.of_nat (length m) - 1)
        by (rewrite !length_app; cbn [length]; lia).
      rewrite IH by lia.
      cbn [rev]. rewrite rev_app_distr. cbn [rev app].
      now rewrite <- !app_assoc.
    + destruct mid as [|x [|y mid]];
        [reflexivity | reflexivity | simpl in E; lia].
Qed.

Lemma rev_nonzero (t : list Z) : nonzero t -> nonzero (rev t).
Proof. apply Forall_rev. Qed.

(** The buffer that [str_reverse] leaves. *)
Lemma str_reverse_cells (b : list Z) :
  fits b ->
  str_reverse (Some b) = Some (rev (content b) ++ drop (c_scan b) b).
Proof.
  intros Hb. unfold str_reverse. rewrite (str_len_fits _ Hb). cbv zeta.
  f_equal.
  pose proof (reverse_loop_mid (Z.to_nat (Z.of_nat (c_scan b) - 1)) []
                (content b) (drop (c_scan b) b)) as H.
  rewrite length_content in H. cbn [app length] in H.
  rewrite content_drop_scan in H. apply H. lia.
Qed.

Lemma content_reversed (b : list Z) :
  content (rev (content b) ++ drop (c_scan b) b) = rev (content b).
Proof.
  rewrite content_app_stop by apply peek_drop_scan.
  apply content_of_nonzero, rev_nonzero, content_nonzero.
Qed.

(** X12.  For a buffer whose length fits [int], [str_reverse] leaves the
    units of the text in reverse order and every cell from the
    terminator on as it was; reversing twice gives the buffer back. *)
Theorem str_reverse_spec (b : list Z) :
  fits b ->
  str_reverse (Some b) = Some (rev (content b) ++ drop (c_scan b) b) /\
  units (str_reverse (Some b)) = rev (content b) /\
  str_reverse (str_reverse (Some b)) = Some b.
Proof.
  intros Hb. rewrite (str_reverse_cells _ Hb).
  split; [reflexivity|]. split; [apply content_reversed|].
  assert (Hscan : c_scan (rev (content b) ++ drop (c_scan b) b) = c_scan b).
  { now rewrite c_scan_content, content_reversed, length_rev,
      length_content. }
  rewrite str_reverse_cells by (unfold fits in *; now rewrite Hscan).
  rewrite content_reversed, rev_involutive, Hscan.
  rewrite drop_app_length' by now rewrite length_rev, length_content.
  now rewrite content_drop_scan.
Qed.

Lemma str_reverse_spec_witness :
  fits (lit "abc") /\
  str_reverse (Some (lit "abc"))
  = Some (rev (content (lit "abc"))
          ++ drop (c_scan (lit "abc")) (lit "abc")) /\
  units (str_reverse (Some (lit "abc"))) = rev (content (lit "abc")) /\
  str_reverse (str_reverse (Some (lit "abc"))) = Some (lit "abc").
Proof.
  assert (H : fits (lit "abc")) by (unfold fits, INT_MAX; simpl; lia).
  split; [exact H|]. exact (str_reverse_spec (lit "abc") H).
Defined.

Lemma palindrome_loop_mid (fuel : nat) (pre mid post : list Z) :
  (length mid <= S fuel)%nat ->
  let r := palindrome_loop fuel (pre ++ mid ++ post) (Z.of_nat (length pre))
             (Z.of_nat (length pre) + Z.of_nat (length mid) - 1) in
  (r = 1 <-> rev mid = mid) /\ (r = 0 \/ r = 1).
Proof.
  revert pre mid post. induction fuel as [|fuel IH]; intros pre mid post Hlen.
  - destruct mid as [|x [|y mid]]; [| |simpl in Hlen; lia];
      (split; [now split | now right]).
  - cbn [palindrome_loop].
    destruct (Z.of_nat (length pre)
              <? Z.of_nat (length pre) + Z.of_nat (length mid) - 1) eqn:E;
      bools.
    + destruct (two_ends mid) as [x [m [y ->]]]; [lia|].
      rewrite length_cons, length_app in *. cbn [length] in *.
      assert (Hb : pre ++ (x :: m ++ [y]) ++ post
                   = (pre ++ x :: m) ++ y :: post).
      { cbn [app]. now rewrite <- !app_assoc. }
      assert (He : Z.of_nat (length pre) + Z.of_nat (S (length m + 1)) - 1
                   = Z.of_nat (length (pre ++ x :: m))).
      { rewrite length_app. cbn [length]. lia. }
      rewrite He.
      assert (Hx : peek (pre ++ (x :: m ++ [y]) ++ post)
                     (Z.of_nat (length pre)) = x).
      { cbn [app]. apply peek_app_mid. }
      assert (Hy : peek (pre ++ (x :: m ++ [y]) ++ post)
                     (Z.of_nat (length (pre ++ x :: m))) = y).
      { rewrite Hb. apply peek_app_mid. }
      rewrite Hx, Hy.
      assert (Hrev : rev (x :: m ++ [y]) = y :: rev m ++ [x]).
      { cbn [rev]. rewrite rev_app_distr. reflexivity. }
      rewrite Hrev.
      destruct (x =? y) eqn:Exy; cbn [negb]; bools.
      * subst y.
        replace (pre ++ (x :: m ++ [x]) ++ post)
          with ((pre ++ [x]) ++ m ++ (x :: post))
          by (cbn [app]; now rewrite <- !app_assoc).
        replace (Z.of_nat (length pre) + 1)
          with (Z.of_nat (length (pre ++ [x])))
          by (rewrite length_app; cbn [length]; lia).
        replace (Z.of_nat (length (pre ++ x :: m)) - 1)
          with (Z.of_nat (length (pre ++ [x])) + Z.of_nat (length m) - 1)
          by (rewrite !length_app; cbn [length]; lia).
        destruct (IH (pre ++ [x]) m (x :: post)) as [IH1 IH2]; [lia|].
        cbv zeta in IH1, IH2. split; [|exact IH2].
        rewrite IH1. split; [intros ->; reflexivity|].
        intros Heq. inversion Heq as [Heq']. now apply app_inv_tail in Heq'.
      * split; [|now left]. split; [lia|].
        intros Heq. inversion Heq. congruence.
    + destruct mid as [|x [|y mid]]; [| |simpl in E; lia];
        (split; [now split | now right]).
Qed.

(** X13.  For a buffer whose length fits [int], [str_is_palindrome]
    returns 1 exactly when the text reads the same in both directions,
    that is, when [str_reverse] leaves the text as it is, and 0
    otherwise; an absent text is no palindrome. *)
Theorem str_is_palindrome_spec (b : list Z) :
  fits b ->
  (str_is_palindrome (Some b) = 1 <-> rev (content b) = content b) /\
  (str_is_palindrome (Some b) = 1
   <-> units (str_reverse (Some b)) = units (Some b)) /\
  (str_is_palindrome (Some b) = 0 \/ str_is_palindrome (Some b) = 1) /\
  str_is_palindrome None = 0.
Proof.
  intros Hb.
  assert (H : (str_is_palindrome (Some b) = 1 <-> rev (content b) = content b)
              /\ (str_is_palindrome (Some b) = 0
                  \/ str_is_palindrome (Some b) = 1)).
  { unfold str_is_palindrome. rewrite (str_len_fits _ Hb). cbv zeta.
    destruct (Z.of_nat (c_scan b) <=? 1) eqn:E; bools.
    - split; [|now right]. split; [|reflexivity]. intros _.
      pose proof (length_content b) as Hl.
      destruct (content b) as [|x [|y t]]; [reflexivity|reflexivity|].
      simpl in Hl. lia.
    - pose proof (palindrome_loop_mid (Z.to_nat (Z.of_nat (c_scan b) - 1)) []
                    (content b) (drop (c_scan b) b)) as H.
      rewrite length_content in H. cbn [app length] in H.
      rewrite content_drop_scan in H. apply H. lia. }
  destruct H as [H1 H2].
  split; [exact H1|]. split; [|split; [exact H2 | reflexivity]].
  rewrite H1, (str_reverse_cells _ Hb). cbn [units].
  now rewrite content_reversed.
Qed.

Lemma str_is_palindrome_spec_witness :
  fits (lit "level") /\
  (str_is_palindrome (Some (lit "level")) = 1
   <-> rev (content (lit "level")) = content (lit "level")) /\
  (str_is_palindrome (Some (lit "level")) = 1
   <-> units (str_reverse (Some (lit "level"))) = units (Some (lit "level"))) /\
  (str_is_palindrome (Some (lit "level")) = 0
   \/ str_is_palindrome (Some (lit "level")) = 1) /\
  str_is_palindrome None = 0.
Proof.
  assert (H : fits (lit "level")) by (unfold fits, INT_MAX; simpl; lia).
  split; [exact H|]. exact (str_is_palindrome_spec (lit "level") H).
Defined.

(** ** Capitalising the first unit in place *)

(** The text with its first unit capitalised. *)
Lemma content_capitalize (b : list Z) :
  units (str_capitalize (Some b))
  = match content b with
    | [] => []
    | u :: t => char_capitalize u :: t
    end.
Proof.
  cbn [str_capitalize]. destruct b as [|c b]; [reflexivity|].
  rewrite peek_0, content_cons.
  destruct (c =? 0) eqn:E; cbn [units]; [now rewrite content_cons, E|].
  change (poke (c :: b) 0 (char_capitalize c)) with (char_capitalize c :: b).
  now rewrite content_cons, capitalize_zero, E.
Qed.

(** ** Trimming one end in place *)

(** *** Texts without the whitespace at one end *)

Lemma drop_ws_app (ws r : list Z) :
  all_ws ws -> drop_ws (ws ++ r) = drop_ws r.
Proof.
  induction 1 as [|u ws Hu _ IH]; [reflexivity|].
  cbn [app drop_ws]. now rewrite Hu.
Qed.

Lemma drop_ws_head (r : list Z) :
  (forall u, head r = Some u -> is_whitespace u = false) -> drop_ws r = r.
Proof.
  destruct r as [|u r]; [reflexivity|]. intros H.
  cbn [drop_ws]. now rewrite (H u eq_refl).
Qed.

Lemma drop_ws_all (ws : list Z) : all_ws ws -> drop_ws ws = [].
Proof.
  intros H. rewrite <- (app_nil_r ws). now rewrite drop_ws_app.
Qed.

Lemma head_rev (r : list Z) : head (rev r) = last r.
Proof.
  induction r as [|x r _] using rev_ind; [reflexivity|].
  now rewrite rev_unit, last_snoc.
Qed.

Lemma drop_ws_end_app (r ws : list Z) :
  all_ws ws -> drop_ws_end (r ++ ws) = drop_ws_end r.
Proof.
  intros Hws. unfold drop_ws_end.
  now rewrite rev_app_distr, drop_ws_app by now apply Forall_rev.
Qed.

Lemma drop_ws_end_last (r : list Z) :
  (forall u, last r = Some u -> is_whitespace u = false) ->
  drop_ws_end r = r.
Proof.
  intros H. unfold drop_ws_end. rewrite drop_ws_head; [apply rev_involutive|].
  intros u Hu. apply H. now rewrite <- head_rev.
Qed.

Lemma drop_ws_end_all (ws : list Z) : all_ws ws -> drop_ws_end ws = [].
Proof.
  intros H. unfold drop_ws_end. now rewrite drop_ws_all by now apply Forall_rev.
Qed.

Lemma length_drop_ws (t : list Z) : (length (drop_ws t) <= length t)%nat.
Proof.
  induction t as [|u t IH]; simpl; [lia|].
  destruct (is_whitespace u); simpl; lia.
Qed.

Lemma length_drop_ws_end (t : list Z) :
  (length (drop_ws_end t) <= length t)%nat.
Proof.
  unfold drop_ws_end. rewrite length_rev, <- (length_rev t).
  apply length_drop_ws.
Qed.

(** A text in three parts, whitespace around a trimmed middle. *)
Lemma drop_ws_three (ws1 r ws2 : list Z) :
  all_ws ws1 -> all_ws ws2 -> trimmed r ->
  drop_ws (drop_ws_end (ws1 ++ r ++ ws2)) = r /\
  drop_ws_end (drop_ws (ws1 ++ r ++ ws2)) = r.
Proof.
  intros H1 H2 [Hh Hl].
  destruct r as [|x r].
  { cbn [app].
    assert (Hall : all_ws (ws1 ++ ws2)) by (apply Forall_app; now split).
    rewrite drop_ws_end_all, (drop_ws_all (ws1 ++ ws2)) by assumption.
    now split. }
  assert (Hd : drop_ws (ws1 ++ (x :: r) ++ ws2) = (x :: r) ++ ws2).
  { rewrite drop_ws_app by assumption. apply drop_ws_head.
    intros u Hu. apply Hh. exact Hu. }
  assert (He : drop_ws_end (ws1 ++ (x :: r) ++ ws2) = ws1 ++ x :: r).
  { rewrite app_assoc, drop_ws_end_app by assumption.
    apply drop_ws_end_last. intros u Hu. apply Hl.
    rewrite last_lookup in *. rewrite length_app in Hu. cbn [length] in *.
    rewrite lookup_app_r in Hu by lia.
    rewrite <- Hu. f_equal. lia. }
  rewrite Hd, He. split.
  - rewrite drop_ws_app by assumption. now apply drop_ws_head.
  - rewrite drop_ws_end_app by assumption. now apply drop_ws_end_last.
Qed.

Lemma drop_ws_split (t : list Z) :
  exists ws, t = ws ++ drop_ws t /\ all_ws ws.
Proof.
  induction t as [|u t [ws [IH1 IH2]]];
    [exists []; split; [reflexivity | constructor]|].
  cbn [drop_ws]. destruct (is_whitespace u) eqn:E.
  - exists (u :: ws). split; [|now constructor].
    now rewrite <- app_comm_cons, <- IH1.
  - exists []. split; [reflexivity | constructor].
Qed.

Lemma drop_ws_starts (t : list Z) (u : Z) :
  head (drop_ws t) = Some u -> is_whitespace u = false.
Proof.
  induction t as [|x t IH]; [discriminate|].
  cbn [drop_ws]. destruct (is_whitespace x) eqn:E; [exact IH|].
  now intros [= <-].
Qed.

Lemma drop_ws_end_split (t : list Z) :
  exists ws, t = drop_ws_end t ++ ws /\ all_ws ws.
Proof.
  destruct (drop_ws_split (rev t)) as [ws [H1 H2]].
  exists (rev ws). split; [|now apply Forall_rev].
  unfold drop_ws_end. rewrite <- rev_app_distr, <- H1.
  now rewrite rev_involutive.
Qed.

Lemma drop_ws_end_ends (t : list Z) (u : Z) :
  last (drop_ws_end t) = Some u -> is_whitespace u = false.
Proof.
  unfold drop_ws_end. rewrite <- head_rev, rev_involutive.
  apply drop_ws_starts.
Qed.

(** *** The scans and the copy *)

Lemma c_scan_drop (b : list Z) (n : nat) :
  (n <= c_scan b)%nat -> c_scan (drop n b) = (c_scan b - n)%nat.
Proof.
  revert n. induction b as [|c b IH]; intros n Hn.
  - now rewrite drop_nil.
  - destruct n as [|n]; [now rewrite Nat.sub_0_r|].
    simpl in Hn |- *. destruct (c =? 0); [lia|]. apply IH. lia.
Qed.

Lemma drop_skip_ws (b : list Z) :
  drop (skip_ws b) (content b) = drop_ws (content b).
Proof.
  induction b as [|c b IH]; [reflexivity|].
  rewrite content_cons. cbn [skip_ws].
  destruct (c =? 0) eqn:E; [reflexivity|]. cbn [negb andb drop_ws].
  destruct (is_whitespace c); [exact IH | reflexivity].
Qed.

Lemma slice_ext (b1 b2 : list Z) (s1 s2 : Z) (n : nat) :
  (forall k : nat, (k < n)%nat ->
     peek b1 (s1 + Z.of_nat k) = peek b2 (s2 + Z.of_nat k)) ->
  slice b1 s1 n = slice b2 s2 n.
Proof.
  intros H. unfold slice. apply map_ext_in. intros k Hk.
  apply in_seq in Hk. apply H. lia.
Qed.

(** The cells after the counted copy of [str_ltrim]. *)
Lemma ltrim_loop_peek (todo : nat) (b : list Z) (start i j : Z) :
  0 < start -> 0 <= i -> 0 <= j ->
  peek (ltrim_loop todo b start i) j
  = if (i <=? j) && (j <? i + Z.of_nat todo) then peek b (start + j)
    else peek b j.
Proof.
  intros Hstart. revert b i.
  induction todo as [|todo IH]; intros b i Hi Hj.
  - cbn [ltrim_loop].
    destruct ((i <=? j) && (j <? i + Z.of_nat 0)) eqn:E; [bools; lia|].
    reflexivity.
  - cbn [ltrim_loop]. rewrite IH by lia. rewrite !peek_poke by lia.
    destruct ((i + 1 <=? j) && (j <? i + 1 + Z.of_nat todo)) eqn:E1;
      destruct ((i <=? j) && (j <? i + Z.of_nat (S todo))) eqn:E2;
      destruct (start + j =? i) eqn:E3; destruct (j =? i) eqn:E4;
      bools; try lia; try reflexivity.
    now subst j.
Qed.

Lemma str_ltrim_content (b : list Z) :
  fits b -> units (str_ltrim (Some b)) = drop_ws (content b).
Proof.
  intros Hb. rewrite <- drop_skip_ws. cbn [str_ltrim].
  pose proof (skip_ws_le b) as Hle.
  destruct (Z.of_nat (skip_ws b) =? 0) eqn:E0; cbn [negb units]; bools.
  { now replace (skip_ws b) with 0%nat by lia. }
  assert (Hscan : c_scan (drop (skip_ws b) b) = (c_scan b - skip_ws b)%nat)
    by now apply c_scan_drop.
  assert (Hlen : to_size (str_len (Some (drop (skip_ws b) b)))
                 = Z.of_nat (c_scan b - skip_ws b)).
  { rewrite str_len_fits by (unfold fits in *; lia).
    rewrite Hscan. apply to_size_id. unfold fits, INT_MAX, ALLOC_MAX in *.
    lia. }
  rewrite Hlen.
  set (n := (c_scan b - skip_ws b)%nat).
  rewrite (content_first_nul _ n).
  - rewrite (slice_ext _ b 0 (Z.of_nat (skip_ws b)) n).
    + rewrite slice_content by lia.
      apply take_ge. rewrite length_drop, length_content. lia.
    + intros k Hk. rewrite ltrim_loop_peek by lia.
      destruct ((0 <=? 0 + Z.of_nat k)
                && (0 + Z.of_nat k <? 0 + Z.of_nat (Z.to_nat (Z.of_nat n + 1))))
        eqn:E; bools; [|lia|lia].
      reflexivity.
  - intros k Hk. rewrite ltrim_loop_peek by lia.
    destruct ((0 <=? Z.of_nat k)
              && (Z.of_nat k <? 0 + Z.of_nat (Z.to_nat (Z.of_nat n + 1))))
      eqn:E; bools; [|lia|lia].
    replace (Z.of_nat (skip_ws b) + Z.of_nat k)
      with (Z.of_nat (skip_ws b + k)) by lia.
    apply peek_before_scan. lia.
  - rewrite ltrim_loop_peek by lia.
    destruct ((0 <=? Z.of_nat n)
              && (Z.of_nat n <? 0 + Z.of_nat (Z.to_nat (Z.of_nat n + 1))))
      eqn:E; bools; [|lia|lia].
    replace (Z.of_nat (skip_ws b) + Z.of_nat n)
      with (Z.of_nat (c_scan b)) by lia.
    apply peek_scan.
Qed.

Lemma back_ws_all_spec (fuel : nat) (b : list Z) (e0 : Z) :
  -1 <= e0 -> e0 + 1 <= Z.of_nat fuel ->
  let e := back_ws_all fuel b e0 in
  -1 <= e <= e0 /\
  (forall k, e < k <= e0 -> is_whitespace (peek b k) = true) /\
  (e = -1 \/ is_whitespace (peek b e) = false).
Proof.
  revert e0. induction fuel as [|fuel IH]; intros e0 Hlo Hfuel; cbv zeta.
  - cbn [back_ws_all]. split; [lia|]. split; [intros k Hk; lia|]. left. lia.
  - cbn [back_ws_all].
    destruct ((e0 >=? 0) && is_whitespace (peek b e0)) eqn:E.
    + bools. destruct (IH (e0 - 1)) as [H1 [H2 H3]]; [lia|lia|].
      split; [lia|]. split; [|exact H3].
      intros k Hk. destruct (decide (k = e0)) as [->|Hne]; [assumption|].
      apply H2. lia.
    + split; [lia|]. split; [intros k Hk; lia|].
      bools; [left; lia | now right].
Qed.

(** What the backward scan of [str_rtrim] and [str_rtrim_n] finds: the
    number [m] of units that stay. *)
Lemma rtrim_scan (b : list Z) :
  let n := c_scan b in
  let e := back_ws_all n b (Z.of_nat n - 1) in
  exists m : nat,
    e + 1 = Z.of_nat m /\ (m <= n)%nat /\
    slice b 0 m = drop_ws_end (content b).
Proof.
  cbv zeta.
  destruct (back_ws_all_spec (c_scan b) b (Z.of_nat (c_scan b) - 1))
    as [H1 [H2 H3]]; [lia|lia|].
  set (e := back_ws_all (c_scan b) b (Z.of_nat (c_scan b) - 1)) in *.
  exists (Z.to_nat (e + 1)). split; [lia|]. split; [lia|].
  set (m := Z.to_nat (e + 1)).
  assert (Hparts : content b = slice b 0 m ++ slice b (Z.of_nat m) (c_scan b - m)).
  { rewrite content_slice.
    replace (c_scan b) with (m + (c_scan b - m))%nat at 1 by lia.
    rewrite slice_app. reflexivity. }
  rewrite Hparts. rewrite drop_ws_end_app.
  - symmetry. apply drop_ws_end_last. intros u Hu.
    destruct H3 as [H3|H3].
    + exfalso. assert (Hm0 : m = 0%nat) by lia.
      rewrite Hm0 in Hu. discriminate Hu.
    + apply last_slice in Hu. subst u.
      now replace (0 + Z.of_nat m - 1) with e by lia.
  - apply all_ws_slice. intros k Hk. apply H2. lia.
Qed.

Lemma str_rtrim_content (b : list Z) :
  fits b -> units (str_rtrim (Some b)) = drop_ws_end (content b).
Proof.
  intros Hb. cbn [str_rtrim]. rewrite (str_len_fits _ Hb). cbv zeta.
  destruct (Z.of_nat (c_scan b) =? 0) eqn:E; bools; cbn [units].
  - assert (Hnil : content b = []).
    { apply length_zero_iff_nil. rewrite length_content. lia. }
    now rewrite Hnil.
  - rewrite Nat2Z.id.
    destruct (rtrim_scan b) as [m [Hm [Hle Hslice]]]. cbv zeta in Hm.
    rewrite Hm, content_cut by lia. exact Hslice.
Qed.

Lemma str_ltrim_present (b : list Z) :
  exists b', str_ltrim (Some b) = Some b'.
Proof.
  cbn [str_ltrim]. destruct (negb (Z.of_nat (skip_ws b) =? 0)); eauto.
Qed.

Lemma str_rtrim_present (b : list Z) :
  exists b', str_rtrim (Some b) = Some b'.
Proof.
  cbn [str_rtrim]. destruct (str_len (Some b) =? 0); eauto.
Qed.

(** X14.  [str_capitalize] capitalises the first unit of the text and
    leaves the others as they are; an empty text stays empty, and a
    second call changes nothing more. *)
Theorem str_capitalize_spec (b : list Z) :
  units (str_capitalize (Some b))
  = match content b with
    | [] => []
    | u :: t => char_capitalize u :: t
    end /\
  str_capitalize (str_capitalize (Some b)) = str_capitalize (Some b).
Proof.
  split; [apply content_capitalize|].
  cbn [str_capitalize]. destruct b as [|c b]; [reflexivity|].
  rewrite peek_0. destruct (c =? 0) eqn:E; cbn [str_capitalize].
  - now rewrite peek_0, E.
  - change (poke (c :: b) 0 (char_capitalize c)) with (char_capitalize c :: b).
    rewrite peek_0, capitalize_zero, E, capitalize_idem. reflexivity.
Qed.

(** X15.  For a buffer whose length fits [int], [str_ltrim] leaves the
    text without its leading whitespace: what stays starts with a unit
    that is no whitespace, or is empty. *)
Theorem str_ltrim_spec (b : list Z) :
  fits b ->
  units (str_ltrim (Some b)) = drop_ws (content b) /\
  (exists ws, content b = ws ++ units (str_ltrim (Some b)) /\ all_ws ws) /\
  (forall u, head (units (str_ltrim (Some b))) = Some u ->
             is_whitespace u = false).
Proof.
  intros Hb. rewrite (str_ltrim_content _ Hb). split; [reflexivity|].
  split; [apply drop_ws_split | apply drop_ws_starts].
Qed.

Lemma str_ltrim_spec_witness :
  fits (lit "  a b ") /\
  units (str_ltrim (Some (lit "  a b "))) = drop_ws (content (lit "  a b ")) /\
  (exists ws,
     content (lit "  a b ") = ws ++ units (str_ltrim (Some (lit "  a b "))) /\
     all_ws ws) /\
  (forall u, head (units (str_ltrim (Some (lit "  a b ")))) = Some u ->
             is_whitespace u = false).
Proof.
  assert (H : fits (lit "  a b ")) by (unfold fits, INT_MAX; simpl; lia).
  split; [exact H|]. exact (str_ltrim_spec (lit "  a b ") H).
Defined.

(** X16.  For a buffer whose length fits [int], [str_rtrim] leaves the
    text without its trailing whitespace: what stays ends with a unit
    that is no whitespace, or is empty. *)
Theorem str_rtrim_spec (b : list Z) :
  fits b ->
  units (str_rtrim (Some b)) = drop_ws_end (content b) /\
  (exists ws, content b = units (str_rtrim (Some b)) ++ ws /\ all_ws ws) /\
  (forall u, last (units (str_rtrim (Some b))) = Some u ->
             is_whitespace u = false).
Proof.
  intros Hb. rewrite (str_rtrim_content _ Hb). split; [reflexivity|].
  split; [apply drop_ws_end_split | apply drop_ws_end_ends].
Qed.

Lemma str_rtrim_spec_witness :
  fits (lit " a b  ") /\
  units (str_rtrim (Some (lit " a b  ")))
  = drop_ws_end (content (lit " a b  ")) /\
  (exists ws,
     content (lit " a b  ") = units (str_rtrim (Some (lit " a b  "))) ++ ws /\
     all_ws ws) /\
  (forall u, last (units (str_rtrim (Some (lit " a b  ")))) = Some u ->
             is_whitespace u = false).
Proof.
  assert (H : fits (lit " a b  ")) by (unfold fits, INT_MAX; simpl; lia).
  split; [exact H|]. exact (str_rtrim_spec (lit " a b  ") H).
Defined.

(** X17.  For a buffer whose length fits [int], [str_trim] does what the
    two one-sided trims do one after the other, in either order. *)
Theorem str_trim_composes (b : list Z) :
  fits b ->
  units (str_trim (Some b)) = drop_ws (drop_ws_end (content b)) /\
  units (str_trim (Some b)) = units (str_ltrim (str_rtrim (Some b))) /\
  units (str_trim (Some b)) = units (str_rtrim (str_ltrim (Some b))).
Proof.
  intros Hb.
  destruct (trim_parts b Hb) as [ws1 [r [ws2 [Hc [H1 [H2 [Hr [Ht _]]]]]]]].
  destruct (drop_ws_three ws1 r ws2 H1 H2 Hr) as [Hle Hel].
  rewrite <- Hc in Hle, Hel. rewrite Ht.
  split; [now symmetry|]. split.
  - pose proof (str_rtrim_content _ Hb) as Hrt.
    destruct (str_rtrim_present b) as [b1 Hb1]. rewrite Hb1 in Hrt |- *.
    cbn [units] in Hrt.
    rewrite str_ltrim_content, Hrt; [now symmetry|].
    unfold fits in *. rewrite c_scan_content, Hrt.
    pose proof (length_drop_ws_end (content b)).
    rewrite length_content in *. lia.
  - pose proof (str_ltrim_content _ Hb) as Hlt.
    destruct (str_ltrim_present b) as [b1 Hb1]. rewrite Hb1 in Hlt |- *.
    cbn [units] in Hlt.
    rewrite str_rtrim_content, Hlt; [now symmetry|].
    unfold fits in *. rewrite c_scan_content, Hlt.
    pose proof (length_drop_ws (content b)).
    rewrite length_content in *. lia.
Qed.

Lemma str_trim_composes_witness :
  fits (lit "  a b  ") /\
  units (str_trim (Some (lit "  a b  ")))
  = drop_ws (drop_ws_end (content (lit "  a b  "))) /\
  units (str_trim (Some (lit "  a b  ")))
  = units (str_ltrim (str_rtrim (Some (lit "  a b  ")))) /\
  units (str_trim (Some (lit "  a b  ")))
  = units (str_rtrim (str_ltrim (Some (lit "  a b  ")))).
Proof.
  assert (H : fits (lit "  a b  ")) by (unfold fits, INT_MAX; simpl; lia).
  split; [exact H|]. exact (str_trim_composes (lit "  a b  ") H).
Defined.

(** ** New buffers *)

(** The shape shared by the routines that allocate [n + 1] cells, copy
    [n] units there and close them with a terminator. *)
Lemma copy_new_ok (src : list Z) (s n : Z) (h : heap) :
  grants 1 h -> 0 <= n -> n + 1 <= INT_MAX ->
  nonzero (slice src s (Z.to_nat n)) ->
  yields
    (result <- malloc_chars (to_size (to_int (n + 1))) ;;
     match result with
     | NULL => ret NULL
     | Ptr _ =>
         copy_units result 0 src s n ;;
         store_char result n 0 ;;
         ret result
     end) h (slice src s (Z.to_nat n)).
Proof.
  intros Hg Hn Hmax Hnz.
  exists (fresh (dom (blocks h))). split; [apply fresh_free|].
  split; [|now apply c_string_upd].
  rewrite to_size_int by lia.
  unfold bind at 1. unfold malloc_chars.
  rewrite malloc_granted; [|assumption|unfold ALLOC_MAX, INT_MAX in *; lia].
  set (l := fresh (dom (blocks h))).
  pose proof (fill_new_block l src s n
    (upd l (Chars (replicate (Z.to_nat (n + 1)) (junk h))) (spend h))
    ltac:(lia) ltac:(now rewrite blocks_upd)) as Hfill.
  unfold bind in Hfill |- *.
  destruct (copy_units (Ptr l) 0 src s n _) as [[[] h1]|]; [|discriminate].
  rewrite Hfill. now rewrite upd_upd.
Qed.

(** A refused request leaves [empty_string] without a buffer. *)
Lemma empty_string_refused (h : heap) :
  ~ grants 1 h -> empty_string h = Some (NULL, spend h).
Proof.
  intros Hg. unfold empty_string, bind, malloc_chars.
  now rewrite not_grants_1.
Qed.

(** ** Reversal into a new buffer *)

Lemma reverse_copy_loop_ok (l : loc) (text : list Z) (todo : nat) :
  forall (src dest : Z) (pre mid post : list Z) (h : heap),
    blocks h !! l = Some (Chars (pre ++ mid ++ post)) ->
    dest = Z.of_nat (length pre) ->
    length mid = todo ->
    reverse_copy_loop todo text src (Ptr l) dest h
    = Some (tt, upd l (Chars (pre
                              ++ rev (slice text (src - Z.of_nat todo + 1) todo)
                              ++ post)) h).
Proof.
  induction todo as [|todo IH]; intros src dest pre mid post h Hl Hd Hm.
  - destruct mid; [|discriminate]. simpl.
    rewrite upd_same by assumption. reflexivity.
  - destruct mid as [|m mid]; [discriminate|]. injection Hm as Hm.
    cbn [reverse_copy_loop]. unfold bind. simpl in Hl.
    rewrite (store_char_mid _ _ _ _ _ _ _ Hl Hd).
    rewrite (IH (src - 1) (dest + 1) (pre ++ [peek text src]) mid post).
    + rewrite upd_upd, slice_snoc, rev_unit, <- app_assoc. cbn [app].
      replace (src - Z.of_nat (S todo) + 1 + Z.of_nat todo) with src by lia.
      replace (src - Z.of_nat (S todo) + 1) with (src - 1 - Z.of_nat todo + 1)
        by lia.
      reflexivity.
    + rewrite blocks_upd. now rewrite <- app_assoc.
    + rewrite length_app. simpl. lia.
    + assumption.
Qed.

(** X18.  For a text whose length fits [int], and with the allocation
    granted, [str_reverse_n] returns a new buffer that holds the units
    of the text in reverse order, which is the text that [str_reverse]
    leaves in place. *)
Theorem str_reverse_n_spec (b : list Z) (h : heap) :
  fits b -> grants 1 h ->
  yields (str_reverse_n (Some b)) h (rev (content b)) /\
  text_of (str_reverse_n (Some b)) h = Some (units (str_reverse (Some b))).
Proof.
  intros Hb Hg.
  assert (Hy : yields (str_reverse_n (Some b)) h (rev (content b))).
  { exists (fresh (dom (blocks h))). split; [apply fresh_free|].
    split; [|apply c_string_upd, rev_nonzero, content_nonzero].
    unfold str_reverse_n. rewrite (str_len_fits _ Hb). cbv zeta.
    unfold fits, INT_MAX in Hb.
    assert (Hsize : to_size (1 * to_size (to_int (Z.of_nat (c_scan b) + 1)))
                    = Z.of_nat (c_scan b) + 1).
    { rewrite to_size_int by (unfold INT_MAX; lia).
      rewrite Z.mul_1_l. apply to_size_id. unfold ALLOC_MAX. lia. }
    rewrite Hsize. unfold bind at 1. unfold malloc_chars.
    rewrite malloc_granted; [|assumption|unfold ALLOC_MAX; lia].
    set (l := fresh (dom (blocks h))).
    replace (Z.to_nat (Z.of_nat (c_scan b) + 1))
      with (c_scan b + 1)%nat by lia.
    rewrite replicate_add. simpl replicate.
    destruct (Z.of_nat (c_scan b) >? 0) eqn:E; bools.
    - unfold bind.
      rewrite Nat2Z.id.
      rewrite (reverse_copy_loop_ok l b (c_scan b) _ 0 []
                 (replicate (c_scan b) (junk h)) [junk h]);
        [|now rewrite blocks_upd|reflexivity|now rewrite length_replicate].
      rewrite upd_upd. cbn [app].
      replace (Z.of_nat (c_scan b) - 1 - Z.of_nat (c_scan b) + 1) with 0
        by lia.
      rewrite slice_whole.
      rewrite (store_char_mid l (rev (content b)) [] (junk h));
        [|now rewrite blocks_upd|rewrite length_rev, length_content; lia].
      now rewrite upd_upd.
    - assert (H0 : c_scan b = 0%nat) by lia.
      assert (Hnil : content b = []).
      { apply length_zero_iff_nil. now rewrite length_content. }
      rewrite H0, Hnil. unfold bind, ret. cbn [replicate app rev].
      rewrite (store_char_mid l [] [] (junk h));
        [|now rewrite blocks_upd|reflexivity].
      now rewrite upd_upd. }
  split; [exact Hy|].
  destruct Hy as [l [_ [Hrun Hc]]]. unfold text_of. rewrite Hrun, Hc.
  rewrite (str_reverse_cells _ Hb). cbn [units].
  now rewrite content_reversed.
Qed.

Lemma str_reverse_n_spec_witness :
  fits (lit "abc") /\ grants 1 (heap0 1) /\
  yields (str_reverse_n (Some (lit "abc"))) (heap0 1)
    (rev (content (lit "abc"))) /\
  text_of (str_reverse_n (Some (lit "abc"))) (heap0 1)
  = Some (units (str_reverse (Some (lit "abc")))).
Proof.
  assert (Hf : fits (lit "abc")) by (unfold fits, INT_MAX; simpl; lia).
  assert (Hg : grants 1 (heap0 1)) by reflexivity.
  split; [exact Hf|]. split; [exact Hg|].
  exact (str_reverse_n_spec (lit "abc") (heap0 1) Hf Hg).
Defined.

(** ** Capitalising the first unit into a new buffer *)

(** X19.  For a text whose length fits [int], and with the allocation
    granted, [str_capitalize_n] returns a new buffer that holds the text
    with its first unit capitalised, which is the text that
    [str_capitalize] leaves in place; an empty text gives an empty
    buffer. *)
Theorem str_capitalize_n_spec (b : list Z) (h : heap) :
  fits b -> grants 1 h ->
  yields (str_capitalize_n (Some b)) h (units (str_capitalize (Some b))).
Proof.
  intros Hb Hg. rewrite content_capitalize. unfold str_capitalize_n.
  destruct (peek b 0 =? 0) eqn:E0; bools.
  { apply content_nil_peek in E0. rewrite E0. now apply empty_string_ok. }
  rewrite (str_len_fits _ Hb). cbv zeta.
  assert (Hpos : (0 < c_scan b)%nat).
  { rewrite <- content_nil_peek in E0.
    destruct (c_scan b) eqn:Hs; [|lia]. exfalso. apply E0.
    apply length_zero_iff_nil. now rewrite length_content. }
  assert (Hc : content b = peek b 0 :: slice b 1 (c_scan b - 1)).
  { rewrite content_slice.
    replace (c_scan b) with (S (c_scan b - 1)) at 1 by lia.
    now rewrite slice_S. }
  assert (Hnz : nonzero (char_capitalize (peek b 0) :: slice b 1 (c_scan b - 1))).
  { pose proof (content_nonzero b) as H. rewrite Hc in H.
    apply Forall_cons in H as [H1 H2].
    constructor; [now apply capitalize_nonzero | exact H2]. }
  rewrite Hc.
  exists (fresh (dom (blocks h))). split; [apply fresh_free|].
  split; [|now apply c_string_upd].
  unfold fits, INT_MAX in Hb.
  rewrite to_size_int by (unfold INT_MAX; lia).
  unfold bind at 1. unfold malloc_chars.
  rewrite malloc_granted; [|assumption|unfold ALLOC_MAX; lia].
  set (l := fresh (dom (blocks h))).
  replace (Z.to_nat (Z.of_nat (c_scan b) + 1))
    with (1 + ((c_scan b - 1) + 1))%nat by lia.
  rewrite !replicate_add. simpl replicate. cbn [app].
  unfold bind.
  rewrite (store_char_mid l [] (replicate (c_scan b - 1) (junk h) ++ [junk h])
             (junk h)); [|now rewrite blocks_upd|reflexivity].
  rewrite upd_upd. cbn [app].
  replace (Z.to_nat (Z.of_nat (c_scan b) - 1)) with (c_scan b - 1)%nat by lia.
  rewrite (copy_loop_ok l b 0 0 (c_scan b - 1) 1 [char_capitalize (peek b 0)]
             (replicate (c_scan b - 1) (junk h)) [junk h]);
    [|now rewrite blocks_upd|reflexivity|now rewrite length_replicate].
  rewrite upd_upd. cbn [app]. rewrite Z.add_0_l.
  rewrite (store_char_mid l
             (char_capitalize (peek b 0) :: slice b 1 (c_scan b - 1)) []
             (junk h));
    [|now rewrite blocks_upd|cbn [length]; rewrite length_slice; lia].
  now rewrite upd_upd.
Qed.

Lemma str_capitalize_n_spec_witness :
  fits (lit "abc") /\ grants 1 (heap0 1) /\
  yields (str_capitalize_n (Some (lit "abc"))) (heap0 1)
    (units (str_capitalize (Some (lit "abc")))).
Proof.
  assert (Hf : fits (lit "abc")) by (unfold fits, INT_MAX; simpl; lia).
  assert (Hg : grants 1 (heap0 1)) by reflexivity.
  split; [exact Hf|]. split; [exact Hg|].
  exact (str_capitalize_n_spec (lit "abc") (heap0 1) Hf Hg).
Defined.

(** ** Concatenation *)

Lemma units_or_empty (s : option (list Z)) :
  content (match s with None => lit EmptyString | Some b => b end) = units s.
Proof. destruct s; reflexivity. Qed.

(** X20.  When the two lengths together fit [int] and the allocation is
    granted, [str_concat_n] returns a new buffer that holds the units
    of the first text followed by those of the second; an absent text
    counts as an empty one. *)
Theorem str_concat_n_spec (s1 s2 : option (list Z)) (h : heap) :
  Z.of_nat (length (units s1)) + Z.of_nat (length (units s2)) + 2 <= INT_MAX ->
  grants 1 h ->
  yields (str_concat_n s1 s2) h (units s1 ++ units s2).
Proof.
  intros Hfit Hg. unfold str_concat_n.
  rewrite <- (units_or_empty s1), <- (units_or_empty s2) in *.
  set (b1 := match s1 with None => lit EmptyString | Some b => b end) in *.
  set (b2 := match s2 with None => lit EmptyString | Some b => b end) in *.
  rewrite !length_content in Hfit. cbv zeta.
  rewrite !str_len_fits by (unfold fits; lia).
  unfold INT_MAX in Hfit.
  rewrite (to_int_id (Z.of_nat (c_scan b1) + Z.of_nat (c_scan b2)))
    by (unfold INT_MIN, INT_MAX; lia).
  rewrite to_size_int by (unfold INT_MAX; lia).
  pose proof (content_nonzero b1) as Hnz1.
  pose proof (content_nonzero b2) as Hnz2.
  exists (fresh (dom (blocks h))). split; [apply fresh_free|].
  split; [|apply c_string_upd, Forall_app; now split].
  unfold bind at 1. unfold malloc_chars.
  rewrite malloc_granted; [|assumption|unfold ALLOC_MAX; lia].
  set (l := fresh (dom (blocks h))).
  replace (Z.to_nat (Z.of_nat (c_scan b1) + Z.of_nat (c_scan b2) + 1))
    with (c_scan b1 + (c_scan b2 + 1))%nat by lia.
  rewrite !replicate_add. simpl replicate.
  unfold bind, copy_units. rewrite !Nat2Z.id.
  rewrite (copy_loop_ok l b1 0 0 (c_scan b1) 0 []
             (replicate (c_scan b1) (junk h))
             (replicate (c_scan b2) (junk h) ++ [junk h]));
    [|now rewrite blocks_upd|reflexivity|now rewrite length_replicate].
  rewrite upd_upd. cbn [app]. rewrite Z.add_0_l, slice_whole.
  rewrite (copy_loop_ok l b2 (Z.of_nat (c_scan b1)) 0 (c_scan b2) 0
             (content b1) (replicate (c_scan b2) (junk h)) [junk h]);
    [|now rewrite blocks_upd|rewrite length_content; lia
     |now rewrite length_replicate].
  rewrite upd_upd. rewrite Z.add_0_l, slice_whole.
  rewrite app_assoc.
  rewrite (store_char_mid l (content b1 ++ content b2) [] (junk h));
    [|now rewrite blocks_upd|rewrite length_app, !length_content; lia].
  now rewrite upd_upd.
Qed.

Lemma str_concat_n_spec_witness :
  Z.of_nat (length (units (Some (lit "ab"))))
  + Z.of_nat (length (units (Some (lit "cd")))) + 2 <= INT_MAX /\
  grants 1 (heap0 1) /\
  yields (str_concat_n (Some (lit "ab")) (Some (lit "cd"))) (heap0 1)
    (units (Some (lit "ab")) ++ units (Some (lit "cd"))).
Proof.
  assert (Hf : Z.of_nat (length (units (Some (lit "ab"))))
               + Z.of_nat (length (units (Some (lit "cd")))) + 2 <= INT_MAX)
    by (unfold INT_MAX; simpl; lia).
  assert (Hg : grants 1 (heap0 1)) by reflexivity.
  split; [exact Hf|]. split; [exact Hg|].
  exact (str_concat_n_spec (Some (lit "ab")) (Some (lit "cd")) (heap0 1) Hf Hg).
Defined.

(** ** Trimming one end into a new buffer *)

(** X21.  For a text whose length fits [int], and with the allocation
    granted, [str_ltrim_n] returns a new buffer that holds the text
    without its leading whitespace, which is the text that [str_ltrim]
    leaves in place. *)
Theorem str_ltrim_n_spec (b : list Z) (h : heap) :
  fits b -> grants 1 h ->
  yields (str_ltrim_n (Some b)) h (drop_ws (content b)) /\
  text_of (str_ltrim_n (Some b)) h = Some (units (str_ltrim (Some b))).
Proof.
  intros Hb Hg.
  assert (Hy : yields (str_ltrim_n (Some b)) h (drop_ws (content b))).
  { unfold str_ltrim_n. cbv zeta.
    pose proof (skip_ws_le b) as Hle.
    rewrite str_len_fits
      by (unfold fits in *; rewrite c_scan_drop by assumption; lia).
    rewrite c_scan_drop by assumption.
    assert (Hs : slice b (Z.of_nat (skip_ws b))
                   (Z.to_nat (Z.of_nat (c_scan b - skip_ws b)))
                 = drop_ws (content b)).
    { rewrite <- drop_skip_ws, Nat2Z.id, slice_content by lia.
      apply take_ge. rewrite length_drop, length_content. lia. }
    rewrite <- Hs. apply copy_new_ok; [assumption|lia| |].
    - unfold fits in Hb. lia.
    - rewrite Nat2Z.id. apply slice_nonzero. lia. }
  split; [exact Hy|].
  destruct Hy as [l [_ [Hrun Hc]]]. unfold text_of. rewrite Hrun, Hc.
  now rewrite (str_ltrim_content _ Hb).
Qed.

Lemma str_ltrim_n_spec_witness :
  fits (lit "  a b ") /\ grants 1 (heap0 1) /\
  yields (str_ltrim_n (Some (lit "  a b "))) (heap0 1)
    (drop_ws (content (lit "  a b "))) /\
  text_of (str_ltrim_n (Some (lit "  a b "))) (heap0 1)
  = Some (units (str_ltrim (Some (lit "  a b ")))).
Proof.
  assert (Hf : fits (lit "  a b ")) by (unfold fits, INT_MAX; simpl; lia).
  assert (Hg : grants 1 (heap0 1)) by reflexivity.
  split; [exact Hf|]. split; [exact Hg|].
  exact (str_ltrim_n_spec (lit "  a b ") (heap0 1) Hf Hg).
Defined.

(** X22.  For a text whose length fits [int], and with the allocation
    granted, [str_rtrim_n] returns a new buffer that holds the text
    without its trailing whitespace, which is the text that [str_rtrim]
    leaves in place; a text of whitespace only gives an empty buffer. *)
Theorem str_rtrim_n_spec (b : list Z) (h : heap) :
  fits b -> grants 1 h ->
  yields (str_rtrim_n (Some b)) h (drop_ws_end (content b)) /\
  text_of (str_rtrim_n (Some b)) h = Some (units (str_rtrim (Some b))).
Proof.
  intros Hb Hg.
  assert (Hy : yields (str_rtrim_n (Some b)) h (drop_ws_end (content b))).
  { unfold str_rtrim_n. rewrite (str_len_fits _ Hb). cbv zeta.
    destruct (Z.of_nat (c_scan b) =? 0) eqn:E; bools.
    { assert (Hnil : content b = []).
      { apply length_zero_iff_nil. rewrite length_content. lia. }
      rewrite Hnil. now apply empty_string_ok. }
    rewrite Nat2Z.id.
    destruct (rtrim_scan b) as [m [Hm [Hle Hslice]]]. cbv zeta in Hm.
    rewrite Hm. unfold fits in Hb.
    rewrite (to_int_id (Z.of_nat m)) by (unfold INT_MIN; lia).
    rewrite <- Hslice.
    destruct (Z.of_nat m <=? 0) eqn:Em; bools.
    { replace m with 0%nat by lia. now apply empty_string_ok. }
    pose proof (copy_new_ok b 0 (Z.of_nat m) h Hg) as Hcopy.
    rewrite Nat2Z.id in Hcopy. apply Hcopy; [lia|lia|].
    apply (slice_nonzero b 0 m). lia. }
  split; [exact Hy|].
  destruct Hy as [l [_ [Hrun Hc]]]. unfold text_of. rewrite Hrun, Hc.
  now rewrite (str_rtrim_content _ Hb).
Qed.

Lemma str_rtrim_n_spec_witness :
  fits (lit " a b  ") /\ grants 1 (heap0 1) /\
  yields (str_rtrim_n (Some (lit " a b  "))) (heap0 1)
    (drop_ws_end (content (lit " a b  "))) /\
  text_of (str_rtrim_n (Some (lit " a b  "))) (heap0 1)
  = Some (units (str_rtrim (Some (lit " a b  ")))).
Proof.
  assert (Hf : fits (lit " a b  ")) by (unfold fits, INT_MAX; simpl; lia).
  assert (Hg : grants 1 (heap0 1)) by reflexivity.
  split; [exact Hf|]. split; [exact Hg|].
  exact (str_rtrim_n_spec (lit " a b  ") (heap0 1) Hf Hg).
Defined.

(** ** Replacing a unit into a new buffer *)

(** The text of a block closed by a terminator. *)
Lemma c_string_closed (l : loc) (t : list Z) (h : heap) :
  c_string (upd l (Chars (t ++ [0])) h) (Ptr l) = Some (content t).
Proof.
  unfold c_string. rewrite blocks_upd.
  assert (Hc : content (t ++ [0]) = content t)
    by now apply content_app_stop.
  assert (Hlen : (c_scan (t ++ [0%Z]) < length (t ++ [0%Z]))%nat).
  { rewrite c_scan_content, Hc, length_app, length_content. cbn [length].
    pose proof (c_scan_le t). lia. }
  destruct (c_scan (t ++ [0%Z]) <? length (t ++ [0%Z]))%nat eqn:E;
    [|bools; lia].
  now rewrite Hc.
Qed.

Lemma replaced_nonzero (find replace c : Z) :
  replace <> 0 -> c <> 0 -> replaced find replace c <> 0.
Proof. unfold replaced. intros Hr Hc. now destruct (c =? find). Qed.

Lemma str_replace_char_n_run (b : list Z) (find replace : Z) (h : heap) :
  fits b -> grants 1 h ->
  str_replace_char_n (Some b) find replace h
  = Some (Ptr (fresh (dom (blocks h))),
          upd (fresh (dom (blocks h)))
            (Chars (map (replaced find replace) (content b) ++ [0]))
            (spend h)).
Proof.
  intros Hb Hg. unfold str_replace_char_n. cbv zeta.
  rewrite (str_len_fits _ Hb). unfold fits, INT_MAX in Hb.
  rewrite to_size_int by (unfold INT_MAX; lia).
  unfold bind at 1. unfold malloc_chars.
  rewrite malloc_granted; [|assumption|unfold ALLOC_MAX; lia].
  set (l := fresh (dom (blocks h))).
  replace (Z.to_nat (Z.of_nat (c_scan b) + 1)) with (c_scan b + 1)%nat by lia.
  rewrite replicate_add. simpl replicate.
  unfold bind.
  rewrite (convert_loop_ok (replaced find replace) l b 0 []
             (replicate (c_scan b) (junk h)) [junk h]);
    [|now rewrite blocks_upd|reflexivity|now rewrite length_replicate].
  rewrite upd_upd. simpl app.
  rewrite (store_char_mid l (map (replaced find replace) (content b)) []
             (junk h));
    [|now rewrite blocks_upd|rewrite length_map, length_content; lia].
  now rewrite upd_upd.
Qed.

(** X23.  For a text whose length fits [int], and with the allocation
    granted, [str_replace_char_n] returns a buffer whose text is the one
    that [str_replace_char] leaves in place; when the replacement is not
    the zero unit, the buffer is new, sized to the text, and holds the
    text with every occurrence of [find] replaced. *)
Theorem str_replace_char_n_spec (b : list Z) (find replace : Z) (h : heap) :
  fits b -> grants 1 h ->
  text_of (str_replace_char_n (Some b) find replace) h
  = Some (units (str_replace_char (Some b) find replace)) /\
  (replace <> 0 ->
   yields (str_replace_char_n (Some b) find replace) h
     (map (replaced find replace) (content b))).
Proof.
  intros Hb Hg. pose proof (str_replace_char_n_run b find replace h Hb Hg)
    as Hrun.
  split.
  - unfold text_of. rewrite Hrun, c_string_closed.
    cbn [str_replace_char units].
    now rewrite content_replace_loop, content_replaced
      by apply content_nonzero.
  - intros Hr. exists (fresh (dom (blocks h))).
    split; [apply fresh_free|]. split; [exact Hrun|].
    apply c_string_upd, nonzero_map; [|apply content_nonzero].
    intros c. now apply replaced_nonzero.
Qed.

Lemma str_replace_char_n_spec_witness :
  fits (lit "banana") /\ grants 1 (heap0 1) /\
  text_of (str_replace_char_n (Some (lit "banana")) 97 111) (heap0 1)
  = Some (units (str_replace_char (Some (lit "banana")) 97 111)) /\
  (111 <> 0 ->
   yields (str_replace_char_n (Some (lit "banana")) 97 111) (heap0 1)
     (map (replaced 97 111) (content (lit "banana")))).
Proof.
  assert (Hf : fits (lit "banana")) by (unfold fits, INT_MAX; simpl; lia).
  assert (Hg : grants 1 (heap0 1)) by reflexivity.
  split; [exact Hf|]. split; [exact Hg|].
  exact (str_replace_char_n_spec (lit "banana") 97 111 (heap0 1) Hf Hg).
Defined.

(** ** Refused allocations *)

(** A routine that returns what its one request returned. *)
Ltac refused Hg :=
  cbv zeta; unfold bind, malloc_chars;
  rewrite (not_grants_1 _ _ _ Hg); reflexivity.

(** X24.  When the allocator refuses the request, each routine that
    makes one request returns NULL, whatever its arguments, and leaves
    the heap with the blocks it had. *)
Theorem refused_allocation (h : heap) :
  ~ grants 1 h ->
  (forall b, str_reverse_n (Some b) h = Some (NULL, spend h)) /\
  (forall b, str_capitalize_n (Some b) h = Some (NULL, spend h)) /\
  (forall b, str_uppercase_n (Some b) h = Some (NULL, spend h)) /\
  (forall b, str_lowercase_n (Some b) h = Some (NULL, spend h)) /\
  (forall b, str_title_n (Some b) h = Some (NULL, spend h)) /\
  (forall s1 s2, str_concat_n s1 s2 h = Some (NULL, spend h)) /\
  (forall b, str_trim_n (Some b) h = Some (NULL, spend h)) /\
  (forall b, str_ltrim_n (Some b) h = Some (NULL, spend h)) /\
  (forall b, str_rtrim_n (Some b) h = Some (NULL, spend h)) /\
  (forall b times, str_repeat_n (Some b) times h = Some (NULL, spend h)) /\
  (forall b start length,
     str_substring_n (Some b) start length h = Some (NULL, spend h)) /\
  (forall b find replace,
     str_replace_char_n (Some b) find replace h = Some (NULL, spend h)) /\
  blocks (spend h) = blocks h.
Proof.
  intros Hg. pose proof (empty_string_refused h Hg) as He.
  repeat split.
  - intros b. unfold str_reverse_n. refused Hg.
  - intros b. unfold str_capitalize_n.
    destruct (peek b 0 =? 0); [exact He | refused Hg].
  - intros b. unfold str_uppercase_n. refused Hg.
  - intros b. unfold str_lowercase_n. refused Hg.
  - intros b. unfold str_title_n. refused Hg.
  - intros s1 s2. unfold str_concat_n. refused Hg.
  - intros b. unfold str_trim_n. cbv zeta.
    destruct (peek b (Z.of_nat (skip_ws b)) =? 0); [exact He | refused Hg].
  - intros b. unfold str_ltrim_n. refused Hg.
  - intros b. unfold str_rtrim_n. cbv zeta.
    destruct (str_len (Some b) =? 0); [exact He|].
    destruct (to_int _ <=? 0); [exact He | refused Hg].
  - intros b times. unfold str_repeat_n.
    destruct (times <=? 0); [exact He|]. cbv zeta.
    destruct (str_len (Some b) =? 0); [exact He | refused Hg].
  - intros b start length. unfold str_substring_n. cbv zeta.
    destruct (_ >=? _); [exact He | refused Hg].
  - intros b find replace. unfold str_replace_char_n. refused Hg.
Qed.

Lemma refused_allocation_witness :
  ~ grants 1 (heap0 0) /\
  (forall b, str_reverse_n (Some b) (heap0 0) = Some (NULL, spend (heap0 0))) /\
  (forall b,
     str_capitalize_n (Some b) (heap0 0) = Some (NULL, spend (heap0 0))) /\
  (forall b,
     str_uppercase_n (Some b) (heap0 0) = Some (NULL, spend (heap0 0))) /\
  (forall b,
     str_lowercase_n (Some b) (heap0 0) = Some (NULL, spend (heap0 0))) /\
  (forall b, str_title_n (Some b) (heap0 0) = Some (NULL, spend (heap0 0))) /\
  (forall s1 s2,
     str_concat_n s1 s2 (heap0 0) = Some (NULL, spend (heap0 0))) /\
  (forall b, str_trim_n (Some b) (heap0 0) = Some (NULL, spend (heap0 0))) /\
  (forall b, str_ltrim_n (Some b) (heap0 0) = Some (NULL, spend (heap0 0))) /\
  (forall b, str_rtrim_n (Some b) (heap0 0) = Some (NULL, spend (heap0 0))) /\
  (forall b times,
     str_repeat_n (Some b) times (heap0 0) = Some (NULL, spend (heap0 0))) /\
  (forall b start length,
     str_substring_n (Some b) start length (heap0 0)
     = Some (NULL, spend (heap0 0))) /\
  (forall b find replace,
     str_replace_char_n (Some b) find replace (heap0 0)
     = Some (NULL, spend (heap0 0))) /\
  blocks (spend (heap0 0)) = blocks (heap0 0).
Proof.
  assert (Hg : ~ grants 1 (heap0 0)) by (intros H; discriminate H).
  split; [exact Hg|]. exact (refused_allocation (heap0 0) Hg).
Defined.

(** ** Substrings within the reach of [int] *)

(** X25.  For a text whose length fits [int], with the allocation
    granted and the clamped start plus the length within [int],
    [str_substring_n] returns a new buffer that holds the text from
    [start] on, a negative start counting as 0, cut to [length] units
    when [length] is not negative; a start at or past the end gives an
    empty buffer. *)
Theorem str_substring_n_clamps (b : list Z) (start length : Z) (h : heap) :
  fits b -> grants 1 h ->
  Z.max 0 start + length <= INT_MAX ->
  yields (str_substring_n (Some b) start length) h
    (if length <? 0 then drop (Z.to_nat start) (content b)
     else take (Z.to_nat length) (drop (Z.to_nat start) (content b))).
Proof.
  intros Hb Hg Hov.
  pose proof (substring_in_range b start length h Hb Hg Hov) as Hy.
  assert (Heq : substring (content b) start length
                = if length <? 0 then drop (Z.to_nat start) (content b)
                  else take (Z.to_nat length)
                         (drop (Z.to_nat start) (content b))).
  { unfold substring. cbv zeta.
    replace (Z.to_nat start) with (Z.to_nat (Z.max 0 start)) by lia.
    set (s := Z.max 0 start). set (t := content b).
    destruct (Z.of_nat (List.length t) <=? s) eqn:E1; bools.
    - rewrite drop_ge by lia. destruct (length <? 0); [reflexivity|].
      now rewrite take_nil.
    - destruct (length <? 0) eqn:E2; cbn [orb]; bools.
      + apply take_ge. rewrite length_drop. lia.
      + destruct (Z.of_nat (List.length t) <? s + length) eqn:E3; bools;
          [|reflexivity].
        rewrite !take_ge by (rewrite length_drop; lia). reflexivity. }
  now rewrite <- Heq.
Qed.

Lemma str_substring_n_clamps_witness :
  fits (lit "abcdef") /\ grants 1 (heap0 1) /\
  Z.max 0 (-2) + 4 <= INT_MAX /\
  yields (str_substring_n (Some (lit "abcdef")) (-2) 4) (heap0 1)
    (if 4 <? 0 then drop (Z.to_nat (-2)) (content (lit "abcdef"))
     else take (Z.to_nat 4) (drop (Z.to_nat (-2)) (content (lit "abcdef")))).
Proof.
  assert (Hf : fits (lit "abcdef")) by (unfold fits, INT_MAX; simpl; lia).
  assert (Hg : grants 1 (heap0 1)) by reflexivity.
  assert (Ho : Z.max 0 (-2) + 4 <= INT_MAX) by (unfold INT_MAX; lia).
  split; [exact Hf|]. split; [exact Hg|]. split; [exact Ho|].
  exact (str_substring_n_clamps (lit "abcdef") (-2) 4 (heap0 1) Hf Hg Ho).
Defined.

(** ** Releasing a token array *)

Lemma free_strs_loop_ok (todo : list loc) :
  forall hc : heap,
    NoDup todo ->
    (forall y, y ∈ todo -> is_Some (blocks hc !! y)) ->
    exists hc',
      free_strs_loop (map (fun l' => Some (Ptr l')) todo ++ [Some NULL]) hc
      = Some (tt, hc') /\
      budget hc' = budget hc /\
      (forall y, y ∈ todo -> blocks hc' !! y = None) /\
      (forall y, y ∉ todo -> blocks hc' !! y = blocks hc !! y).
Proof.
  induction todo as [|a todo IH]; intros hc Hnd Hlive.
  - exists hc. split; [reflexivity|]. split; [reflexivity|].
    split; [intros y Hy; now apply elem_of_nil in Hy|reflexivity].
  - cbn [map app free_strs_loop]. unfold bind at 1. unfold free.
    destruct (Hlive a ltac:(now left)) as [blk Ha]. rewrite Ha.
    apply NoDup_cons in Hnd as [Ha' Hnd].
    set (hc1 := Heap (delete a (blocks hc)) (budget hc) (junk hc)).
    destruct (IH hc1) as (hc' & Hrun & Hbud & Hgone & Hkeep).
    + assumption.
    + intros y Hy. subst hc1. simpl.
      rewrite lookup_delete_ne by (intros ->; contradiction).
      apply Hlive. now right.
    + rewrite Hrun. exists hc'. split; [reflexivity|].
      split; [exact Hbud|]. split.
      * intros y Hy. apply elem_of_cons in Hy as [->|Hy].
        -- rewrite Hkeep by assumption. subst hc1. simpl.
           apply lookup_delete_eq.
        -- now apply Hgone.
      * intros y Hy. rewrite not_elem_of_cons in Hy. destruct Hy as [Hya Hy].
        rewrite Hkeep by assumption. subst hc1. simpl.
        now rewrite lookup_delete_ne by auto.
Qed.

(** [free_strs] on a token array gives back the heap as it was. *)
Lemma free_strs_ok (h hc : heap) (l : loc) (ls : list loc)
    (ts : list (list Z)) :
  token_heap h hc l ls ts [Some NULL] ->
  exists hc',
    free_strs (Ptr l) hc = Some (tt, hc') /\
    blocks hc' = blocks h /\ budget hc' = budget hc.
Proof.
  intros (Hnd & Hnew & Hl & Hts & Hframe & Hj).
  apply NoDup_cons in Hnd as [Hlls Hnd].
  destruct (free_strs_loop_ok ls hc) as (hc1 & Hrun & Hbud & Hgone & Hkeep).
  - assumption.
  - intros y Hy. rewrite Forall2_lookup in Hts.
    apply list_elem_of_lookup in Hy as [i Hi].
    specialize (Hts i). rewrite Hi in Hts. inversion Hts as [? ? Hb|].
    rewrite Hb. eauto.
  - unfold free_strs. unfold bind at 1. unfold slots_at. rewrite Hl.
    unfold bind. rewrite Hrun. unfold free.
    rewrite Hkeep by assumption. rewrite Hl.
    eexists. split; [reflexivity|]. simpl. split; [|exact Hbud].
    apply map_eq. intros y.
    destruct (decide (y = l)) as [->|Hyl].
    { rewrite lookup_delete_eq. symmetry. apply Hnew. now left. }
    rewrite lookup_delete_ne by auto.
    destruct (decide (y ∈ ls)) as [Hin|Hout].
    + rewrite Hgone by assumption. symmetry. apply Hnew. now right.
    + rewrite Hkeep by assumption. apply Hframe.
      rewrite not_elem_of_cons. auto.
Qed.

(** X26.  For a text whose length fits [int], with every allocation
    granted, [free_strs] run on the array that [str_split] returned
    frees every token and the array: the heap holds exactly the blocks
    it held before the split.  [free_strs] on NULL does nothing. *)
Theorem split_then_free (b : list Z) (d : Z) (h : heap) :
  fits b ->
  grants (occurrences d (content b) + 2) h ->
  (exists (l : loc) (h1 h2 : heap),
     str_split (Some b) d h = Some (Ptr l, h1) /\
     free_strs (Ptr l) h1 = Some (tt, h2) /\
     blocks h2 = blocks h) /\
  free_strs NULL h = Some (tt, h).
Proof.
  intros Hb Hg. split; [|reflexivity].
  destruct (str_split_run b d h Hb) as [Hrun _].
  destruct (Hrun Hg) as (l & ls & h1 & Hsplit & Hheap & _).
  destruct (free_strs_ok _ _ _ _ _ Hheap) as (h2 & Hfree & Hblocks & _).
  now exists l, h1, h2.
Qed.

Lemma split_then_free_witness :
  fits (lit "a,b") /\
  grants (occurrences 44 (content (lit "a,b")) + 2) (heap0 3) /\
  (exists (l : loc) (h1 h2 : heap),
     str_split (Some (lit "a,b")) 44 (heap0 3) = Some (Ptr l, h1) /\
     free_strs (Ptr l) h1 = Some (tt, h2) /\
     blocks h2 = blocks (heap0 3)) /\
  free_strs NULL (heap0 3) = Some (tt, heap0 3).
Proof.
  assert (Hf : fits (lit "a,b")) by (unfold fits, INT_MAX; simpl; lia).
  assert (Hg : grants (occurrences 44 (content (lit "a,b")) + 2) (heap0 3))
    by reflexivity.
  split; [exact Hf|]. split; [exact Hg|].
  exact (split_then_free (lit "a,b") 44 (heap0 3) Hf Hg).
Defined.

(** ** Joining any array *)

Lemma nonzero_glue (sep : Z) (ts : list (list Z)) :
  sep <> 0 -> Forall nonzero ts -> nonzero (glue sep ts).
Proof.
  intros Hsep. induction 1 as [|t ts Ht Hts IH]; [constructor|].
  destruct ts as [|t' ts]; [exact Ht|].
  rewrite glue_cons by discriminate.
  apply Forall_app. split; [exact Ht|]. now constructor.
Qed.

Lemma cstr_at_text (h : heap) (l : loc) (t rest : list Z) :
  blocks h !! l = Some (Chars (t ++ 0 :: rest)) -> nonzero t ->
  cstr_at (Ptr l) h = Some (t ++ 0 :: rest, h).
Proof.
  intros Hl Ht. unfold cstr_at. rewrite Hl.
  rewrite c_scan_app_nul by assumption. rewrite length_app. cbn [length].
  destruct (length t <? length t + S (length rest))%nat eqn:E;
    [reflexivity|bools; lia].
Qed.

Lemma str_len_text (t rest : list Z) :
  nonzero t -> Z.of_nat (length t) <= INT_MAX ->
  str_len (Some (t ++ 0 :: rest)) = Z.of_nat (length t).
Proof.
  intros Ht Hlen. unfold str_len. rewrite c_scan_app_nul by assumption.
  apply to_int_id. unfold INT_MIN. lia.
Qed.

Lemma holds_text_upd (h : heap) (r : loc) (blk : block) (ls : list loc)
    (ts : list (list Z)) :
  r ∉ ls ->
  Forall2 (holds_text h) ls ts ->
  Forall2 (holds_text (upd r blk h)) ls ts.
Proof.
  intros Hr Hts. induction Hts as [|a t ls ts [rest Ha] _ IH];
    [constructor|].
  rewrite not_elem_of_cons in Hr. destruct Hr as [Hra Hrls].
  constructor; [|now apply IH].
  exists rest. now rewrite blocks_upd_ne by auto.
Qed.

(** The first pass adds up the lengths and counts the texts, up to the
    first NULL of the array. *)
Lemma measure_loop_array (h : heap) (ls : list loc) (ts : list (list Z))
    (more : list (option ptr)) :
  Forall2 (holds_text h) ls ts ->
  Forall nonzero ts ->
  forall total_len count : Z,
    0 <= total_len -> 0 <= count ->
    total_len + Z.of_nat (length (concat ts)) <= INT_MAX ->
    count + Z.of_nat (length ts) <= INT_MAX ->
    measure_loop (map (fun l' => Some (Ptr l')) ls ++ Some NULL :: more)
      total_len count h
    = Some ((total_len + Z.of_nat (length (concat ts)),
             count + Z.of_nat (length ts)), h).
Proof.
  induction 1 as [|l' t ls ts [rest Hl] _ IH];
    intros Hnz total_len count H0 H1 Hov Hcnt.
  - simpl. unfold ret. do 3 f_equal; lia.
  - apply Forall_cons in Hnz as [Ht Hnz].
    simpl concat in *. rewrite length_app in *. simpl length in *.
    cbn [map app measure_loop]. unfold bind.
    rewrite (cstr_at_text _ _ _ _ Hl Ht).
    rewrite str_len_text by (try assumption; lia).
    rewrite !to_int_id by (unfold INT_MIN; lia).
    rewrite IH by (try assumption; lia).
    do 3 f_equal; lia.
Qed.

(** The second pass writes the texts from [i] on, with the separator
    after each but the last. *)
Lemma join_loop_array (l r : loc) (sep count : Z) (ts : list (list Z))
    (more : list (option ptr)) :
  forall (ls done : list loc) (pre mid post : list Z) (h : heap),
    Forall2 (holds_text h) ls ts ->
    Forall nonzero ts ->
    Forall (fun t => Z.of_nat (length t) <= INT_MAX) ts ->
    blocks h !! l
    = Some (Slots (map (fun l' => Some (Ptr l')) (done ++ ls)
                   ++ Some NULL :: more)) ->
    r ∉ l :: ls ->
    count = Z.of_nat (length done + length ls) -> count <= INT_MAX ->
    blocks h !! r = Some (Chars (pre ++ mid ++ post)) ->
    length mid = length (glue sep ts) ->
    join_loop (length ls) (Ptr l) sep count (Z.of_nat (length done)) (Ptr r)
      (Z.of_nat (length pre)) h
    = Some (Z.of_nat (length pre + length (glue sep ts)),
            upd r (Chars (pre ++ glue sep ts ++ post)) h).
Proof.
  induction ts as [|t ts IH];
    intros ls done pre mid post h Hts Hnz Hfit Hl Hr Hcount Hmax Hblk Hm.
  1: revert Hcount; inversion Hts; subst; intros Hcount.
  2: revert Hcount; inversion Hts as [|a ? ls' ? Ha Hts']; subst; clear Hts;
     intros Hcount; rename Hts' into Hts; rename ls' into ls.
  - destruct mid; [|discriminate]. simpl.
    rewrite upd_same by assumption. unfold ret. do 3 f_equal. lia.
  - destruct Ha as [rest Ha].
    apply Forall_cons in Hnz as [Ht Hnz].
    apply Forall_cons in Hfit as [Hlt Hfit].
    rewrite !not_elem_of_cons in Hr. destruct Hr as (Hrl & Hra & Hrls).
    assert (Hglue : (length t <= length mid)%nat).
    { rewrite Hm. destruct ts; simpl; [lia|]. rewrite length_app. lia. }
    cbn [length] in Hcount |- *. cbn [join_loop].
    unfold bind at 1. unfold load_slot. rewrite Hl.
    destruct (0 <=? Z.of_nat (length done)) eqn:E; [|bools; lia].
    rewrite Nat2Z.id.
    rewrite lookup_app_l
      by (rewrite length_map, length_app; simpl; lia).
    rewrite list_lookup_fmap, lookup_app_r by lia.
    rewrite Nat.sub_diag. simpl lookup. cbn [fmap option_fmap option_map].
    unfold bind at 1. rewrite (cstr_at_text _ _ _ _ Ha Ht).
    rewrite str_len_text by assumption. rewrite Nat2Z.id.
    unfold bind at 1.
    assert (Hmid : mid = take (length t) mid ++ drop (length t) mid)
      by now rewrite take_drop.
    rewrite Hmid, <- app_assoc in Hblk.
    change 0 with (Z.of_nat 0).
    rewrite (part_loop_ok a r (t ++ 0 :: rest) (length t) ltac:(auto) 0 pre
               (take (length t) mid) (drop (length t) mid ++ post) h Ha
               ltac:(rewrite length_app; simpl; lia) Hblk
               ltac:(rewrite length_take; lia)).
    rewrite drop_0, take_app_length.
    rewrite (to_int_id (count - 1)) by (unfold INT_MIN; lia).
    assert (Hslots : forall hx blk,
              blocks (upd r blk hx) !! l = blocks hx !! l)
      by (intros; now rewrite blocks_upd_ne by auto).
    assert (Htoks : forall blk, Forall2 (holds_text (upd r blk h)) ls ts)
      by (intros blk; now apply holds_text_upd).
    destruct ts as [|t' ts'] eqn:Ets.
    + (* the last text: no separator *)
      inversion Hts; subst. simpl length in *.
      destruct (Z.of_nat (length done) <? Z.of_nat (length done + 1) - 1)
        eqn:E1; [bools; lia|].
      unfold bind. unfold ret. cbn [join_loop glue] in Hm |- *.
      rewrite drop_ge by lia. do 3 f_equal.
    + (* a separator follows *)
      rewrite <- Ets in *.
      assert (Hls : ls <> []).
      { intros ->. subst ts. inversion Hts. }
      assert (Hlen : (0 < length ls)%nat)
        by (destruct ls; [contradiction|simpl; lia]).
      destruct (Z.of_nat (length done) <? count - 1) eqn:E1; [|bools; lia].
      assert (Hg : glue sep (t :: ts) = t ++ sep :: glue sep ts)
        by (apply glue_cons; subst ts; discriminate).
      rewrite Hg in Hm |- *. rewrite length_app in Hm. simpl length in Hm.
      destruct (drop (length t) mid) as [|m mid'] eqn:Hdrop.
      { apply (f_equal length) in Hdrop. rewrite length_drop in Hdrop.
        simpl in Hdrop. lia. }
      assert (Hmid' : length mid' = length (glue sep ts)).
      { apply (f_equal length) in Hdrop. rewrite length_drop in Hdrop.
        simpl in Hdrop. lia. }
      unfold bind at 1. unfold bind at 1.
      rewrite (store_char_mid r (pre ++ t) (mid' ++ post) m);
        [|rewrite blocks_upd, <- app_assoc; reflexivity
         |rewrite length_app; lia].
      rewrite upd_upd. unfold ret.
      replace (Z.of_nat (length pre + length t) + 1)
        with (Z.of_nat (length ((pre ++ t) ++ [sep])))
        by (rewrite !length_app; simpl; lia).
      replace (Z.of_nat (length done) + 1)
        with (Z.of_nat (length (done ++ [a])))
        by (rewrite length_app; simpl; lia).
      rewrite (IH ls (done ++ [a]) ((pre ++ t) ++ [sep]) mid' post).
      * rewrite upd_upd. rewrite !length_app. simpl length.
        rewrite <- !app_assoc. simpl app.
        do 3 f_equal. lia.
      * apply Htoks.
      * assumption.
      * assumption.
      * rewrite Hslots, Hl. now rewrite <- app_assoc.
      * rewrite not_elem_of_cons. auto.
      * rewrite length_app. simpl. lia.
      * assumption.
      * rewrite blocks_upd. rewrite <- !app_assoc. reflexivity.
      * assumption.
Qed.

(** The run of [str_join_n] on an array of at least one text. *)
Lemma str_join_n_run (h : heap) (l : loc) (ls : list loc)
    (ts : list (list Z)) (more : list (option ptr)) (sep : Z) :
  blocks h !! l
  = Some (Slots (map (fun l' => Some (Ptr l')) ls ++ Some NULL :: more)) ->
  Forall2 (holds_text h) ls ts ->
  Forall nonzero ts -> ts <> [] ->
  Z.of_nat (length (glue sep ts)) + 2 <= INT_MAX ->
  grants 1 h ->
  str_join_n (Ptr l) sep h
  = Some (Ptr (fresh (dom (blocks h))),
          upd (fresh (dom (blocks h))) (Chars (glue sep ts ++ [0]))
            (spend h)).
Proof.
  intros Hl Hts Hnz Hne Hfit Hg.
  pose proof (length_glue sep ts Hne) as Hlen.
  pose proof (Forall2_length _ _ _ Hts) as Hlsts.
  assert (Hcnt : (0 < length ts)%nat)
    by (destruct ts; [contradiction|simpl; lia]).
  unfold INT_MAX in Hfit.
  set (r := fresh (dom (blocks h))).
  assert (Hr : blocks h !! r = None) by apply fresh_free.
  assert (Hrl : r <> l) by (intros E; rewrite E, Hl in Hr; discriminate).
  assert (Hrls : r ∉ ls).
  { intros Hin. rewrite Forall2_lookup in Hts.
    apply list_elem_of_lookup in Hin as [i Hi].
    specialize (Hts i). rewrite Hi in Hts.
    inversion Hts as [? ? [rest Hb]|]. rewrite Hr in Hb. discriminate. }
  unfold str_join_n. unfold bind at 1. unfold slots_at. rewrite Hl.
  unfold bind at 1.
  rewrite (measure_loop_array h ls ts more Hts Hnz 0 0)
    by (unfold INT_MAX; lia).
  rewrite !Z.add_0_l.
  destruct (Z.of_nat (length ts) =? 0) eqn:E0; [bools; lia|].
  rewrite (to_int_id (Z.of_nat (length ts) - 1))
    by (unfold INT_MIN, INT_MAX; lia).
  replace (Z.of_nat (length (concat ts)) + (Z.of_nat (length ts) - 1))
    with (Z.of_nat (length (glue sep ts))) by lia.
  rewrite (to_int_id (Z.of_nat (length (glue sep ts))))
    by (unfold INT_MIN, INT_MAX; lia).
  rewrite to_size_int by (unfold INT_MAX; lia).
  unfold bind at 1. unfold malloc_chars.
  rewrite malloc_granted; [|assumption|unfold ALLOC_MAX; lia].
  fold r.
  replace (Z.to_nat (Z.of_nat (length (glue sep ts)) + 1))
    with (length (glue sep ts) + 1)%nat by lia.
  rewrite replicate_add. simpl replicate.
  set (hx := upd r (Chars (replicate (length (glue sep ts)) (junk h)
                           ++ [junk h])) (spend h)).
  assert (Htoks : Forall2 (holds_text hx) ls ts).
  { subst hx. apply holds_text_upd; [assumption|].
    eapply Forall2_impl; [exact Hts|]. intros a t [rest Ha]. now exists rest. }
  replace (Z.to_nat (Z.of_nat (length ts))) with (length ls) by lia.
  unfold bind at 1.
  pose proof (join_loop_array l r sep (Z.of_nat (length ts)) ts more ls [] []
                (replicate (length (glue sep ts)) (junk h)) [junk h] hx)
    as Hloop.
  change (Z.of_nat (length (@nil loc))) with 0 in Hloop.
  change (Z.of_nat (length (@nil Z))) with 0 in Hloop.
  rewrite Hloop; clear Hloop.
  - subst hx. rewrite upd_upd. simpl app. simpl length. unfold bind.
    rewrite (store_char_mid r (glue sep ts) [] (junk h));
      [|now rewrite blocks_upd|lia].
    now rewrite upd_upd.
  - exact Htoks.
  - assumption.
  - pose proof (length_le_concat ts) as Hle.
    eapply Forall_impl; [exact Hle|]. intros t' Ht'. simpl in Ht'.
    unfold INT_MAX. lia.
  - subst hx. rewrite blocks_upd_ne by auto. exact Hl.
  - rewrite not_elem_of_cons. auto.
  - simpl. lia.
  - unfold INT_MAX. lia.
  - subst hx. now rewrite blocks_upd.
  - now rewrite length_replicate.
Qed.

(** X27.  Let the block at [l] be an array whose first slots hold
    pointers to blocks, followed by NULL and by any slots after it, and
    let each of these blocks hold one of the texts [ts], its terminator
    and any cells after it; two slots may point to the same block.
    With a separator other than the zero unit, the joined length
    fitting [int] and the allocation granted, [str_join_n] returns a
    new buffer that holds the texts in order with the separator between
    them and not after the last; an array without texts gives an empty
    buffer, and NULL gives NULL.  On an array of "a", "bc" and "a"
    again, joined with a comma, the buffer holds "a,bc,a". *)
Theorem str_join_n_array (h : heap) (l : loc) (ls : list loc)
    (ts : list (list Z)) (more : list (option ptr)) (sep : Z) :
  blocks h !! l
  = Some (Slots (map (fun l' => Some (Ptr l')) ls ++ Some NULL :: more)) ->
  Forall2 (holds_text h) ls ts ->
  Forall nonzero ts -> sep <> 0 ->
  Z.of_nat (length (glue sep ts)) + 2 <= INT_MAX ->
  grants 1 h ->
  yields (str_join_n (Ptr l) sep) h (glue sep ts) /\
  str_join_n NULL sep h = Some (NULL, h) /\
  text_of (str_join_n (Ptr 1%positive) 44) heap_of_tokens
  = Some [97; 44; 98; 99; 44; 97].
Proof.
  intros Hl Hts Hnz Hsep Hfit Hg.
  split; [|split; [reflexivity | vm_compute; reflexivity]].
  destruct ts as [|t ts].
  - apply Forall2_nil_inv_r in Hts. subst ls. cbn [map app] in Hl.
    pose proof (empty_string_ok h Hg) as [r [Hr [Hrun Hc]]].
    exists r. split; [exact Hr|]. split; [|exact Hc].
    unfold str_join_n. unfold bind at 1. unfold slots_at. rewrite Hl.
    unfold bind at 1. cbn [measure_loop]. unfold ret at 1.
    change (0 =? 0) with true. cbv iota. exact Hrun.
  - exists (fresh (dom (blocks h))). split; [apply fresh_free|].
    split;
      [apply (str_join_n_run h l ls _ more); (assumption || discriminate)|].
    apply c_string_upd. now apply nonzero_glue.
Qed.

Lemma str_join_n_array_witness :
  blocks heap_of_tokens !! 1%positive
  = Some (Slots (map (fun l' => Some (Ptr l'))
                   [2%positive; 3%positive; 2%positive]
                 ++ Some NULL :: [None])) /\
  Forall2 (holds_text heap_of_tokens)
    [2%positive; 3%positive; 2%positive] [[97]; [98; 99]; [97]] /\
  Forall nonzero [[97]; [98; 99]; [97]] /\ 44 <> 0 /\
  Z.of_nat (length (glue 44 [[97]; [98; 99]; [97]])) + 2 <= INT_MAX /\
  grants 1 heap_of_tokens /\
  yields (str_join_n (Ptr 1%positive) 44) heap_of_tokens
    (glue 44 [[97]; [98; 99]; [97]]) /\
  str_join_n NULL 44 heap_of_tokens = Some (NULL, heap_of_tokens) /\
  text_of (str_join_n (Ptr 1%positive) 44) heap_of_tokens
  = Some [97; 44; 98; 99; 44; 97].
Proof.
  assert (H1 : blocks heap_of_tokens !! 1%positive
               = Some (Slots (map (fun l' => Some (Ptr l'))
                                [2%positive; 3%positive; 2%positive]
                              ++ Some NULL :: [None]))) by reflexivity.
  assert (H2 : Forall2 (holds_text heap_of_tokens)
                 [2%positive; 3%positive; 2%positive]
                 [[97]; [98; 99]; [97]]).
  { constructor; [now exists [7]|].
    constructor; [now exists []|].
    constructor; [now exists [7] | constructor]. }
  assert (H3 : Forall nonzero [[97]; [98; 99]; [97]])
    by (repeat constructor; lia).
  assert (H4 : 44 <> 0) by lia.
  assert (H5 : Z.of_nat (length (glue 44 [[97]; [98; 99]; [97]])) + 2
               <= INT_MAX)
    by (unfold INT_MAX; simpl; lia).
  assert (H6 : grants 1 heap_of_tokens) by reflexivity.
  repeat (split; [assumption|]).
  exact (str_join_n_array heap_of_tokens 1%positive
           [2%positive; 3%positive; 2%positive] [[97]; [98; 99]; [97]]
           [None] 44 H1 H2 H3 H4 H5 H6).
Defined.

(** ** The two searches *)

Lemma search_loops_agree (c : Z) (p : list Z) (pos : Z) :
  c <> 0 -> index_of_str_loop [c] p pos = index_of_loop c p pos.
Proof.
  intros Hc. revert pos. induction p as [|x p IH]; intros pos; [reflexivity|].
  cbn [index_of_str_loop index_of_loop match_loop].
  destruct (x =? 0) eqn:Ex; [reflexivity|].
  replace (c =? 0) with false by (symmetry; now apply Z.eqb_neq).
  cbn [negb andb]. rewrite (Z.eqb_sym c x).
  destruct (x =? c); [reflexivity | apply IH].
Qed.

(** X28.  Searching a text for the one-unit substring made of a unit
    other than zero is searching it for that unit: [index_of_str]
    returns what [index_of] returns, and [str_contains] tells whether
    that is an offset. *)
Theorem search_unit_as_substring (c : Z) (text : option (list Z)) :
  c <> 0 ->
  index_of_str text (Some [c]) = index_of c text /\
  (str_contains text (Some [c]) = 1 <-> 0 <= index_of c text).
Proof.
  intros Hc.
  assert (H : index_of_str text (Some [c]) = index_of c text).
  { destruct text as [b|]; [|reflexivity]. cbn [index_of_str index_of].
    rewrite peek_0.
    replace (c =? 0) with false by (symmetry; now apply Z.eqb_neq).
    now apply search_loops_agree. }
  split; [exact H|]. unfold str_contains. rewrite H.
  destruct (index_of c text >=? 0) eqn:E; bools; split; (lia || discriminate).
Qed.

Lemma search_unit_as_substring_witness :
  108 <> 0 /\
  index_of_str (Some (lit "hello")) (Some [108])
  = index_of 108 (Some (lit "hello")) /\
  (str_contains (Some (lit "hello")) (Some [108]) = 1
   <-> 0 <= index_of 108 (Some (lit "hello"))).
Proof.
  assert (H : 108 <> 0) by lia.
  split; [exact H|].
  exact (search_unit_as_substring 108 (Some (lit "hello")) H).
Defined.

(** ** The in-place routines stay within the buffer *)

Lemma poke_keeps (b : list Z) (i v : Z) (K : nat) :
  0 <= i < Z.of_nat K -> (K <= length b)%nat ->
  length (poke b i v) = length b /\ drop K (poke b i v) = drop K b.
Proof.
  intros Hi HK. unfold poke.
  destruct (i <? 0) eqn:E1; [bools; lia|].
  destruct (i <? Z.of_nat (length b)) eqn:E2; [|bools; lia].
  split; [apply length_insert | apply drop_insert_lt; lia].
Qed.

Lemma within_cells (b t : list Z) :
  length t = c_scan b -> within b (Some (t ++ drop (c_scan b) b)).
Proof.
  intros Ht. exists (t ++ drop (c_scan b) b). split; [reflexivity|].
  pose proof (c_scan_le b) as Hle. split.
  - rewrite length_app, length_drop. lia.
  - rewrite drop_app_ge by lia. rewrite drop_drop. f_equal. lia.
Qed.

Lemma within_keeps (b b' : list Z) (K : nat) :
  (K <= S (c_scan b))%nat ->
  length b' = length b -> drop K b' = drop K b ->
  within b (Some b').
Proof.
  intros HK Hlen Hdrop. exists b'. split; [reflexivity|].
  split; [exact Hlen|].
  replace (S (c_scan b)) with (K + (S (c_scan b) - K))%nat by lia.
  now rewrite <- !drop_drop, Hdrop.
Qed.

Lemma uppercase_loop_cells (b : list Z) :
  uppercase_loop b = map char_capitalize (content b) ++ drop (c_scan b) b.
Proof.
  induction b as [|c b IH]; [reflexivity|].
  rewrite content_cons. cbn [uppercase_loop c_scan].
  destruct (c =? 0) eqn:E; [reflexivity|].
  cbn [map drop app]. now rewrite IH.
Qed.

Lemma lowercase_loop_cells (b : list Z) :
  lowercase_loop b = map char_decapitalize (content b) ++ drop (c_scan b) b.
Proof.
  induction b as [|c b IH]; [reflexivity|].
  rewrite content_cons. cbn [lowercase_loop c_scan].
  destruct (c =? 0) eqn:E; [reflexivity|].
  cbn [map drop app]. now rewrite IH.
Qed.

Lemma title_loop_cells (flag : bool) (b : list Z) :
  title_loop flag b = title_case flag (content b) ++ drop (c_scan b) b.
Proof.
  revert flag. induction b as [|c b IH]; intros flag; [reflexivity|].
  rewrite content_cons. cbn [title_loop c_scan].
  destruct (c =? 0) eqn:E; [reflexivity|].
  cbn [title_case drop].
  destruct (is_whitespace c); [|destruct flag]; cbn [app]; now rewrite IH.
Qed.

Lemma ltrim_loop_keeps (start : Z) (K : nat) (todo : nat) :
  forall (b : list Z) (i : Z),
    0 <= i -> i + Z.of_nat todo <= Z.of_nat K -> (K <= length b)%nat ->
    length (ltrim_loop todo b start i) = length b /\
    drop K (ltrim_loop todo b start i) = drop K b.
Proof.
  induction todo as [|todo IH]; intros b i Hi Hend HK; [now split|].
  cbn [ltrim_loop].
  destruct (poke_keeps b i (peek b (start + i)) K) as [Hlen Hdrop];
    [lia|lia|].
  destruct (IH (poke b i (peek b (start + i))) (i + 1)) as [H1 H2];
    [lia|lia|lia|].
  split; congruence.
Qed.

Lemma shift_loop_keeps (fuel : nat) :
  forall (m : nat) (b : list Z) (dest start : Z),
    0 <= dest <= start ->
    (forall k : nat, (k < m)%nat -> peek b (start + Z.of_nat k) <> 0) ->
    peek b (start + Z.of_nat m) = 0 ->
    start + Z.of_nat m < Z.of_nat (length b) ->
    (m < fuel)%nat ->
    length (shift_loop fuel b dest start) = length b /\
    drop (Z.to_nat (start + Z.of_nat m) + 1) (shift_loop fuel b dest start)
    = drop (Z.to_nat (start + Z.of_nat m) + 1) b.
Proof.
  induction fuel as [|fuel IH]; intros m b dest start Hd Hnz Hz Hin Hfuel;
    [lia|].
  cbn [shift_loop]. cbv zeta.
  destruct (poke_keeps b dest (peek b start)
              (Z.to_nat (start + Z.of_nat m) + 1)) as [Hlen Hdrop];
    [lia|lia|].
  destruct (peek b start =? 0) eqn:E; bools; [now split|].
  destruct m as [|m].
  { exfalso. apply E. now rewrite Z.add_0_r in Hz. }
  destruct (IH m (poke b dest (peek b start)) (dest + 1) (start + 1))
    as [H1 H2].
  - lia.
  - intros k Hk. rewrite peek_poke by lia.
    destruct (start + 1 + Z.of_nat k =? dest) eqn:E1; bools; [lia|].
    replace (start + 1 + Z.of_nat k) with (start + Z.of_nat (S k)) by lia.
    apply Hnz. lia.
  - rewrite peek_poke by lia.
    destruct (start + 1 + Z.of_nat m =? dest) eqn:E1; bools; [lia|].
    now replace (start + 1 + Z.of_nat m) with (start + Z.of_nat (S m)) by lia.
  - lia.
  - lia.
  - replace (Z.to_nat (start + 1 + Z.of_nat m))
      with (Z.to_nat (start + Z.of_nat (S m))) in H2 by lia.
    split; congruence.
Qed.

Lemma str_trim_within (b : list Z) :
  fits b -> (c_scan b < length b)%nat -> within b (str_trim (Some b)).
Proof.
  intros Hb Hin. cbn [str_trim]. cbv zeta.
  destruct (peek b (Z.of_nat (skip_ws b)) =? 0) eqn:E0; bools.
  { destruct (poke_keeps b 0 0 1) as [H1 H2]; [lia|lia|].
    apply (within_keeps b _ 1); [lia|assumption|assumption]. }
  rewrite (str_len_fits _ Hb).
  pose proof (trim_scans b E0) as [Hse [_ [_ _]]]. cbv zeta in Hse.
  set (e := back_ws (Z.to_nat (Z.of_nat (c_scan b) - 1
                               - Z.of_nat (skip_ws b))) b
              (Z.of_nat (skip_ws b)) (Z.of_nat (c_scan b) - 1)) in *.
  destruct (poke_keeps b (e + 1) 0 (S (c_scan b))) as [H1 H2]; [lia|lia|].
  destruct (Z.of_nat (skip_ws b) >? 0) eqn:Es;
    [|apply (within_keeps b _ (S (c_scan b))); [lia|assumption|assumption]].
  bools.
  assert (Hcut : c_scan (poke b (e + 1) 0) = Z.to_nat (e + 1)).
  { replace (e + 1) with (Z.of_nat (Z.to_nat (e + 1))) at 1 by lia.
    apply c_scan_cut. lia. }
  destruct (shift_loop_keeps (S (length (poke b (e + 1) 0)))
              (Z.to_nat (e + 1) - skip_ws b) (poke b (e + 1) 0) 0
              (Z.of_nat (skip_ws b))) as [H3 H4].
  - lia.
  - intros k Hk.
    replace (Z.of_nat (skip_ws b) + Z.of_nat k)
      with (Z.of_nat (skip_ws b + k)) by lia.
    apply peek_before_scan. lia.
  - replace (Z.of_nat (skip_ws b) + Z.of_nat (Z.to_nat (e + 1) - skip_ws b))
      with (Z.of_nat (c_scan (poke b (e + 1) 0))) by lia.
    apply peek_scan.
  - lia.
  - pose proof (c_scan_le (poke b (e + 1) 0)). lia.
  - assert (HK : Z.to_nat (Z.of_nat (skip_ws b)
                           + Z.of_nat (Z.to_nat (e + 1) - skip_ws b))
                 = Z.to_nat (e + 1)) by lia.
    rewrite HK in H4.
    destruct (poke_keeps b (e + 1) 0 (Z.to_nat (e + 1) + 1)) as [_ H5];
      [lia|lia|].
    apply (within_keeps b _ (Z.to_nat (e + 1) + 1));
      [lia|congruence|congruence].
Qed.

Lemma str_ltrim_within (b : list Z) :
  fits b -> (c_scan b < length b)%nat -> within b (str_ltrim (Some b)).
Proof.
  intros Hb Hin. cbn [str_ltrim]. cbv zeta.
  pose proof (skip_ws_le b) as Hle.
  destruct (Z.of_nat (skip_ws b) =? 0) eqn:E0; cbn [negb]; bools.
  { apply (within_keeps b b 0); [lia|reflexivity|reflexivity]. }
  rewrite str_len_fits
    by (unfold fits in *; rewrite c_scan_drop by assumption; lia).
  rewrite c_scan_drop by assumption.
  rewrite to_size_id by (unfold fits, INT_MAX, ALLOC_MAX in *; lia).
  destruct (ltrim_loop_keeps (Z.of_nat (skip_ws b)) (c_scan b)
              (Z.to_nat (Z.of_nat (c_scan b - skip_ws b) + 1)) b 0)
    as [H1 H2]; [lia|lia|lia|].
  apply (within_keeps b _ (c_scan b)); [lia|assumption|assumption].
Qed.

Lemma str_rtrim_within (b : list Z) :
  fits b -> (c_scan b < length b)%nat -> within b (str_rtrim (Some b)).
Proof.
  intros Hb Hin. cbn [str_rtrim]. rewrite (str_len_fits _ Hb). cbv zeta.
  destruct (Z.of_nat (c_scan b) =? 0) eqn:E; bools.
  { apply (within_keeps b b 0); [lia|reflexivity|reflexivity]. }
  rewrite Nat2Z.id.
  destruct (rtrim_scan b) as [m [Hm [Hle _]]]. cbv zeta in Hm. rewrite Hm.
  destruct (poke_keeps b (Z.of_nat m) 0 (S (c_scan b))) as [H1 H2];
    [lia|lia|].
  apply (within_keeps b _ (S (c_scan b))); [lia|assumption|assumption].
Qed.

(** X29.  Let a buffer list its terminator and have a length that fits
    [int].  Each in-place routine returns it with as many cells as it
    had and with the cells after the terminator as they were: no
    routine writes past the terminator of the text it was given. *)
Theorem in_place_within_bounds (b : list Z) (find replace : Z) :
  fits b -> (c_scan b < length b)%nat ->
  within b (str_reverse (Some b)) /\
  within b (str_capitalize (Some b)) /\
  within b (str_uppercase (Some b)) /\
  within b (str_lowercase (Some b)) /\
  within b (str_title (Some b)) /\
  within b (str_trim (Some b)) /\
  within b (str_ltrim (Some b)) /\
  within b (str_rtrim (Some b)) /\
  within b (str_replace_char (Some b) find replace).
Proof.
  intros Hb Hin.
  split; [|split; [|split; [|split; [|split; [|split; [|split; [|split]]]]]]].
  - rewrite (str_reverse_cells _ Hb). apply within_cells.
    now rewrite length_rev, length_content.
  - cbn [str_capitalize]. destruct b as [|c b]; [simpl in Hin; lia|].
    rewrite peek_0. destruct (c =? 0).
    + apply (within_keeps _ _ 0); [lia|reflexivity|reflexivity].
    + destruct (poke_keeps (c :: b) 0 (char_capitalize c) 1) as [H1 H2];
        [lia|simpl; lia|].
      apply (within_keeps _ _ 1); [lia|assumption|assumption].
  - cbn [str_uppercase]. rewrite uppercase_loop_cells. apply within_cells.
    now rewrite length_map, length_content.
  - cbn [str_lowercase]. rewrite lowercase_loop_cells. apply within_cells.
    now rewrite length_map, length_content.
  - cbn [str_title]. rewrite title_loop_cells. apply within_cells.
    now rewrite length_title_case, length_content.
  - now apply str_trim_within.
  - now apply str_ltrim_within.
  - now apply str_rtrim_within.
  - cbn [str_replace_char]. rewrite replace_loop_cells. apply within_cells.
    now rewrite length_map, length_content.
Qed.

Lemma in_place_within_bounds_witness :
  fits buffer_of_five /\
  (c_scan buffer_of_five < length buffer_of_five)%nat /\
  within buffer_of_five (str_reverse (Some buffer_of_five)) /\
  within buffer_of_five (str_capitalize (Some buffer_of_five)) /\
  within buffer_of_five (str_uppercase (Some buffer_of_five)) /\
  within buffer_of_five (str_lowercase (Some buffer_of_five)) /\
  within buffer_of_five (str_title (Some buffer_of_five)) /\
  within buffer_of_five (str_trim (Some buffer_of_five)) /\
  within buffer_of_five (str_ltrim (Some buffer_of_five)) /\
  within buffer_of_five (str_rtrim (Some buffer_of_five)) /\
  within buffer_of_five (str_replace_char (Some buffer_of_five) 97 98).
Proof.
  assert (Hf : fits buffer_of_five) by (unfold fits, INT_MAX; simpl; lia).
  assert (Hin : (c_scan buffer_of_five < length buffer_of_five)%nat)
    by (simpl; lia).
  split; [exact Hf|]. split; [exact Hin|].
  exact (in_place_within_bounds buffer_of_five 97 98 Hf Hin).
Defined.

(** ** Splitting, then joining with another separator *)

Lemma glue_fields_replaced (cur : list Z) (d sep : Z) (t : list Z) :
  glue sep (fields_from cur d t) = cur ++ map (replaced d sep) t.
Proof.
  revert cur. induction t as [|u t IH]; intros cur; cbn [fields_from map].
  - cbn [glue]. now rewrite app_nil_r.
  - unfold replaced at 1. destruct (u =? d) eqn:E.
    + rewrite glue_cons by apply fields_from_nonempty.
      now rewrite IH.
    + rewrite IH. now rewrite <- app_assoc.
Qed.

(** X30.  For a text whose length fits [int], a separator other than
    the zero unit and every allocation granted, [str_join_n] with that
    separator, run on the array that [str_split] returned for the
    delimiter [d], returns a new buffer that holds the text with every
    [d] replaced by the separator: the text that [str_replace_char]
    leaves in place. *)
Theorem split_join_replaces (b : list Z) (d sep : Z) (h : heap) :
  fits b -> sep <> 0 ->
  grants (occurrences d (content b) + 3) h ->
  exists (p : ptr) (h1 : heap),
    str_split (Some b) d h = Some (p, h1) /\
    yields (str_join_n p sep) h1 (map (replaced d sep) (content b)) /\
    units (str_replace_char (Some b) d sep)
    = map (replaced d sep) (content b).
Proof.
  intros Hb Hsep Hg.
  replace (occurrences d (content b) + 3)%nat
    with ((occurrences d (content b) + 2) + 1)%nat in Hg by lia.
  apply grants_add in Hg as [Hsplit Hjoin].
  destruct (str_split_run b d h Hb) as [Hrun _].
  destruct (Hrun Hsplit) as (l & ls & h1 & Hs & Hth & Hbud).
  exists (Ptr l), h1. split; [exact Hs|].
  pose proof (content_nonzero b) as Hnz.
  assert (Hfields : Forall nonzero (fields d (content b)))
    by (apply fields_from_nonzero; [constructor|assumption]).
  assert (Hglue : glue sep (fields d (content b))
                  = map (replaced d sep) (content b))
    by apply (glue_fields_replaced []).
  split.
  - exists (fresh (dom (blocks h1))). split; [apply fresh_free|].
    split.
    + rewrite <- Hglue.
      apply (str_join_n_ok h h1 l ls); try assumption.
      * apply fields_from_nonempty.
      * rewrite Hglue, length_map, length_content. exact Hb.
      * unfold grants. now rewrite Hbud.
    + apply c_string_upd, nonzero_map; [|assumption].
      intros c. now apply replaced_nonzero.
  - cbn [str_replace_char units]. rewrite content_replace_loop.
    now replace (sep =? 0) with false by (symmetry; now apply Z.eqb_neq).
Qed.

Lemma split_join_replaces_witness :
  fits (lit "a,b,,c") /\ 59 <> 0 /\
  grants (occurrences 44 (content (lit "a,b,,c")) + 3) (heap0 6) /\
  exists (p : ptr) (h1 : heap),
    str_split (Some (lit "a,b,,c")) 44 (heap0 6) = Some (p, h1) /\
    yields (str_join_n p 59) h1
      (map (replaced 44 59) (content (lit "a,b,,c"))) /\
    units (str_replace_char (Some (lit "a,b,,c")) 44 59)
    = map (replaced 44 59) (content (lit "a,b,,c")).
Proof.
  assert (Hf : fits (lit "a,b,,c")) by (unfold fits, INT_MAX; simpl; lia).
  assert (Hs : 59 <> 0) by lia.
  assert (Hg : grants (occurrences 44 (content (lit "a,b,,c")) + 3) (heap0 6))
    by (vm_compute; reflexivity).
  split; [exact Hf|]. split; [exact Hs|]. split; [exact Hg|].
  exact (split_join_replaces (lit "a,b,,c") 44 59 (heap0 6) Hf Hs Hg).
Defined.
